(** * Tic-tac-toe game-session core: board, player (move chooser) and game.

    A shallow embedding of [board.py], [utils.py], [prompts.py], [player.py]
    and [game.py].  Python values are modelled as follows:
    - [int] as [Z]; [None]-or-value as [option];
    - [str] as [string], one character per code point below 256; the
      response parser, which looks at the class of each character, is also
      given on [text], a list of code points of any size;
    - [float] as [spec_float] (IEEE binary64 values, never computed with);
    - a call that may raise returns a [PyResult];
    - the outside world (the pseudo-random source, the language-model agent,
      [json.loads], the clock) is an explicit [Env] passed to each call. *)

From Stdlib Require Import ZArith List String Ascii Bool Lia.
From Stdlib Require Import SpecFloat DecimalString.
Import ListNotations.

Open Scope list_scope.
Open Scope string_scope.
Open Scope Z_scope.

(** ** Python results and exceptions *)

Inductive ExcClass : Type :=
| JSONDecodeError      (* subclass of ValueError *)
| ValueError
| KeyError
| AttributeError
| TypeError
| OverflowError
| IndexError
| RecursionError
| OtherException.

Record PyExc : Type := mkExc { exc_class : ExcClass; exc_str : string }.

Inductive PyResult (A : Type) : Type :=
| Returned (a : A)
| Raised (e : PyExc).

Arguments Returned {A} a.
Arguments Raised {A} e.

Definition bind {A B : Type} (m : PyResult A) (k : A -> PyResult B) : PyResult B :=
  match m with
  | Returned a => k a
  | Raised e => Raised e
  end.

Notation "x <- m ;; k" := (bind m (fun x => k))
  (at level 61, m at next level, right associativity).
Notation "' p <- m ;; k" := (bind m (fun p => k))
  (at level 61, p pattern, m at next level, right associativity).

Definition raise {A : Type} (c : ExcClass) (msg : string) : PyResult A :=
  Raised (mkExc c msg).

(** ** Python lists indexed by an [int] *)

(** [l[i]]: a negative index counts from the end, an index outside the list
    raises [IndexError]. *)
Definition py_getitem {A : Type} (l : list A) (i : Z) : PyResult A :=
  let n := Z.of_nat (List.length l) in
  let j := if i <? 0 then i + n else i in
  if (j <? 0) || (n <=? j) then raise IndexError "list index out of range"
  else match nth_error l (Z.to_nat j) with
       | Some a => Returned a
       | None => raise IndexError "list index out of range"
       end.

Fixpoint list_update {A : Type} (l : list A) (n : nat) (v : A) : list A :=
  match l, n with
  | [], _ => []
  | _ :: t, O => v :: t
  | h :: t, S n' => h :: list_update t n' v
  end.

(** [l[i] = v]. *)
Definition py_setitem {A : Type} (l : list A) (i : Z) (v : A) : PyResult (list A) :=
  let n := Z.of_nat (List.length l) in
  let j := if i <? 0 then i + n else i in
  if (j <? 0) || (n <=? j) then raise IndexError "list assignment index out of range"
  else Returned (list_update l (Z.to_nat j) v).

(** Comparison of a value that may be [None] with an [int] literal. *)
Definition py_lt (x : option Z) (k : Z) : PyResult bool :=
  match x with
  | Some z => Returned (z <? k)
  | None => raise TypeError "'<' not supported between instances of 'NoneType' and 'int'"
  end.

Definition py_gt (x : option Z) (k : Z) : PyResult bool :=
  match x with
  | Some z => Returned (k <? z)
  | None => raise TypeError "'>' not supported between instances of 'NoneType' and 'int'"
  end.

(** ** utils.py *)

Definition Symbol : Type := string.
Definition Cell : Type := option Symbol.
Definition Grid : Type := list (list Cell).
Definition Move : Type := (Z * Z)%type.

(** [a == b] on cells ([None] or a [str]). *)
Definition cell_eqb (a b : Cell) : bool :=
  match a, b with
  | None, None => true
  | Some x, Some y => String.eqb x y
  | _, _ => false
  end.

Definition is_none (c : Cell) : bool :=
  match c with None => true | Some _ => false end.

(** Truth value of a cell: [None] and the empty string are false. *)
Definition truthy (c : Cell) : bool :=
  match c with
  | None => false
  | Some s => negb (String.eqb s "")
  end.

(** [board[row][col]]. *)
Definition grid_cell (b : Grid) (row col : Z) : PyResult Cell :=
  r <- py_getitem b row ;; py_getitem r col.

(** One test of [check_winner]: [x0 == x1 == x2 and x0 is not None], the
    chained comparison reading its third operand only when the first two are
    equal.  [Some w] stands for [return w]. *)
Definition check_line (x0 x1 x2 : PyResult Cell) : PyResult (option Cell) :=
  a <- x0 ;;
  b <- x1 ;;
  if cell_eqb a b then
    c <- x2 ;;
    if cell_eqb b c && negb (is_none a) then Returned (Some a) else Returned None
  else Returned None.

Fixpoint check_rows (rows : list (list Cell)) : PyResult (option Cell) :=
  match rows with
  | [] => Returned None
  | row :: rest =>
      w <- check_line (py_getitem row 0) (py_getitem row 1) (py_getitem row 2) ;;
      match w with
      | Some s => Returned (Some s)
      | None => check_rows rest
      end
  end.

Fixpoint check_cols (b : Grid) (cols : list Z) : PyResult (option Cell) :=
  match cols with
  | [] => Returned None
  | col :: rest =>
      w <- check_line (grid_cell b 0 col) (grid_cell b 1 col) (grid_cell b 2 col) ;;
      match w with
      | Some s => Returned (Some s)
      | None => check_cols b rest
      end
  end.

(** [check_winner]: rows, then columns, then the two diagonals. *)
Definition check_winner (b : Grid) : PyResult Cell :=
  w <- check_rows b ;;
  match w with
  | Some s => Returned s
  | None =>
      w <- check_cols b [0; 1; 2] ;;
      match w with
      | Some s => Returned s
      | None =>
          w <- check_line (grid_cell b 0 0) (grid_cell b 1 1) (grid_cell b 2 2) ;;
          match w with
          | Some s => Returned s
          | None =>
              w <- check_line (grid_cell b 0 2) (grid_cell b 1 1) (grid_cell b 2 0) ;;
              match w with
              | Some s => Returned s
              | None => Returned None
              end
          end
      end
  end.

(** [is_board_full]. *)
Definition is_board_full (b : Grid) : bool :=
  forallb (fun row => forallb (fun c => negb (is_none c)) row) b.

Fixpoint available_in_row (b : Grid) (row : Z) (cols : list Z) : PyResult (list Move) :=
  match cols with
  | [] => Returned []
  | col :: rest =>
      c <- grid_cell b row col ;;
      more <- available_in_row b row rest ;;
      Returned (if is_none c then (row, col) :: more else more)
  end.

Fixpoint available_in_rows (b : Grid) (rows : list Z) : PyResult (list Move) :=
  match rows with
  | [] => Returned []
  | row :: rest =>
      here <- available_in_row b row [0; 1; 2] ;;
      more <- available_in_rows b rest ;;
      Returned (here ++ more)%list
  end.

(** [get_available_moves]: the empty cells in row-major order. *)
Definition get_available_moves (b : Grid) : PyResult (list Move) :=
  available_in_rows b [0; 1; 2].

(** ** board.py *)

Module Board.

(** [__init__]: [[None, None, None] for _ in range(3)]. *)
Definition init : Grid :=
  [[None; None; None]; [None; None; None]; [None; None; None]].

(** [make_move]: the four range tests are a short-circuit [or]; the
    assignment mutates the row list in place, here the row is replaced. *)
Definition make_move (b : Grid) (row col : option Z) (sym : Symbol)
  : PyResult (bool * Grid) :=
  t1 <- py_lt row 0 ;;
  if t1 then Returned (false, b) else
  t2 <- py_gt row 2 ;;
  if t2 then Returned (false, b) else
  t3 <- py_lt col 0 ;;
  if t3 then Returned (false, b) else
  t4 <- py_gt col 2 ;;
  if t4 then Returned (false, b) else
  match row, col with
  | Some r, Some c =>
      line <- py_getitem b r ;;
      old <- py_getitem line c ;;
      if negb (is_none old) then Returned (false, b) else
      line' <- py_setitem line c (Some sym) ;;
      b' <- py_setitem b r line' ;;
      Returned (true, b')
  | _, _ => raise TypeError "'<' not supported between instances of 'NoneType' and 'int'"
  end.

Definition get_winner (b : Grid) : PyResult Cell := check_winner b.

Definition is_full (b : Grid) : bool := is_board_full b.

Definition get_available_moves (b : Grid) : PyResult (list Move) :=
  get_available_moves b.

(** [get_state]: [[row[:] for row in self.board]], a copy equal to the
    grid. *)
Definition get_state (b : Grid) : Grid := map (fun row => row) b.

Definition reset (_ : Grid) : Grid := init.

End Board.

(** The shape every [Board] object has: three rows of three cells. *)
Definition wf_grid (b : Grid) : Prop :=
  List.length b = 3%nat /\ Forall (fun row => List.length row = 3%nat) b.

Definition example_grid : Grid :=
  [[Some "X"; None; None]; [None; Some "O"; None]; [None; None; None]].

(** ** Python strings *)

Definition dq : string := String "034"%char "".
Definition nl : string := String "010"%char "".

(** [str(z)] for an [int]. *)
Definition str_of_Z (z : Z) : string := NilZero.string_of_int (Z.to_int z).

(** [str(x)] for an [int] or [None]. *)
Definition str_of_opt_Z (x : option Z) : string :=
  match x with
  | Some z => str_of_Z z
  | None => "None"
  end.

(** [sep.join(l)]. *)
Fixpoint py_join (sep : string) (l : list string) : string :=
  match l with
  | [] => ""
  | [x] => x
  | x :: rest => x ++ sep ++ py_join sep rest
  end.

(** [c.isspace()] for a code point below 256. *)
Definition py_isspace (c : ascii) : bool :=
  let n := Z.of_nat (nat_of_ascii c) in
  ((9 <=? n) && (n <=? 13)) || ((28 <=? n) && (n <=? 32))
  || (n =? 133) || (n =? 160).

Fixpoint lstrip (s : string) : string :=
  match s with
  | "" => ""
  | String c s' => if py_isspace c then lstrip s' else s
  end.

Fixpoint rstrip (s : string) : string :=
  match s with
  | "" => ""
  | String c s' =>
      let r := rstrip s' in
      if String.eqb r "" && py_isspace c then "" else String c r
  end.

(** [s.strip()]. *)
Definition py_strip (s : string) : string := rstrip (lstrip s).

(** [Some rest] when [s = p ++ rest]. *)
Fixpoint strip_prefix (p s : string) : option string :=
  match p, s with
  | "", _ => Some s
  | String a p', String b s' => if Ascii.eqb a b then strip_prefix p' s' else None
  | String _ _, "" => None
  end.

(** The text before and after the leftmost occurrence of [sep] in [s]. *)
Fixpoint find_sub (sep s : string) : option (string * string) :=
  match strip_prefix sep s with
  | Some rest => Some ("", rest)
  | None =>
      match s with
      | "" => None
      | String c s' =>
          match find_sub sep s' with
          | Some (before, after) => Some (String c before, after)
          | None => None
          end
      end
  end.

(** [sep in s]. *)
Definition py_contains (sep s : string) : bool :=
  match find_sub sep s with
  | Some _ => true
  | None => false
  end.

Fixpoint split_fuel (fuel : nat) (sep s : string) : list string :=
  match find_sub sep s with
  | None => [s]
  | Some (before, after) =>
      match fuel with
      | O => [s]
      | S fuel' => before :: split_fuel fuel' sep after
      end
  end.

(** [s.split(sep)]: the pieces between the non-overlapping occurrences of
    [sep], found left to right.  A piece is cut off at most once per
    character of [s], so [String.length s] rounds are enough. *)
Definition py_split (s sep : string) : PyResult (list string) :=
  match sep with
  | "" => raise ValueError "empty separator"
  | _ => Returned (split_fuel (String.length s) sep s)
  end.

(** [x in l] for a list of moves. *)
Definition move_eqb (a b : Move) : bool :=
  (fst a =? fst b) && (snd a =? snd b).

Definition move_in (m : Move) (l : list Move) : bool :=
  existsb (move_eqb m) l.

(** ** prompts.py *)

Definition SYSTEM_PROMPT : string :=
  "You are an expert tic-tac-toe player. Your goal is to win the game by making strategic moves.

Rules:
- The board is a 3x3 grid with positions (0,0) to (2,2)
- Row 0 is the top row, row 2 is the bottom row
- Column 0 is the left column, column 2 is the right column
- You win by getting three of your symbols in a row (horizontal, vertical, or diagonal)
- Block your opponent from getting three in a row
- Take the center if available
- Take corners when possible

You must respond with ONLY a JSON object in this exact format:
{" ++ dq ++ "row" ++ dq ++ ": 0, " ++ dq ++ "col" ++ dq ++ ": 1, " ++ dq
  ++ "reasoning" ++ dq ++ ": " ++ dq ++ "brief explanation" ++ dq ++ "}

The row and col values must be integers between 0 and 2.
Do not include any other text or explanation outside the JSON object.".

(** The inner loop of [get_move_prompt]: [row_display += f" {symbol} |"]
    with [symbol = cell if cell else " "]. *)
Fixpoint row_cells_display (row : list Cell) : string :=
  match row with
  | [] => ""
  | c :: rest =>
      " " ++ (match c with
              | Some s => if String.eqb s "" then " " else s
              | None => " "
              end) ++ " |" ++ row_cells_display rest
  end.

(** The outer loop, over [enumerate(board_state)]. *)
Fixpoint board_rows_lines (row_idx : Z) (rows : Grid) : list string :=
  match rows with
  | [] => []
  | row :: rest =>
      (" " ++ str_of_Z row_idx ++ " |" ++ row_cells_display row)
        :: "   +---+---+---+"
        :: board_rows_lines (row_idx + 1) rest
  end.

Definition get_move_prompt (board_state : Grid) (player_symbol : Symbol)
    (available_moves : list Move) : string :=
  let board_lines :=
    (nl ++ "Current Board State:")
      :: "     0   1   2"
      :: "   +---+---+---+"
      :: board_rows_lines 0 board_state in
  let board_str := py_join nl board_lines in
  let moves_str :=
    py_join ", "
      (map (fun m : Move => "(" ++ str_of_Z (fst m) ++ "," ++ str_of_Z (snd m) ++ ")")
           available_moves) in
  board_str ++ "

You are playing as: " ++ player_symbol ++ "
Available moves (row, col): " ++ moves_str ++ "

Analyze the board and choose your best move. Consider:
1. Can you win on this move?
2. Must you block opponent from winning?
3. Strategic positioning (center, corners, sides)

Respond with JSON only: {" ++ dq ++ "row" ++ dq ++ ": <int>, " ++ dq ++ "col" ++ dq
  ++ ": <int>, " ++ dq ++ "reasoning" ++ dq ++ ": " ++ dq ++ "<brief explanation>"
  ++ dq ++ "}".

(** ** Decoded JSON values

    What [json.loads] returns: [None], [bool], [int], [float], [str], [list]
    or [dict].  A [dict] is kept as an association list read by its first
    binding of a key. *)

#[warnings="-register-all"]
Inductive json : Type :=
| JNull
| JBool (b : bool)
| JInt (z : Z)
| JFloat (f : spec_float)
| JString (s : string)
| JArray (items : list json)
| JObject (fields : list (string * json)).

Fixpoint assoc_get (k : string) (fields : list (string * json)) : option json :=
  match fields with
  | [] => None
  | (k', v) :: rest => if String.eqb k k' then Some v else assoc_get k rest
  end.

(** [type(v).__name__]. *)
Definition type_name (v : json) : string :=
  match v with
  | JNull => "NoneType"
  | JBool _ => "bool"
  | JInt _ => "int"
  | JFloat _ => "float"
  | JString _ => "str"
  | JArray _ => "list"
  | JObject _ => "dict"
  end.

(** [data.get(key, default)]: only a [dict] has a [get] attribute. *)
Definition py_get (data : json) (key : string) (default : json) : PyResult json :=
  match data with
  | JObject fields =>
      match assoc_get key fields with
      | Some v => Returned v
      | None => Returned default
      end
  | _ => raise AttributeError ("'" ++ type_name data ++ "' object has no attribute 'get'")
  end.

Definition is_digit (c : ascii) : bool :=
  let n := Z.of_nat (nat_of_ascii c) in (48 <=? n) && (n <=? 57).

Definition digit_val (c : ascii) : Z := Z.of_nat (nat_of_ascii c) - 48.

(** The white space [int()] skips around a literal. *)
Definition int_isspace (c : ascii) : bool :=
  let n := Z.of_nat (nat_of_ascii c) in
  ((9 <=? n) && (n <=? 13)) || (n =? 32) || (n =? 133) || (n =? 160).

Fixpoint int_lstrip (s : string) : string :=
  match s with
  | "" => ""
  | String c s' => if int_isspace c then int_lstrip s' else s
  end.

Fixpoint int_rstrip (s : string) : string :=
  match s with
  | "" => ""
  | String c s' =>
      let r := int_rstrip s' in
      if String.eqb r "" && int_isspace c then "" else String c r
  end.

(** Digits with single underscores between them; [after_digit] tells
    whether the previous character was a digit.  The result is the value and
    the number of digits. *)
Fixpoint read_digits (s : string) (after_digit : bool) (acc : Z) (count : Z)
  : option (Z * Z) :=
  match s with
  | "" => if after_digit then Some (acc, count) else None
  | String c s' =>
      if is_digit c then read_digits s' true (10 * acc + digit_val c) (count + 1)
      else if Ascii.eqb c "_"%char && after_digit then read_digits s' false acc count
      else None
  end.

(** [int(s)] for a [str]: optional white space, an optional sign, decimal
    digits; more than 4300 digits are refused.  The message of the other
    [ValueError] ends with [repr(s)], left out here. *)
Definition int_of_str (s : string) : PyResult Z :=
  let body := int_rstrip (int_lstrip s) in
  let '(negative, digits) :=
    match body with
    | String "-"%char rest => (true, rest)
    | String "+"%char rest => (false, rest)
    | _ => (false, body)
    end in
  match read_digits digits false 0 0 with
  | Some (v, n) =>
      if 4300 <? n then
        raise ValueError "Exceeds the limit (4300 digits) for integer string conversion"
      else Returned (if negative then - v else v)
  | None => raise ValueError "invalid literal for int() with base 10"
  end.

(** [int(f)] for a [float]: truncation toward zero. *)
Definition int_of_float (f : spec_float) : PyResult Z :=
  match f with
  | S754_zero _ => Returned 0
  | S754_infinity _ => raise OverflowError "cannot convert float infinity to integer"
  | S754_nan => raise ValueError "cannot convert float NaN to integer"
  | S754_finite negative m e =>
      let magnitude :=
        if 0 <=? e then Z.pos m * 2 ^ e else Z.pos m / 2 ^ (- e) in
      Returned (if negative then - magnitude else magnitude)
  end.

(** [int(v)] for a decoded value. *)
Definition py_int (v : json) : PyResult Z :=
  match v with
  | JInt z => Returned z
  | JBool b => Returned (if b then 1 else 0)
  | JFloat f => int_of_float f
  | JString s => int_of_str s
  | JNull | JArray _ | JObject _ =>
      raise TypeError
        ("int() argument must be a string, a bytes-like object or a real number, not '"
           ++ type_name v ++ "'")
  end.

Definition is_null (v : json) : bool :=
  match v with JNull => true | _ => false end.

(** ** The outside world *)

(** A language-model agent, by the arguments [BaseAgent] was built with. *)
Record Agent : Type := mkAgent {
  agent_name : string;
  agent_description : string;
  agent_provider : string;
  agent_model : string
}.

(** What the calls of one operation into the outside world answer. *)
Record Env : Type := mkEnv {
  (** [random.choice(l)] returns [l[random_draw mod len(l)]] *)
  random_draw : nat;
  (** [agent.invoke(user_prompt, system_prompt, temperature, max_output_tokens)] *)
  agent_invoke : Agent -> string -> string -> spec_float -> Z -> PyResult string;
  (** [json.loads(text)] *)
  json_loads : string -> PyResult json;
  (** [(time.time() - start_time) * 1000] around the agent call *)
  elapsed_ms : spec_float;
  (** [time.time()] *)
  now : spec_float;
  (** [time.time() - self.start_time] when a game summary is logged *)
  duration : spec_float;
  (** [str(uuid.uuid4())] *)
  fresh_uuid : string;
  (** [NIKITAS_AGENTS_AVAILABLE] *)
  agents_available : bool;
  (** [BaseAgent(name, description, provider, model)] *)
  create_agent : string -> string -> string -> string -> PyResult Agent
}.

(** [random.choice(l)]. *)
Definition random_choice {A : Type} (env : Env) (l : list A) : PyResult A :=
  match l with
  | [] => raise IndexError "Cannot choose from an empty sequence"
  | _ =>
      match nth_error l (random_draw env mod List.length l)%nat with
      | Some a => Returned a
      | None => raise IndexError "list index out of range"
      end
  end.

(** ** player.py *)

(** The five keys [_choose_move_llm] fills in. *)
Record LlmMetadata : Type := mkLlmMetadata {
  prompt : option string;
  response : option string;
  reasoning : json;                       (* [JNull] is [None] *)
  response_time_ms : option spec_float;
  error : option string
}.

(** The dictionary [choose_move] returns: ['player_type'] and the five keys
    above. *)
Record Metadata : Type := mkMetadata {
  player_type : string;
  details : LlmMetadata
}.

Definition no_details : LlmMetadata := mkLlmMetadata None None JNull None None.

Definition set_response (md : LlmMetadata) (t : spec_float) (r : string) : LlmMetadata :=
  mkLlmMetadata (prompt md) (Some r) (reasoning md) (Some t) (error md).

Definition set_reasoning (md : LlmMetadata) (r : json) : LlmMetadata :=
  mkLlmMetadata (prompt md) (response md) r (response_time_ms md) (error md).

Definition set_error (md : LlmMetadata) (e : string) : LlmMetadata :=
  mkLlmMetadata (prompt md) (response md) (reasoning md) (response_time_ms md) (Some e).

(** [str(move)] for a pair of [int]s or [None]. *)
Definition str_of_opt_move (m : option Move) : string :=
  match m with
  | Some (r, c) => "(" ++ str_of_Z r ++ ", " ++ str_of_Z c ++ ")"
  | None => "None"
  end.

(** 0.7 as a binary64 value. *)
Definition float_0_7 : spec_float := S754_finite false 6305039478318694 (-53).

Module Player.

Record t : Type := mk {
  symbol : Symbol;
  name : string;
  agent : option Agent;
  use_llm : bool;
  provider : string;
  model : string;
  temperature : spec_float;
  move_history : list Move;
  last_prompt : option string;
  last_response : option string;
  last_reasoning : json;
  last_response_time : option spec_float
}.

(** [__init__]. *)
Definition init (env : Env) (symbol : Symbol) (name : option string)
    (agent : option Agent) (use_llm : bool) (provider model : string)
    (temperature : spec_float) : t :=
  let '(agent', use_llm') :=
    match agent with
    | None =>
        if use_llm && agents_available env then
          match create_agent env ("TicTacToe_" ++ symbol)
                  ("Tic-tac-toe player " ++ symbol) provider model with
          | Returned a => (Some a, use_llm)
          | Raised _ => (None, false)
          end
        else (None, use_llm)
    | Some a => (Some a, use_llm)
    end in
  let default_name :=
    match agent' with
    | Some _ => if use_llm' then symbol ++ " (" ++ model ++ ")"
                else "Player " ++ symbol
    | None => "Player " ++ symbol
    end in
  let name' :=
    match name with
    | Some n => if String.eqb n "" then default_name else n
    | None => default_name
    end in
  mk symbol name' agent' use_llm' provider model temperature [] None None JNull None.

(** Which exceptions [_parse_llm_response] catches:
    [(json.JSONDecodeError, ValueError, KeyError)]. *)
Definition parse_catches (e : PyExc) : bool :=
  match exc_class e with
  | JSONDecodeError | ValueError | KeyError => true
  | _ => false
  end.

(** The fence handling of [_parse_llm_response]. *)
Definition extract_payload (response : string) : PyResult string :=
  let response := py_strip response in
  if py_contains "```json" response then
    parts <- py_split response "```json" ;;
    inner <- py_getitem parts 1 ;;
    parts' <- py_split inner "```" ;;
    first <- py_getitem parts' 0 ;;
    Returned (py_strip first)
  else if py_contains "```" response then
    parts <- py_split response "```" ;;
    inner <- py_getitem parts 1 ;;
    parts' <- py_split inner "```" ;;
    first <- py_getitem parts' 0 ;;
    Returned (py_strip first)
  else Returned response.

(** The body of the [try] block of [_parse_llm_response]; [None] stands
    for falling out of the block. *)
Definition parse_try (env : Env) (response : string)
  : PyResult (option (Move * json)) :=
  payload <- extract_payload response ;;
  data <- json_loads env payload ;;
  row <- py_get data "row" JNull ;;
  col <- py_get data "col" JNull ;;
  reasoning <- py_get data "reasoning" (JString "No reasoning provided") ;;
  if negb (is_null row) && negb (is_null col) then
    r <- py_int row ;;
    c <- py_int col ;;
    Returned (Some ((r, c), reasoning))
  else Returned None.

(** [_parse_llm_response]: the pair (move, reasoning). *)
Definition _parse_llm_response (env : Env) (response : string)
    (available_moves : list Move) : PyResult (option Move * json) :=
  match parse_try env response with
  | Returned (Some (m, reasoning)) => Returned (Some m, reasoning)
  | Returned None => Returned (None, JNull)
  | Raised e => if parse_catches e then Returned (None, JNull) else Raised e
  end.

(** [_choose_move_llm]; [except Exception] catches whatever the agent
    call or the parser raises. *)
Definition _choose_move_llm (env : Env) (self : t) (ag : Agent)
    (available_moves : list Move) (board_state : Grid)
  : option Move * LlmMetadata :=
  let user_prompt := get_move_prompt board_state (symbol self) available_moves in
  let metadata := mkLlmMetadata (Some user_prompt) None JNull None None in
  match agent_invoke env ag user_prompt SYSTEM_PROMPT (temperature self) 256 with
  | Raised e => (None, set_error metadata (exc_str e))
  | Returned response =>
      let metadata := set_response metadata (elapsed_ms env) response in
      match _parse_llm_response env response available_moves with
      | Raised e => (None, set_error metadata (exc_str e))
      | Returned (move, reasoning) =>
          let metadata := set_reasoning metadata reasoning in
          match move with
          | Some m =>
              if move_in m available_moves then (Some m, metadata)
              else (None, set_error metadata
                            ("Invalid move " ++ str_of_opt_move move
                               ++ " not in available moves"))
          | None =>
              (None, set_error metadata
                       ("Invalid move " ++ str_of_opt_move move
                          ++ " not in available moves"))
          end
      end
  end.

(** The bookkeeping at the end of [choose_move]. *)
Definition record_move (self : t) (m : Move) (md : Metadata) : t :=
  mk (symbol self) (name self) (agent self) (use_llm self) (provider self)
     (model self) (temperature self)
     (move_history self ++ [m])%list
     (prompt (details md)) (response (details md)) (reasoning (details md))
     (response_time_ms (details md)).

(** [choose_move]: the move, the metadata ([None] for the empty
    dictionary) and the player after the call. *)
Definition choose_move (env : Env) (self : t) (available_moves : list Move)
    (board_state : option Grid) : PyResult (option Move * option Metadata * t) :=
  match available_moves with
  | [] => Returned (None, None, self)
  | _ :: _ =>
      let metadata :=
        mkMetadata (if use_llm self then "llm" else "random") no_details in
      '(m, metadata) <-
        match use_llm self, agent self, board_state with
        | true, Some ag, Some bs =>
            let '(move, llm_metadata) :=
              _choose_move_llm env self ag available_moves bs in
            let metadata := mkMetadata (player_type metadata) llm_metadata in
            let fallback :=
              m <- random_choice env available_moves ;;
              Returned (m, mkMetadata (player_type metadata)
                             (set_error (details metadata)
                                "LLM move invalid, used random fallback")) in
            match move with
            | None => fallback
            | Some m =>
                if negb (move_in m available_moves) then fallback
                else Returned (m, metadata)
            end
        | _, _, _ =>
            m <- random_choice env available_moves ;;
            Returned (m, metadata)
        end ;;
      Returned (Some m, Some metadata, record_move self m metadata)
  end.

Definition get_player_type (self : t) : string :=
  if use_llm self then "llm" else "random".

Definition get_model_name (self : t) : option string :=
  if use_llm self then Some (model self) else None.

End Player.

(** ** game.py *)

(** Which of the two players [current_player] refers to.  The two players
    of a game are distinct objects. *)
Inductive Side : Type := SideX | SideO.

Record HistoryEntry : Type := mkHistoryEntry {
  h_player : Symbol;
  h_row : option Z;
  h_col : option Z;
  h_reasoning : json
}.

(** The arguments of the two logger calls. *)
Inductive LogEvent : Type :=
| LogMove (game_id : string) (move_number : Z) (player : Symbol)
    (player_type : string) (board_state : Grid) (available_moves : list Move)
    (prompt_sent llm_response : option string) (llm_reasoning : json)
    (chosen_move : option (option Z * option Z)) (move_valid : bool)
    (error_message : option string) (response_time_ms : option spec_float)
| LogGame (game_id : string) (player_x_type : string)
    (player_x_model : option string) (player_o_type : string)
    (player_o_model : option string) (total_moves : Z) (winner : Cell)
    (is_draw : bool) (duration_seconds : spec_float) (final_board_state : Grid).

(** The dictionary [make_move] returns; an absent key is [None]. *)
Record MoveResult : Type := mkMoveResult {
  r_success : bool;
  r_message : string;
  r_board : Grid;
  r_game_over : bool;
  r_winner : option Cell;
  r_is_draw : option bool;
  r_current_player : option Symbol;
  r_move : option (option Z * option Z * Symbol);
  r_metadata : option (option Metadata)
}.

(** The dictionary [get_state] returns. *)
Record GameState : Type := mkGameState {
  s_board : Grid;
  s_current_player : option Symbol;
  s_winner : Cell;
  s_is_draw : bool;
  s_game_over : bool;
  s_move_history : list HistoryEntry;
  s_available_moves : list Move
}.

Module Game.

Record t : Type := mk {
  game_id : string;
  board : Grid;
  player_x : Player.t;
  player_o : Player.t;
  current_player : Side;
  winner : Cell;
  is_draw : bool;
  game_over : bool;
  move_history : list HistoryEntry;
  enable_logging : bool;
  start_time : spec_float
}.

(** [__init__]; the logger exists exactly when [enable_logging] holds. *)
Definition init (env : Env) (game_id : option string)
    (player_x player_o : option Player.t) (enable_logging : bool) : t :=
  mk (match game_id with
      | Some g => if String.eqb g "" then fresh_uuid env else g
      | None => fresh_uuid env
      end)
     Board.init
     (match player_x with
      | Some p => p
      | None => Player.init env "X" (Some "Player X") None false
                  "openai" "gpt-4o-mini" float_0_7
      end)
     (match player_o with
      | Some p => p
      | None => Player.init env "O" (Some "Player O") None false
                  "openai" "gpt-4o-mini" float_0_7
      end)
     SideX None false false [] enable_logging (now env).

(** The object [self.current_player] refers to. *)
Definition current (g : t) : Player.t :=
  match current_player g with
  | SideX => player_x g
  | SideO => player_o g
  end.

Definition other (s : Side) : Side :=
  match s with SideX => SideO | SideO => SideX end.

Definition set_current (g : t) (p : Player.t) : t :=
  match current_player g with
  | SideX => mk (game_id g) (board g) p (player_o g) (current_player g)
               (winner g) (is_draw g) (game_over g) (move_history g)
               (enable_logging g) (start_time g)
  | SideO => mk (game_id g) (board g) (player_x g) p (current_player g)
               (winner g) (is_draw g) (game_over g) (move_history g)
               (enable_logging g) (start_time g)
  end.

Definition set_board (g : t) (b : Grid) : t :=
  mk (game_id g) b (player_x g) (player_o g) (current_player g)
     (winner g) (is_draw g) (game_over g) (move_history g)
     (enable_logging g) (start_time g).

Definition set_history (g : t) (h : list HistoryEntry) : t :=
  mk (game_id g) (board g) (player_x g) (player_o g) (current_player g)
     (winner g) (is_draw g) (game_over g) h
     (enable_logging g) (start_time g).

(** [self.winner = w; self.game_over = True]. *)
Definition set_won (g : t) (w : Cell) : t :=
  mk (game_id g) (board g) (player_x g) (player_o g) (current_player g)
     w (is_draw g) true (move_history g) (enable_logging g) (start_time g).

(** [self.is_draw = True; self.game_over = True]. *)
Definition set_draw (g : t) : t :=
  mk (game_id g) (board g) (player_x g) (player_o g) (current_player g)
     (winner g) true true (move_history g) (enable_logging g) (start_time g).

(** [switch_player]. *)
Definition switch_player (g : t) : t :=
  mk (game_id g) (board g) (player_x g) (player_o g)
     (other (current_player g))
     (winner g) (is_draw g) (game_over g) (move_history g)
     (enable_logging g) (start_time g).

(** [_log_game_summary]. *)
Definition _log_game_summary (env : Env) (g : t) : list LogEvent :=
  if negb (enable_logging g) then []
  else [LogGame (game_id g)
          (Player.get_player_type (player_x g))
          (Player.get_model_name (player_x g))
          (Player.get_player_type (player_o g))
          (Player.get_model_name (player_o g))
          (Z.of_nat (List.length (move_history g)))
          (winner g) (is_draw g) (duration env) (Board.get_state (board g))].

(** [move_metadata.get(key)] on the dictionary, empty or not. *)
Definition md_get {A : Type} (f : LlmMetadata -> A) (default : A)
    (md : option Metadata) : A :=
  match md with
  | Some m => f (details m)
  | None => default
  end.

(** The first part of [make_move] after the two early returns: the
    coordinates the move is tried at, the metadata and the game with the
    chooser's bookkeeping done. *)
Definition determine_move (env : Env) (g : t) (row col : option Z)
    (available_moves : list Move)
  : PyResult (option Z * option Z * option Metadata * t) :=
  match row, col with
  | Some _, Some _ => Returned (row, col, None, g)
  | _, _ =>
      '(mv, move_metadata, p) <-
        Player.choose_move env (current g) available_moves
          (Some (Board.get_state (board g))) ;;
      let g := set_current g p in
      match mv with
      | Some (r, c) => Returned (Some r, Some c, move_metadata, g)
      | None => Returned (row, col, move_metadata, g)
      end
  end.

(** [make_move]: the result, the game after the call and the records
    handed to the logger, oldest first. *)
Definition make_move (env : Env) (g : t) (row col : option Z)
  : PyResult (MoveResult * t * list LogEvent) :=
  if game_over g then
    Returned (mkMoveResult false "Game is already over" (Board.get_state (board g))
                true (Some (winner g)) (Some (is_draw g)) None None None,
              g, [])
  else
  available_moves <- Board.get_available_moves (board g) ;;
  match available_moves with
  | [] =>
      let g := set_draw g in
      Returned (mkMoveResult false "No available moves" (Board.get_state (board g))
                  true (Some None) (Some true) None None None,
                g, _log_game_summary env g)
  | _ :: _ =>
  '(row, col, move_metadata, g) <- determine_move env g row col available_moves ;;
  let sym := Player.symbol (current g) in
  '(move_valid, b) <- Board.make_move (board g) row col sym ;;
  let g := set_board g b in
  let log1 :=
    if enable_logging g then
      [LogMove (game_id g)
         (Z.of_nat (List.length (move_history g)) + 1)
         sym
         (match move_metadata with Some m => player_type m | None => "random" end)
         (Board.get_state (board g))
         available_moves
         (md_get prompt None move_metadata)
         (md_get response None move_metadata)
         (md_get reasoning JNull move_metadata)
         (match row with Some _ => Some (row, col) | None => None end)
         move_valid
         (md_get error None move_metadata)
         (md_get response_time_ms None move_metadata)]
    else [] in
  if negb move_valid then
    Returned (mkMoveResult false
                ("Invalid move at (" ++ str_of_opt_Z row ++ ", "
                   ++ str_of_opt_Z col ++ ")")
                (Board.get_state (board g)) false None None (Some sym) None
                (Some move_metadata),
              g, log1)
  else
  let g :=
    set_history g
      (move_history g
         ++ [mkHistoryEntry sym row col (md_get reasoning JNull move_metadata)])%list in
  w <- Board.get_winner (board g) ;;
  if truthy w then
    let g := set_won g w in
    Returned (mkMoveResult true (Player.name (current g) ++ " wins!")
                (Board.get_state (board g)) true (Some w) (Some false) None
                (Some (row, col, sym)) (Some move_metadata),
              g, (log1 ++ _log_game_summary env g)%list)
  else if Board.is_full (board g) then
    let g := set_draw g in
    Returned (mkMoveResult true "It's a draw!"
                (Board.get_state (board g)) true (Some None) (Some true) None
                (Some (row, col, sym)) (Some move_metadata),
              g, (log1 ++ _log_game_summary env g)%list)
  else
    let g := switch_player g in
    Returned (mkMoveResult true "Move successful"
                (Board.get_state (board g)) false None None
                (Some (Player.symbol (current g)))
                (Some (row, col,
                       match current_player g with
                       | SideO => Player.symbol (player_x g)
                       | SideX => Player.symbol (player_o g)
                       end))
                (Some move_metadata),
              g, log1)
  end.

(** [get_state]. *)
Definition get_state (g : t) : PyResult GameState :=
  available_moves <-
    (if negb (game_over g) then Board.get_available_moves (board g)
     else Returned []) ;;
  Returned (mkGameState (Board.get_state (board g))
              (if negb (game_over g) then Some (Player.symbol (current g)) else None)
              (winner g) (is_draw g) (game_over g) (move_history g)
              available_moves).

(** [reset]. *)
Definition reset (env : Env) (g : t) : t :=
  mk (game_id g) (Board.reset (board g)) (player_x g) (player_o g) SideX
     None false false [] (enable_logging g) (now env).

End Game.

(** ** Notions used in the statements *)

Definition in_range (row col : Z) : Prop :=
  (0 <= row <= 2) /\ (0 <= col <= 2).

Definition occupied (c : Cell) : bool := negb (is_none c).

(** The number of marks on the board. *)
Definition count_occupied (b : Grid) : nat :=
  List.length (filter occupied (List.concat b)).

(** Every mark on the board is a non-empty string. *)
Definition marks_truthy (b : Grid) : Prop :=
  Forall (fun c => c = None \/ truthy c = true) (List.concat b).

(** The operations a caller can apply to a game. *)
Inductive reachable (g0 : Game.t) : Game.t -> Prop :=
| reach_start : reachable g0 g0
| reach_move (env : Env) (row col : option Z) (g g' : Game.t)
    (res : MoveResult) (logs : list LogEvent) :
    reachable g0 g ->
    Game.make_move env g row col = Returned (res, g', logs) ->
    reachable g0 g'
| reach_reset (env : Env) (g : Game.t) :
    reachable g0 g -> reachable g0 (Game.reset env g).

(** A game as its constructor leaves it. *)
Definition constructed (g0 : Game.t) : Prop :=
  exists env game_id player_x player_o enable_logging,
    g0 = Game.init env game_id player_x player_o enable_logging.

(** What a player's chooser is configured with. *)
Definition chooser_config (p : Player.t)
  : bool * option Agent * string * string * spec_float :=
  (Player.use_llm p, Player.agent p, Player.provider p, Player.model p,
   Player.temperature p).

(** [check_winner] on lines given by their three cells, in the order they
    are tested. *)
Fixpoint first_complete (lines : list (Cell * Cell * Cell)) : PyResult Cell :=
  match lines with
  | [] => Returned None
  | (a, b, c) :: rest =>
      w <- check_line (Returned a) (Returned b) (Returned c) ;;
      match w with
      | Some s => Returned s
      | None => first_complete rest
      end
  end.

(** Both players' symbols are non-empty strings. *)
Definition symbols_truthy (g : Game.t) : Prop :=
  Player.symbol (Game.player_x g) <> ""
  /\ Player.symbol (Game.player_o g) <> "".

(** What every operation keeps true of a game started as [g0]. *)
Record invariant (g0 g : Game.t) : Prop := mkInvariant {
  inv_wf : wf_grid (Game.board g);
  inv_count :
    List.length (Game.move_history g) = count_occupied (Game.board g);
  inv_running :
    Game.game_over g = false ->
    Game.winner g = None /\ Game.is_draw g = false
    /\ Board.is_full (Game.board g) = false;
  inv_over :
    Game.game_over g = true ->
    (Game.winner g <> None /\ Game.is_draw g = false)
    \/ (Game.winner g = None /\ Game.is_draw g = true
        /\ Board.is_full (Game.board g) = true);
  inv_id : Game.game_id g = Game.game_id g0;
  inv_logging : Game.enable_logging g = Game.enable_logging g0;
  inv_symbol_x :
    Player.symbol (Game.player_x g) = Player.symbol (Game.player_x g0);
  inv_symbol_o :
    Player.symbol (Game.player_o g) = Player.symbol (Game.player_o g0);
  inv_config_x :
    chooser_config (Game.player_x g) = chooser_config (Game.player_x g0);
  inv_config_o :
    chooser_config (Game.player_o g) = chooser_config (Game.player_o g0);
  inv_marks :
    symbols_truthy g0 ->
    marks_truthy (Game.board g)
    /\ Board.get_winner (Game.board g) = Returned (Game.winner g)
}.

(** The parts of a game no operation changes: identifier, logging switch,
    the players' symbols and chooser configuration. *)
Definition same_setup (g g' : Game.t) : Prop :=
  Game.game_id g' = Game.game_id g
  /\ Game.enable_logging g' = Game.enable_logging g
  /\ Player.symbol (Game.player_x g') = Player.symbol (Game.player_x g)
  /\ Player.symbol (Game.player_o g') = Player.symbol (Game.player_o g)
  /\ chooser_config (Game.player_x g') = chooser_config (Game.player_x g)
  /\ chooser_config (Game.player_o g') = chooser_config (Game.player_o g).

(** The parts of a game a move acts on: board, turn, flags and history. *)
Definition same_play (g g' : Game.t) : Prop :=
  Game.board g' = Game.board g
  /\ Game.current_player g' = Game.current_player g
  /\ Game.winner g' = Game.winner g
  /\ Game.is_draw g' = Game.is_draw g
  /\ Game.game_over g' = Game.game_over g
  /\ Game.move_history g' = Game.move_history g.

Definition all_cells : list Move :=
  [(0, 0); (0, 1); (0, 2); (1, 0); (1, 1); (1, 2); (2, 0); (2, 1); (2, 2)].

(** [s.split(marker)[0]]: the text before the first [marker], all of [s]
    when there is none. *)
Definition before_marker (marker s : string) : string :=
  match find_sub marker s with
  | Some (before, _) => before
  | None => s
  end.

(** [s.split(marker)[1]] when [marker] occurs in [s]: the text between its
    first two occurrences, or from the first one to the end. *)
Definition between_markers (marker s : string) : option string :=
  match find_sub marker s with
  | Some (_, after) => Some (before_marker marker after)
  | None => None
  end.

(** The text the parser decodes, given the stripped response: what follows
    the first [json] fence marker if there is one, else what follows the
    first fence marker, cut at the next marker and stripped; the response
    itself when it has no fence. *)
Definition fence_content (s : string) : string :=
  match between_markers "```json" s with
  | Some inner => py_strip (before_marker "```" inner)
  | None =>
      match between_markers "```" s with
      | Some inner => py_strip (before_marker "```" inner)
      | None => s
      end
  end.

(** ** Sample data *)

(** A decoder that knows the listed texts and refuses every other one. *)
Fixpoint decode_table (table : list (string * json)) (text : string)
  : PyResult json :=
  match table with
  | [] => raise JSONDecodeError "Expecting value: line 1 column 1 (char 0)"
  | (t, v) :: rest => if String.eqb t text then Returned v else decode_table rest text
  end.

Definition sample_agent : Agent :=
  mkAgent "TicTacToe_X" "Tic-tac-toe player X" "openai" "gpt-4o-mini".

(** An environment whose agent call answers [answer]. *)
Definition sample_env (answer : PyResult string) (table : list (string * json)) : Env :=
  mkEnv 4 (fun _ _ _ _ _ => answer) (decode_table table)
    (S754_finite false 1 10) (S754_zero false) (S754_finite false 1 1)
    "0f8fad5b-d9cb-469f-a165-70867728950e" true
    (fun n d p m => Returned (mkAgent n d p m)).

Definition offline_env : Env :=
  sample_env (raise OtherException "Connection timed out") [].

(** The text [{"row": "1", "col": "2"}] and what [json.loads] makes of it. *)
Definition quoted_fields_text : string :=
  "{" ++ dq ++ "row" ++ dq ++ ": " ++ dq ++ "1" ++ dq ++ ", "
      ++ dq ++ "col" ++ dq ++ ": " ++ dq ++ "2" ++ dq ++ "}".

Definition quoted_fields_value : json :=
  JObject [("row", JString "1"); ("col", JString "2")].

(** The text [{"row": 1, "col": 2}] inside a [json] fence. *)
Definition plain_fields_text : string :=
  "{" ++ dq ++ "row" ++ dq ++ ": 1, " ++ dq ++ "col" ++ dq ++ ": 2}".

Definition plain_fields_value : json :=
  JObject [("row", JInt 1); ("col", JInt 2)].

Definition fenced_response : string :=
  "Here is my move:" ++ nl ++ "```json" ++ nl ++ plain_fields_text ++ nl ++ "```" ++ nl.

Definition answering_env (text : string) : Env :=
  sample_env (Returned text)
    [(quoted_fields_text, quoted_fields_value);
     (plain_fields_text, plain_fields_value)].

Definition llm_player : Player.t :=
  Player.init offline_env "X" None (Some sample_agent) true "openai" "gpt-4o-mini"
    float_0_7.

Definition new_game : Game.t := Game.init offline_env None None None true.

(** Explicit moves applied one after the other. *)
Fixpoint play_moves (env : Env) (g : Game.t) (moves : list Move)
  : PyResult (list MoveResult * Game.t) :=
  match moves with
  | [] => Returned ([], g)
  | (r, c) :: rest =>
      '(res, g', _) <- Game.make_move env g (Some r) (Some c) ;;
      '(results, g'') <- play_moves env g' rest ;;
      Returned (res :: results, g'')
  end.

(** The game after the five moves X:(0,0), O:(1,1), X:(0,1), O:(2,2),
    X:(0,2). *)
Definition finished_game : Game.t :=
  match play_moves offline_env new_game [(0, 0); (1, 1); (0, 1); (2, 2); (0, 2)] with
  | Returned (_, g) => g
  | Raised _ => new_game
  end.

(** The game after X:(0,0), O:(1,1). *)
Definition running_game : Game.t :=
  match play_moves offline_env new_game [(0, 0); (1, 1)] with
  | Returned (_, g) => g
  | Raised _ => new_game
  end.

(** ** Further notions: lines, placements, automatic play *)

(** The eight lines of the board by their coordinates, in the order
    [check_winner] tests them. *)
Definition all_lines : list (Move * Move * Move) :=
  [((0, 0), (0, 1), (0, 2)); ((1, 0), (1, 1), (1, 2)); ((2, 0), (2, 1), (2, 2));
   ((0, 0), (1, 0), (2, 0)); ((0, 1), (1, 1), (2, 1)); ((0, 2), (1, 2), (2, 2));
   ((0, 0), (1, 1), (2, 2)); ((0, 2), (1, 1), (2, 0))].

(** The three cells of [line] all hold the mark [s]. *)
Definition line_held (b : Grid) (s : Symbol) (line : Move * Move * Move) : Prop :=
  let '(p, q, r) := line in
  grid_cell b (fst p) (snd p) = Returned (Some s)
  /\ grid_cell b (fst q) (snd q) = Returned (Some s)
  /\ grid_cell b (fst r) (snd r) = Returned (Some s).

(** Three cells holding one and the same mark. *)
Definition complete3 (t : Cell * Cell * Cell) : Prop :=
  exists s, t = (Some s, Some s, Some s).

(** The cell at [m] reads as empty. *)
Definition empty_at (b : Grid) (m : Move) : bool :=
  match grid_cell b (fst m) (snd m) with
  | Returned None => true
  | _ => false
  end.


(** A board whose top row X has completed. *)
Definition top_row_grid : Grid :=
  [[Some "X"; Some "X"; Some "X"]; [None; Some "O"; None]; [None; None; Some "O"]].


(** An outside world without the agent library. *)
Definition no_library_env : Env :=
  mkEnv 0 (fun _ _ _ _ _ => raise OtherException "no agent")
    (fun _ => raise JSONDecodeError "Expecting value: line 1 column 1 (char 0)")
    (S754_zero false) (S754_zero false) (S754_zero false)
    "0f8fad5b-d9cb-469f-a165-70867728950e" false
    (fun n d p m => Returned (mkAgent n d p m)).


(** The side to move after [i] moves of alternating play. *)
Definition side_of_index (i : nat) : Side :=
  if Nat.even i then SideX else SideO.

(** The player object of a side. *)
Definition side_player (g : Game.t) (s : Side) : Player.t :=
  match s with
  | SideX => Game.player_x g
  | SideO => Game.player_o g
  end.

(** The record [make_move] hands to [log_move] for a move tried at
    [(r, c)] with outcome [ok]. *)
Definition move_record (g g' : Game.t) (available_moves : list Move)
    (r c : Z) (md : option Metadata) (ok : bool) : LogEvent :=
  LogMove (Game.game_id g)
    (Z.of_nat (List.length (Game.move_history g)) + 1)
    (Player.symbol (Game.current g))
    (match md with Some m => player_type m | None => "random" end)
    (Game.board g') available_moves
    (Game.md_get prompt None md) (Game.md_get response None md)
    (Game.md_get reasoning JNull md)
    (Some (Some r, Some c)) ok
    (Game.md_get error None md) (Game.md_get response_time_ms None md).


(** The coordinates of a history entry. *)
Definition entry_coords (h : HistoryEntry) : option Z * option Z :=
  (h_row h, h_col h).

(** How history, board, turn and winner hang together in a game started as
    [g0]. *)
Record play_invariant (g0 g : Game.t) : Prop := mkPlayInvariant {
  (** every entry names an in-range cell that holds its player's mark *)
  play_entries :
    forall h, In h (Game.move_history g) ->
      exists r c,
        h_row h = Some r /\ h_col h = Some c /\ in_range r c
        /\ grid_cell (Game.board g) r c = Returned (Some (h_player h));
  (** every mark on the board has its entry *)
  play_marks :
    forall r c s, in_range r c ->
      grid_cell (Game.board g) r c = Returned (Some s) ->
      exists why, In (mkHistoryEntry s (Some r) (Some c) why) (Game.move_history g);
  (** no cell is played twice *)
  play_nodup : NoDup (map entry_coords (Game.move_history g));
  (** the players alternate, X first *)
  play_alternate :
    forall i h, nth_error (Game.move_history g) i = Some h ->
      h_player h = Player.symbol (side_player g0 (side_of_index i));
  play_turn_running :
    Game.game_over g = false ->
    Game.current_player g = side_of_index (List.length (Game.move_history g));
  play_turn_over :
    Game.game_over g = true ->
    exists n,
      List.length (Game.move_history g) = S n
      /\ Game.current_player g = side_of_index n;
  (** a complete line belongs to the recorded winner *)
  play_lines :
    symbols_truthy g0 ->
    forall s line, In line all_lines ->
      line_held (Game.board g) s line -> Game.winner g = Some s;
  (** the recorded winner is the player whose turn it was *)
  play_winner :
    symbols_truthy g0 ->
    forall s, Game.winner g = Some s ->
      s = Player.symbol (side_player g0 (Game.current_player g))
}.

(** The dictionary [play_auto] returns. *)
Record AutoResult : Type := mkAutoResult {
  a_winner : Cell;
  a_is_draw : bool;
  a_board : Grid;
  a_moves : list MoveResult;
  a_total_moves : Z
}.

(** The loop of [Game.play_auto]: [while not self.game_over], each round
    calling [make_move()] in the outside world [envs 0], [envs 1], ...
    [None] stands for a loop cut off after [fuel] rounds. *)
Fixpoint play_auto_loop (fuel : nat) (envs : nat -> Env) (g : Game.t)
    (moves : list MoveResult) (logs : list LogEvent)
  : PyResult (option (Game.t * list MoveResult * list LogEvent)) :=
  if Game.game_over g then Returned (Some (g, moves, logs))
  else
    match fuel with
    | O => Returned None
    | S fuel' =>
        '(result, g', logs') <- Game.make_move (envs O) g None None ;;
        play_auto_loop fuel' (fun k => envs (S k)) g'
          (moves ++ [result])%list (logs ++ logs')%list
    end.

(** [Game.play_auto]. *)
Definition play_auto (fuel : nat) (envs : nat -> Env) (g : Game.t)
  : PyResult (option (AutoResult * Game.t * list LogEvent)) :=
  out <- play_auto_loop fuel envs g [] [] ;;
  match out with
  | None => Returned None
  | Some (g', moves, logs) =>
      Returned
        (Some (mkAutoResult (Game.winner g') (Game.is_draw g')
                 (Board.get_state (Game.board g')) moves
                 (Z.of_nat (List.length (Game.move_history g'))),
               g', logs))
  end.


(** ** main.py: the registry of games and its handlers

    The module-level dictionary [games] is passed in and out of every
    handler; it is kept as the list of its items in insertion order, with
    one item per key.  A handler's [HTTPException] is a [Failed] response. *)

Module Api.

Record PlayerConfig : Type := mkPlayerConfig {
  use_llm : bool;
  provider : string;
  model : string;
  temperature : spec_float
}.

Record GameConfig : Type := mkGameConfig {
  player_x : option PlayerConfig;
  player_o : option PlayerConfig;
  enable_logging : bool
}.

Record MoveRequest : Type := mkMoveRequest {
  row : option Z;
  col : option Z
}.

Definition Games : Type := list (string * Game.t).

(** [games.get(key)], [None] when [key not in games]. *)
Fixpoint lookup (key : string) (games : Games) : option Game.t :=
  match games with
  | [] => None
  | (k, g) :: rest => if String.eqb key k then Some g else lookup key rest
  end.

(** [games[key] = g]: an existing key keeps its place, a new one goes
    last. *)
Fixpoint store (key : string) (g : Game.t) (games : Games) : Games :=
  match games with
  | [] => [(key, g)]
  | (k, g') :: rest =>
      if String.eqb key k then (k, g) :: rest else (k, g') :: store key g rest
  end.

(** [del games[key]]. *)
Fixpoint remove (key : string) (games : Games) : Games :=
  match games with
  | [] => []
  | (k, g) :: rest =>
      if String.eqb key k then rest else (k, g) :: remove key rest
  end.

Inductive Response (A : Type) : Type :=
| Ok (body : A)
| Failed (status_code : Z) (detail : string).

Arguments Ok {A} body.
Arguments Failed {A} status_code detail.

Definition not_found {A : Type} : Response A := Failed 404 "Game not found".

(** The ["player_x"] and ["player_o"] entries of the body of
    [create_game]. *)
Record PlayerInfo : Type := mkPlayerInfo {
  info_type : string;
  info_model : option string
}.

Record CreateBody : Type := mkCreateBody {
  created_id : string;
  created_message : string;
  created_state : GameState;
  created_x : PlayerInfo;
  created_o : PlayerInfo
}.

Record ListItem : Type := mkListItem {
  item_game_id : string;
  item_player_x_type : string;
  item_player_o_type : string;
  item_game_over : bool;
  item_winner : Cell
}.

(** [Player(symbol=..., use_llm=..., provider=..., model=...,
    temperature=...)] for a configured side. *)
Definition configured_player (env : Env) (sym : Symbol)
    (config : option PlayerConfig) : option Player.t :=
  match config with
  | Some c =>
      Some (Player.init env sym None None (use_llm c) (provider c) (model c)
              (temperature c))
  | None => None
  end.

Definition player_info (p : Player.t) : PlayerInfo :=
  mkPlayerInfo (Player.get_player_type p) (Player.get_model_name p).

(** [games[key]], raising [KeyError] on a missing key. *)
Definition getitem (key : string) (games : Games) : PyResult Game.t :=
  match lookup key games with
  | Some g => Returned g
  | None => raise KeyError key
  end.

(** [POST /games]. *)
Definition create_game (env : Env) (games : Games) (config : option GameConfig)
  : PyResult (CreateBody * Games) :=
  let game_id := fresh_uuid env in
  let '(px, po, logging) :=
    match config with
    | Some c =>
        (configured_player env "X" (player_x c),
         configured_player env "O" (player_o c),
         enable_logging c)
    | None => (None, None, true)
    end in
  let games := store game_id (Game.init env (Some game_id) px po logging) games in
  g <- getitem game_id games ;;
  state <- Game.get_state g ;;
  Returned
    (mkCreateBody game_id "Game created successfully" state
       (player_info (Game.player_x g)) (player_info (Game.player_o g)),
     games).

(** [GET /games/{game_id}]. *)
Definition get_game (games : Games) (game_id : string)
  : PyResult (Response (string * GameState)) :=
  match lookup game_id games with
  | None => Returned not_found
  | Some g =>
      state <- Game.get_state g ;;
      Returned (Ok (game_id, state))
  end.

(** [POST /games/{game_id}/move]: the game object is changed in place. *)
Definition make_move (env : Env) (games : Games) (game_id : string)
    (move : MoveRequest)
  : PyResult (Response (string * MoveResult) * Games * list LogEvent) :=
  match lookup game_id games with
  | None => Returned (not_found, games, [])
  | Some g =>
      '(result, g', logs) <- Game.make_move env g (row move) (col move) ;;
      Returned (Ok (game_id, result), store game_id g' games, logs)
  end.

(** [POST /games/{game_id}/auto]. *)
Definition play_auto (fuel : nat) (envs : nat -> Env) (games : Games)
    (game_id : string)
  : PyResult (option (Response (string * AutoResult) * Games * list LogEvent)) :=
  match lookup game_id games with
  | None => Returned (Some (not_found, games, []))
  | Some g =>
      out <- play_auto fuel envs g ;;
      match out with
      | None => Returned None
      | Some (result, g', logs) =>
          Returned (Some (Ok (game_id, result), store game_id g' games, logs))
      end
  end.

(** [POST /games/{game_id}/reset]. *)
Definition reset_game (env : Env) (games : Games) (game_id : string)
  : PyResult (Response (string * string * GameState) * Games) :=
  match lookup game_id games with
  | None => Returned (not_found, games)
  | Some g =>
      let games := store game_id (Game.reset env g) games in
      g' <- getitem game_id games ;;
      state <- Game.get_state g' ;;
      Returned (Ok (game_id, "Game reset successfully", state), games)
  end.

(** [DELETE /games/{game_id}]. *)
Definition delete_game (games : Games) (game_id : string)
  : Response (string * string) * Games :=
  match lookup game_id games with
  | None => (not_found, games)
  | Some _ => (Ok (game_id, "Game deleted successfully"), remove game_id games)
  end.

(** [GET /games]: the total and one item per game, in insertion order. *)
Definition list_games (games : Games) : Z * list ListItem :=
  (Z.of_nat (List.length games),
   map (fun kv : string * Game.t =>
          let (game_id, g) := kv in
          mkListItem game_id
            (Player.get_player_type (Game.player_x g))
            (Player.get_player_type (Game.player_o g))
            (Game.game_over g) (Game.winner g))
       games).

End Api.

(** A dictionary has one item per key. *)
Definition unique_keys (games : Api.Games) : Prop := NoDup (map fst games).

(** Every registered game was constructed and then only operated through
    its methods. *)
Definition registry_ok (games : Api.Games) : Prop :=
  unique_keys games
  /\ forall key g, Api.lookup key games = Some g ->
       exists g0, constructed g0 /\ reachable g0 g.


(** A registry holding a running and a finished game. *)
Definition sample_games : Api.Games :=
  [("game-1", running_game); ("game-2", finished_game)].


(** ** logger.py: the rows handed to the CSV writer *)

(** [repr(s)] for a [str] of code points below 256: single quotes unless
    the text has a single quote and no double quote; the quote and the
    backslash are escaped, tab, newline and carriage return are written as
    escapes, and other non-printable characters as [\xhh]. *)
Definition hex_digit (n : nat) : ascii :=
  nth n ["0"; "1"; "2"; "3"; "4"; "5"; "6"; "7"; "8"; "9";
         "a"; "b"; "c"; "d"; "e"; "f"]%char "0"%char.

Definition backslash : ascii := "\"%char.

Definition hex_escape (c : ascii) : string :=
  let n := nat_of_ascii c in
  String backslash
    (String "x" (String (hex_digit (n / 16)) (String (hex_digit (n mod 16)) ""))).

Definition is_printable (c : ascii) : bool :=
  let n := nat_of_ascii c in
  ((32 <=? n) && (n <? 127))%nat || ((161 <=? n) && negb (n =? 173))%nat.

Definition repr_char (quote c : ascii) : string :=
  if Ascii.eqb c quote || Ascii.eqb c backslash then String backslash (String c "")
  else if Ascii.eqb c "009"%char then String backslash "t"
  else if Ascii.eqb c "010"%char then String backslash "n"
  else if Ascii.eqb c "013"%char then String backslash "r"
  else if is_printable c then String c ""
  else hex_escape c.

Fixpoint repr_chars (quote : ascii) (s : string) : string :=
  match s with
  | "" => ""
  | String c rest => repr_char quote c ++ repr_chars quote rest
  end.

Fixpoint has_char (c : ascii) (s : string) : bool :=
  match s with
  | "" => false
  | String c' rest => Ascii.eqb c c' || has_char c rest
  end.

Definition py_repr_str (s : string) : string :=
  let quote :=
    if has_char "'"%char s && negb (has_char "034"%char s) then "034"%char
    else "'"%char in
  String quote (repr_chars quote s ++ String quote "").

(** [str(l)] for a list, given the texts of its items. *)
Definition py_str_list (items : list string) : string :=
  "[" ++ py_join ", " items ++ "]".

(** [str(board_state)]. *)
Definition py_str_grid (b : Grid) : string :=
  py_str_list
    (map (fun row : list Cell =>
            py_str_list
              (map (fun c : Cell =>
                      match c with
                      | Some s => py_repr_str s
                      | None => "None"
                      end) row))
         b).

(** [s.replace("\n", " ")]. *)
Fixpoint replace_newlines (s : string) : string :=
  match s with
  | "" => ""
  | String c rest =>
      String (if Ascii.eqb c "010"%char then " "%char else c)
        (replace_newlines rest)
  end.

(** Truth value of a decoded value. *)
Definition json_truthy (v : json) : bool :=
  match v with
  | JNull => false
  | JBool b => b
  | JInt z => negb (z =? 0)
  | JFloat (S754_zero _) => false
  | JFloat _ => true
  | JString s => negb (String.eqb s "")
  | JArray items => match items with [] => false | _ => true end
  | JObject fields => match fields with [] => false | _ => true end
  end.

(** A value handed to [csv.writer.writerow]. *)
Inductive CsvCell : Type :=
| CellStr (s : string)
| CellInt (z : Z)
| CellBool (b : bool)
| CellFloat (f : spec_float)
| CellValue (v : json).

Module Logger.

(** The header [_init_moves_log] writes. *)
Definition moves_header : list string :=
  ["timestamp"; "game_id"; "move_number"; "player"; "player_type";
   "board_state"; "available_moves"; "prompt_sent"; "llm_response";
   "llm_reasoning"; "chosen_move"; "move_valid"; "error_message";
   "response_time_ms"].

(** [(text[:500] + "...") if text and len(text) > 500 else text]. *)
Definition cap (text : option string) : option string :=
  match text with
  | Some s =>
      if negb (String.eqb s "") && (500 <? String.length s)%nat
      then Some (substring 0 500 s ++ "...")
      else Some s
  | None => None
  end.

(** [text or ""]. *)
Definition or_empty (text : option string) : string :=
  match text with
  | Some s => s
  | None => ""
  end.

(** The row [log_move] writes; [timestamp] is
    [datetime.now().isoformat()]. *)
Definition log_move (timestamp : string) (game_id : string) (move_number : Z)
    (player : Symbol) (player_type : string) (board_state : Grid)
    (available_moves : list Move) (prompt_sent llm_response : option string)
    (llm_reasoning : json) (chosen_move : option (option Z * option Z))
    (move_valid : bool) (error_message : option string)
    (response_time_ms : option spec_float) : list CsvCell :=
  let board_str := replace_newlines (py_str_grid board_state) in
  let moves_str :=
    py_str_list (map (fun m : Move => str_of_opt_move (Some m)) available_moves) in
  let move_str :=
    match chosen_move with
    | Some (r, c) => "(" ++ str_of_opt_Z r ++ ", " ++ str_of_opt_Z c ++ ")"
    | None => ""
    end in
  let prompt_str := cap prompt_sent in
  let response_str := cap llm_response in
  [CellStr timestamp; CellStr game_id; CellInt move_number; CellStr player;
   CellStr player_type; CellStr board_str; CellStr moves_str;
   CellStr (or_empty prompt_str); CellStr (or_empty response_str);
   (if json_truthy llm_reasoning then CellValue llm_reasoning else CellStr "");
   CellStr move_str; CellBool move_valid; CellStr (or_empty error_message);
   match response_time_ms with
   | Some (S754_zero _) => CellStr ""
   | Some f => CellFloat f
   | None => CellStr ""
   end].

(** The row written for a record [Game.make_move] hands over. *)
Definition row_of_event (timestamp : string) (ev : LogEvent)
  : option (list CsvCell) :=
  match ev with
  | LogMove game_id move_number player player_type board_state available_moves
      prompt_sent llm_response llm_reasoning chosen_move move_valid
      error_message response_time_ms =>
      Some (log_move timestamp game_id move_number player player_type
              board_state available_moves prompt_sent llm_response
              llm_reasoning chosen_move move_valid error_message
              response_time_ms)
  | LogGame _ _ _ _ _ _ _ _ _ _ => None
  end.

End Logger.


(** A logged text is the original when it has at most 500 characters, its
    first 500 characters followed by three dots otherwise, and empty when
    there was none. *)
Definition capped (text : option string) (cell : string) : Prop :=
  (String.length cell <= 503)%nat
  /\ match text with
     | None => cell = ""
     | Some s =>
         if (String.length s <=? 500)%nat then cell = s
         else cell = substring 0 500 s ++ "..."
                /\ String.length cell = 503%nat
     end.

(** ** The response parser on texts of any code points

    A Python [str] is a sequence of Unicode code points, and [str.strip]
    and [int] look at the class of each of them.  The reply of a language
    model, and the strings inside the value [json.loads] makes of it, may
    hold any code point; the parser of [player.py] is therefore given here
    once more, on texts that are lists of code points, with the same steps
    as [Player._parse_llm_response]. *)

Definition codepoint : Type := N.
Definition text : Type := list codepoint.

(** The text of a string of characters below 256. *)
Definition text_of_string (s : string) : text :=
  map N_of_ascii (list_ascii_of_string s).

Module Unicode.

Fixpoint text_eqb (a b : text) : bool :=
  match a, b with
  | [], [] => true
  | x :: a', y :: b' => (x =? y)%N && text_eqb a' b'
  | _, _ => false
  end.

Definition is_empty (s : text) : bool :=
  match s with
  | [] => true
  | _ :: _ => false
  end.

(** [c.isspace()]: U+0009..U+000D, U+001C..U+0020, U+0085, U+00A0, U+1680,
    U+2000..U+200A, U+2028, U+2029, U+202F, U+205F and U+3000. *)
Definition isspace (c : codepoint) : bool :=
  (((9 <=? c) && (c <=? 13)) || ((28 <=? c) && (c <=? 32))
   || (c =? 133) || (c =? 160) || (c =? 5760)
   || ((8192 <=? c) && (c <=? 8202))
   || (c =? 8232) || (c =? 8233) || (c =? 8239) || (c =? 8287)
   || (c =? 12288))%N.

Fixpoint lstrip (s : text) : text :=
  match s with
  | [] => []
  | c :: s' => if isspace c then lstrip s' else s
  end.

Fixpoint rstrip (s : text) : text :=
  match s with
  | [] => []
  | c :: s' =>
      let r := rstrip s' in
      if is_empty r && isspace c then [] else c :: r
  end.

(** [s.strip()]. *)
Definition strip (s : text) : text := rstrip (lstrip s).

(** [Some rest] when [s] is [p] followed by [rest]. *)
Fixpoint strip_prefix (p s : text) : option text :=
  match p, s with
  | [], _ => Some s
  | a :: p', b :: s' => if (a =? b)%N then strip_prefix p' s' else None
  | _ :: _, [] => None
  end.

(** The text before and after the leftmost occurrence of [sep] in [s]. *)
Fixpoint find_sub (sep s : text) : option (text * text) :=
  match strip_prefix sep s with
  | Some rest => Some ([], rest)
  | None =>
      match s with
      | [] => None
      | c :: s' =>
          match find_sub sep s' with
          | Some (before, after) => Some (c :: before, after)
          | None => None
          end
      end
  end.

(** [sep in s]. *)
Definition contains (sep s : text) : bool :=
  match find_sub sep s with
  | Some _ => true
  | None => false
  end.

Fixpoint split_fuel (fuel : nat) (sep s : text) : list text :=
  match find_sub sep s with
  | None => [s]
  | Some (before, after) =>
      match fuel with
      | O => [s]
      | S fuel' => before :: split_fuel fuel' sep after
      end
  end.

(** [s.split(sep)]; [List.length s] rounds are enough, as for [py_split]. *)
Definition split (s sep : text) : PyResult (list text) :=
  match sep with
  | [] => raise ValueError "empty separator"
  | _ :: _ => Returned (split_fuel (List.length s) sep s)
  end.

(** What [json.loads] returns, its strings and keys being texts. *)
#[warnings="-register-all"]
Inductive value : Type :=
| VNull
| VBool (b : bool)
| VInt (z : Z)
| VFloat (f : spec_float)
| VStr (s : text)
| VArray (items : list value)
| VObject (fields : list (text * value)).

Fixpoint assoc_get (k : text) (fields : list (text * value)) : option value :=
  match fields with
  | [] => None
  | (k', v) :: rest => if text_eqb k k' then Some v else assoc_get k rest
  end.

(** [type(v).__name__]. *)
Definition type_name (v : value) : string :=
  match v with
  | VNull => "NoneType"
  | VBool _ => "bool"
  | VInt _ => "int"
  | VFloat _ => "float"
  | VStr _ => "str"
  | VArray _ => "list"
  | VObject _ => "dict"
  end.

(** [data.get(key, default)]: only a [dict] has a [get] attribute. *)
Definition get (data : value) (key : text) (default : value) : PyResult value :=
  match data with
  | VObject fields =>
      match assoc_get key fields with
      | Some v => Returned v
      | None => Returned default
      end
  | _ => raise AttributeError ("'" ++ type_name data ++ "' object has no attribute 'get'")
  end.

(** What the parser takes from the interpreter and its library. *)
Record Library : Type := mkLibrary {
  (** the decimal digit value the interpreter's Unicode database gives a
      code point above 127, if it has one: 3 for U+0663 *)
  decimal : codepoint -> option Z;
  (** [json.loads(text)] *)
  loads : text -> PyResult value
}.

(** The value of [c] as a decimal digit for [int()]: the ASCII digits, and
    above 127 the characters that are not white space and have a decimal
    value. *)
Definition digit (lib : Library) (c : codepoint) : option Z :=
  if ((48 <=? c) && (c <=? 57))%N then Some (Z.of_N c - 48)
  else if (c <? 128)%N then None
  else if isspace c then None
  else decimal lib c.

(** The white space [int()] skips around a literal: below 128 only
    U+0009..U+000D and U+0020, above it what [isspace] accepts. *)
Definition int_isspace (c : codepoint) : bool :=
  (((9 <=? c) && (c <=? 13)) || (c =? 32) || ((128 <=? c) && isspace c))%N.

Fixpoint int_lstrip (s : text) : text :=
  match s with
  | [] => []
  | c :: s' => if int_isspace c then int_lstrip s' else s
  end.

Fixpoint int_rstrip (s : text) : text :=
  match s with
  | [] => []
  | c :: s' =>
      let r := int_rstrip s' in
      if is_empty r && int_isspace c then [] else c :: r
  end.

(** Digits with single underscores between them, as [read_digits]. *)
Fixpoint read_digits (lib : Library) (s : text) (after_digit : bool) (acc : Z)
    (count : Z) : option (Z * Z) :=
  match s with
  | [] => if after_digit then Some (acc, count) else None
  | c :: s' =>
      match digit lib c with
      | Some d => read_digits lib s' true (10 * acc + d) (count + 1)
      | None =>
          if (c =? 95)%N && after_digit then read_digits lib s' false acc count
          else None
      end
  end.

(** [int(s)] for a [str]: optional white space, an optional sign [+]
    (U+002B) or [-] (U+002D), decimal digits; more than 4300 digits are
    refused.  The message of the other [ValueError] ends with [repr(s)],
    left out here. *)
Definition int_of_str (lib : Library) (s : text) : PyResult Z :=
  let body := int_rstrip (int_lstrip s) in
  let '(negative, digits) :=
    match body with
    | c :: rest =>
        if (c =? 45)%N then (true, rest)
        else if (c =? 43)%N then (false, rest)
        else (false, body)
    | [] => (false, body)
    end in
  match read_digits lib digits false 0 0 with
  | Some (v, n) =>
      if 4300 <? n then
        raise ValueError "Exceeds the limit (4300 digits) for integer string conversion"
      else Returned (if negative then - v else v)
  | None => raise ValueError "invalid literal for int() with base 10"
  end.

(** [int(v)] for a decoded value. *)
Definition py_int (lib : Library) (v : value) : PyResult Z :=
  match v with
  | VInt z => Returned z
  | VBool b => Returned (if b then 1 else 0)
  | VFloat f => int_of_float f
  | VStr s => int_of_str lib s
  | VNull | VArray _ | VObject _ =>
      raise TypeError
        ("int() argument must be a string, a bytes-like object or a real number, not '"
           ++ type_name v ++ "'")
  end.

Definition is_null (v : value) : bool :=
  match v with VNull => true | _ => false end.

(** The two fence markers and the three keys. *)
Definition fence : text := text_of_string "```".
Definition json_fence : text := text_of_string "```json".
Definition key_row : text := text_of_string "row".
Definition key_col : text := text_of_string "col".
Definition key_reasoning : text := text_of_string "reasoning".
Definition no_reasoning : value := VStr (text_of_string "No reasoning provided").

(** The fence handling of [_parse_llm_response]. *)
Definition extract_payload (response : text) : PyResult text :=
  let response := strip response in
  if contains json_fence response then
    parts <- split response json_fence ;;
    inner <- py_getitem parts 1 ;;
    parts' <- split inner fence ;;
    first <- py_getitem parts' 0 ;;
    Returned (strip first)
  else if contains fence response then
    parts <- split response fence ;;
    inner <- py_getitem parts 1 ;;
    parts' <- split inner fence ;;
    first <- py_getitem parts' 0 ;;
    Returned (strip first)
  else Returned response.

(** The body of the [try] block of [_parse_llm_response]; [None] stands
    for falling out of the block. *)
Definition parse_try (lib : Library) (response : text)
  : PyResult (option (Move * value)) :=
  payload <- extract_payload response ;;
  data <- loads lib payload ;;
  row <- get data key_row VNull ;;
  col <- get data key_col VNull ;;
  reasoning <- get data key_reasoning no_reasoning ;;
  if negb (is_null row) && negb (is_null col) then
    r <- py_int lib row ;;
    c <- py_int lib col ;;
    Returned (Some ((r, c), reasoning))
  else Returned None.

(** [_parse_llm_response]: the pair (move, reasoning); the exceptions
    caught are those of [Player.parse_catches]. *)
Definition _parse_llm_response (lib : Library) (response : text)
    (available_moves : list Move) : PyResult (option Move * value) :=
  match parse_try lib response with
  | Returned (Some (m, reasoning)) => Returned (Some m, reasoning)
  | Returned None => Returned (None, VNull)
  | Raised e => if Player.parse_catches e then Returned (None, VNull) else Raised e
  end.

(** [s.split(marker)[0]]: the text before the first [marker], all of [s]
    when there is none. *)
Definition before_marker (marker s : text) : text :=
  match find_sub marker s with
  | Some (before, _) => before
  | None => s
  end.

(** [s.split(marker)[1]] when [marker] occurs in [s]: the text between its
    first two occurrences, or from the first one to the end. *)
Definition between_markers (marker s : text) : option text :=
  match find_sub marker s with
  | Some (_, after) => Some (before_marker marker after)
  | None => None
  end.

(** The text the parser decodes, given the stripped response: what follows
    the first [json] fence marker if there is one, else what follows the
    first fence marker, cut at the next marker and stripped; the response
    itself when it has no fence. *)
Definition fence_content (s : text) : text :=
  match between_markers json_fence s with
  | Some inner => strip (before_marker fence inner)
  | None =>
      match between_markers fence s with
      | Some inner => strip (before_marker fence inner)
      | None => s
      end
  end.

Definition field_or (default : value) (v : option value) : value :=
  match v with
  | Some x => x
  | None => default
  end.

(** A decoded value that is a number. *)
Definition is_number (v : value) : bool :=
  match v with
  | VInt _ | VFloat _ => true
  | _ => false
  end.

(** The fence rule as the specification words it: the content of the first
    fenced block, which is the text between the first fence marker and the
    next one, without the [json] tag that may follow the opening marker. *)
Definition first_block_content (s : text) : option text :=
  match between_markers fence s with
  | Some inner =>
      Some (strip (match strip_prefix (text_of_string "json") inner with
                   | Some rest => rest
                   | None => inner
                   end))
  | None => None
  end.

(** The text that is left to be decoded, in the specification's words:
    the content of the first fenced block if the response has one, the
    response otherwise. *)
Definition worded_payload (response : text) : text :=
  match first_block_content (strip response) with
  | Some content => content
  | None => strip response
  end.

(** The parser's contract as the specification words it: a move comes back
    exactly when that text decodes to an object with numeric [row] and
    [col]. *)
Definition move_iff_numeric_fields (lib : Library) (response : text)
    (available_moves : list Move) : Prop :=
  (exists m reasoning,
      _parse_llm_response lib response available_moves
      = Returned (Some m, reasoning))
  <->
  (exists fields row col,
      loads lib (worded_payload response) = Returned (VObject fields)
      /\ assoc_get key_row fields = Some row
      /\ assoc_get key_col fields = Some col
      /\ is_number row = true /\ is_number col = true).

(** A decoder that knows the listed texts and refuses every other one. *)
Fixpoint decode_table (table : list (text * value)) (t : text)
  : PyResult value :=
  match table with
  | [] => raise JSONDecodeError "Expecting value: line 1 column 1 (char 0)"
  | (t', v) :: rest => if text_eqb t' t then Returned v else decode_table rest t
  end.

(** The digits U+0660..U+0669 and U+FF10..U+FF19, two of the runs of
    decimal digits of the Unicode database. *)
Definition sample_decimal (c : codepoint) : option Z :=
  if ((1632 <=? c) && (c <=? 1641))%N then Some (Z.of_N c - 1632)
  else if ((65296 <=? c) && (c <=? 65305))%N then Some (Z.of_N c - 65296)
  else None.

(** The text [{"row": "1", "col": "2"}], with no fence, and its value. *)
Definition quoted_fields : text := text_of_string quoted_fields_text.

Definition quoted_fields_value : value :=
  VObject [(key_row, VStr (text_of_string "1"));
           (key_col, VStr (text_of_string "2"))].

(** The text [{"row": 1, "col": 2}] and its value. *)
Definition plain_fields : text := text_of_string plain_fields_text.

Definition plain_fields_value : value :=
  VObject [(key_row, VInt 1); (key_col, VInt 2)].

(** A reply that shows the board in a plain fenced block and gives the
    move in a second block, tagged [json]. *)
Definition two_blocks : text :=
  text_of_string
    ("```" ++ nl ++ "X . ." ++ nl ++ "```" ++ nl
       ++ "```json" ++ nl ++ plain_fields_text ++ nl ++ "```").

Definition sample_library : Library :=
  mkLibrary sample_decimal
    (decode_table [(quoted_fields, quoted_fields_value);
                   (plain_fields, plain_fields_value)]).

End Unicode.

(** ** Strings as texts

    A string of characters below 256 is a text, and a decoded value with
    such strings is a value of [Unicode.value]. *)

Fixpoint widen (v : json) : Unicode.value :=
  match v with
  | JNull => Unicode.VNull
  | JBool b => Unicode.VBool b
  | JInt z => Unicode.VInt z
  | JFloat f => Unicode.VFloat f
  | JString s => Unicode.VStr (text_of_string s)
  | JArray items => Unicode.VArray (map widen items)
  | JObject fields =>
      Unicode.VObject
        (map (fun kv => let '(k, x) := kv in (text_of_string k, widen x)) fields)
  end.

Definition map_result {A B : Type} (f : A -> B) (m : PyResult A) : PyResult B :=
  match m with
  | Returned a => Returned (f a)
  | Raised e => Raised e
  end.

(** The string of a text of code points below 256. *)
Fixpoint string_of_text (t : text) : string :=
  match t with
  | [] => ""
  | c :: t' => String (ascii_of_N c) (string_of_text t')
  end.

(** The library that decodes as [env] does. *)
Definition library_of (env : Env) : Unicode.Library :=
  Unicode.mkLibrary Unicode.sample_decimal
    (fun t => map_result widen (json_loads env (string_of_text t))).

(** * Properties *)

(** ** The board *)

Lemma wf_grid_inv (b : Grid) :
  wf_grid b ->
  exists c00 c01 c02 c10 c11 c12 c20 c21 c22 : Cell,
    b = [[c00; c01; c02]; [c10; c11; c12]; [c20; c21; c22]].
Proof.
  intros [Hlen Hrows].
  destruct b as [|r0 [|r1 [|r2 [|? ?]]]]; try discriminate.
  inversion Hrows as [|? ? H0 Hrows1]; subst.
  inversion Hrows1 as [|? ? H1 Hrows2]; subst.
  inversion Hrows2 as [|? ? H2 _]; subst.
  destruct r0 as [|? [|? [|? [|? ?]]]]; try discriminate.
  destruct r1 as [|? [|? [|? [|? ?]]]]; try discriminate.
  destruct r2 as [|? [|? [|? [|? ?]]]]; try discriminate.
  repeat eexists.
Qed.

Lemma wf_grid_cells (c00 c01 c02 c10 c11 c12 c20 c21 c22 : Cell) :
  wf_grid [[c00; c01; c02]; [c10; c11; c12]; [c20; c21; c22]].
Proof.
  split; [reflexivity|]. repeat constructor.
Qed.

Lemma wf_grid_init : wf_grid Board.init.
Proof. apply wf_grid_cells. Qed.

Lemma get_state_eq (b : Grid) : Board.get_state b = b.
Proof. unfold Board.get_state. apply map_id. Qed.

Lemma three_cases (z : Z) : 0 <= z <= 2 -> z = 0 \/ z = 1 \/ z = 2.
Proof. lia. Qed.

(** Replace a well-formed grid by its nine cells. *)
Ltac explode_grid H :=
  let c00 := fresh "c00" in let c01 := fresh "c01" in let c02 := fresh "c02" in
  let c10 := fresh "c10" in let c11 := fresh "c11" in let c12 := fresh "c12" in
  let c20 := fresh "c20" in let c21 := fresh "c21" in let c22 := fresh "c22" in
  destruct (wf_grid_inv _ H)
    as (c00 & c01 & c02 & c10 & c11 & c12 & c20 & c21 & c22 & ->).

(** Split a coordinate known to lie in [0,2] into its three values. *)
Ltac split_coord z :=
  let H := fresh in
  assert (H : z = 0 \/ z = 1 \/ z = 2) by lia;
  destruct H as [-> | [-> | ->]].

Lemma to_nat_1 : Z.to_nat 1 = 1%nat.
Proof. reflexivity. Qed.

Lemma to_nat_2 : Z.to_nat 2 = 2%nat.
Proof. reflexivity. Qed.

(** Evaluate list accesses at literal indices. *)
Ltac eval_index :=
  cbn -[Z.to_nat]; rewrite ?to_nat_1, ?to_nat_2; cbn.

Ltac eval_index_in H :=
  cbn -[Z.to_nat] in H; rewrite ?to_nat_1, ?to_nat_2 in H; cbn in H.

Lemma make_move_out_of_range (b : Grid) (row col : Z) (sym : Symbol) :
  ~ in_range row col ->
  Board.make_move b (Some row) (Some col) sym = Returned (false, b).
Proof.
  intros Hout. unfold Board.make_move, py_lt, py_gt, bind.
  destruct (row <? 0) eqn:E1; [reflexivity|].
  destruct (2 <? row) eqn:E2; [reflexivity|].
  destruct (col <? 0) eqn:E3; [reflexivity|].
  destruct (2 <? col) eqn:E4; [reflexivity|].
  exfalso. apply Hout. unfold in_range. lia.
Qed.

Lemma make_move_occupied (b : Grid) (row col : Z) (sym s : Symbol) :
  wf_grid b -> in_range row col ->
  grid_cell b row col = Returned (Some s) ->
  Board.make_move b (Some row) (Some col) sym = Returned (false, b).
Proof.
  intros Hwf [Hr Hc] Hcell. explode_grid Hwf.
  split_coord row; split_coord col; eval_index_in Hcell; inversion Hcell; subst;
    reflexivity.
Qed.

Lemma make_move_empty (b : Grid) (row col : Z) (sym : Symbol) :
  wf_grid b -> in_range row col ->
  grid_cell b row col = Returned None ->
  exists b',
    Board.make_move b (Some row) (Some col) sym = Returned (true, b')
    /\ wf_grid b'
    /\ grid_cell b' row col = Returned (Some sym)
    /\ (forall r c, in_range r c -> (r, c) <> (row, col) ->
          grid_cell b' r c = grid_cell b r c)
    /\ count_occupied b' = S (count_occupied b)
    /\ (forall x, In x (List.concat b') -> x = Some sym \/ In x (List.concat b)).
Proof.
  intros Hwf [Hr Hc] Hcell. explode_grid Hwf.
  split_coord row; split_coord col; eval_index_in Hcell; inversion Hcell; subst;
    (eexists; split; [reflexivity|]; eval_index; split; [apply wf_grid_cells|];
     split; [reflexivity|]; split;
     [ intros r c [Hr' Hc'] Hne; split_coord r; split_coord c;
       try reflexivity; exfalso; apply Hne; reflexivity
     | split;
       [ unfold count_occupied; cbn;
         repeat match goal with
                | |- context [occupied ?c] => destruct (occupied c)
                end; reflexivity
       | cbn; intros x Hx; intuition auto ] ]).
Qed.

Lemma in_range_dec (row col : Z) : {in_range row col} + {~ in_range row col}.
Proof.
  unfold in_range.
  destruct (Z_le_dec 0 row), (Z_le_dec row 2), (Z_le_dec 0 col), (Z_le_dec col 2);
    try (left; lia); right; lia.
Qed.

Lemma grid_cell_total (b : Grid) (row col : Z) :
  wf_grid b -> in_range row col -> exists c, grid_cell b row col = Returned c.
Proof.
  intros Hwf [Hr Hc]. explode_grid Hwf.
  split_coord row; split_coord col; eexists; reflexivity.
Qed.

(** The three outcomes of a placement on a well-formed board. *)
Lemma make_move_cases (b : Grid) (row col : Z) (sym : Symbol) :
  wf_grid b ->
  Board.make_move b (Some row) (Some col) sym = Returned (false, b)
  \/ (in_range row col /\ grid_cell b row col = Returned None
      /\ exists b',
          Board.make_move b (Some row) (Some col) sym = Returned (true, b')
          /\ wf_grid b'
          /\ grid_cell b' row col = Returned (Some sym)
          /\ count_occupied b' = S (count_occupied b)
          /\ (forall x, In x (List.concat b') -> x = Some sym \/ In x (List.concat b))).
Proof.
  intros Hwf.
  destruct (in_range_dec row col) as [Hin | Hout].
  - destruct (grid_cell_total b row col Hwf Hin) as [[s|] Hcell].
    + left. eapply make_move_occupied; eauto.
    + right. split; [assumption|]. split; [assumption|].
      destruct (make_move_empty b row col sym Hwf Hin Hcell)
        as (b' & Hmv & Hwf' & Hset & _ & Hcount & Hcells).
      exists b'. auto.
  - left. apply make_move_out_of_range. assumption.
Qed.

(** C4: [Board.make_move] at integer coordinates of a three-by-three board
    returns [False] and leaves the grid as it is when a coordinate lies
    outside [0,2] or the cell holds a mark; otherwise it returns [True] and
    the grid differs exactly by the given symbol at that cell.  A second call
    at the same coordinates returns [False] and changes nothing, and no call
    raises. *)
Theorem C4_board_make_move (b : Grid) (row col : Z) (sym : Symbol)
    (Hwf : wf_grid b) :
  ((~ in_range row col \/ exists s, grid_cell b row col = Returned (Some s)) ->
   Board.make_move b (Some row) (Some col) sym = Returned (false, b))
  /\ (in_range row col -> grid_cell b row col = Returned None ->
      exists b',
        Board.make_move b (Some row) (Some col) sym = Returned (true, b')
        /\ wf_grid b'
        /\ grid_cell b' row col = Returned (Some sym)
        /\ (forall r c, in_range r c -> (r, c) <> (row, col) ->
              grid_cell b' r c = grid_cell b r c))
  /\ (forall ok b1 sym2,
        Board.make_move b (Some row) (Some col) sym = Returned (ok, b1) ->
        Board.make_move b1 (Some row) (Some col) sym2 = Returned (false, b1))
  /\ (exists ok b1,
        Board.make_move b (Some row) (Some col) sym = Returned (ok, b1)).
Proof.
  split; [|split; [|split]].
  - intros [Hout | [s Hs]].
    + apply make_move_out_of_range; assumption.
    + destruct (in_range_dec row col) as [Hin | Hout].
      * eapply make_move_occupied; eauto.
      * apply make_move_out_of_range; assumption.
  - intros Hin Hcell.
    destruct (make_move_empty b row col sym Hwf Hin Hcell)
      as (b' & Hmv & Hwf' & Hset & Hframe & _).
    exists b'. auto.
  - intros ok b1 sym2 Hfirst.
    destruct (make_move_cases b row col sym Hwf)
      as [Hsame | (Hin & Hcell & b' & Hmv & Hwf' & Hset & _)].
    + rewrite Hsame in Hfirst. inversion Hfirst; subst.
      destruct (in_range_dec row col) as [Hin | Hout].
      * destruct (grid_cell_total b1 row col Hwf Hin) as [[s|] Hcell].
        -- eapply make_move_occupied; eauto.
        -- destruct (make_move_empty b1 row col sym Hwf Hin Hcell)
             as (b' & Hmv & _).
           rewrite Hmv in Hsame. discriminate.
      * apply make_move_out_of_range; assumption.
    + rewrite Hmv in Hfirst. inversion Hfirst; subst.
      eapply make_move_occupied; eauto.
  - destruct (make_move_cases b row col sym Hwf)
      as [Hsame | (_ & _ & b' & Hmv & _)]; eauto.
Qed.

Lemma C4_board_make_move_witness :
  wf_grid example_grid
  /\ Board.make_move example_grid (Some 1) (Some 1) "X"
     = Returned (false, example_grid)
  /\ Board.make_move example_grid (Some 5) (Some (-1)) "X"
     = Returned (false, example_grid)
  /\ exists b',
      Board.make_move example_grid (Some 0) (Some 1) "X" = Returned (true, b')
      /\ grid_cell b' 0 1 = Returned (Some "X").
Proof.
  assert (Hwf : wf_grid example_grid) by apply wf_grid_cells.
  split; [exact Hwf|]. split; [|split].
  - apply (C4_board_make_move example_grid 1 1 "X" Hwf).
    right. exists "O". reflexivity.
  - apply (C4_board_make_move example_grid 5 (-1) "X" Hwf).
    left. unfold in_range. lia.
  - destruct (C4_board_make_move example_grid 0 1 "X" Hwf)
      as (_ & Hvalid & _).
    destruct Hvalid as (b' & Hmv & _ & Hset & _).
    + unfold in_range. lia.
    + reflexivity.
    + exists b'. split; assumption.
Defined.

(** ** The move chooser *)

Lemma random_choice_in {A : Type} (env : Env) (l : list A) :
  l <> [] -> exists a, random_choice env l = Returned a /\ In a l.
Proof.
  intros Hne. unfold random_choice.
  destruct l as [|x l']; [contradiction|].
  remember (x :: l') as l eqn:El.
  assert (Hlt : (random_draw env mod List.length l < List.length l)%nat).
  { apply Nat.mod_upper_bound. subst l. discriminate. }
  destruct (nth_error l (random_draw env mod List.length l)) as [a|] eqn:Hnth.
  - exists a. split; [reflexivity|]. eapply nth_error_In; eauto.
  - apply nth_error_None in Hnth. lia.
Qed.

Lemma move_eqb_eq (a b : Move) : move_eqb a b = true <-> a = b.
Proof.
  destruct a as [a1 a2], b as [b1 b2]. unfold move_eqb. simpl.
  rewrite andb_true_iff, !Z.eqb_eq. split.
  - intros [-> ->]. reflexivity.
  - intros H. inversion H. auto.
Qed.

Lemma move_in_In (m : Move) (l : list Move) : move_in m l = true <-> In m l.
Proof.
  unfold move_in. rewrite existsb_exists. split.
  - intros (x & Hx & Heq). apply move_eqb_eq in Heq. subst. assumption.
  - intros H. exists m. split; [assumption|]. apply move_eqb_eq. reflexivity.
Qed.

(** A move [_choose_move_llm] hands back was found in the list. *)
Lemma choose_move_llm_in (env : Env) (self : Player.t) (ag : Agent)
    (available_moves : list Move) (bs : Grid) (m : Move) (md : LlmMetadata) :
  Player._choose_move_llm env self ag available_moves bs = (Some m, md) ->
  move_in m available_moves = true.
Proof.
  unfold Player._choose_move_llm.
  destruct (agent_invoke env ag _ _ _ _) as [resp|e]; [|discriminate].
  destruct (Player._parse_llm_response env resp available_moves)
    as [[[m'|] r]|e]; try discriminate.
  destruct (move_in m' available_moves) eqn:Hin; [|discriminate].
  intros H. inversion H; subst. assumption.
Qed.

(** C1: with a non-empty list of available moves, [choose_move] returns a
    move of that list, whatever the board snapshot, the random draw, the
    agent and the decoder do; and whenever the language-model path yields no
    move, the move returned is the random choice from the same list. *)
Theorem C1_choose_move_valid (env : Env) (self : Player.t)
    (available_moves : list Move) (board_state : option Grid)
    (Hne : available_moves <> []) :
  exists m md self',
    Player.choose_move env self available_moves board_state
    = Returned (Some m, Some md, self')
    /\ In m available_moves
    /\ (forall ag bs,
          Player.use_llm self = true -> Player.agent self = Some ag ->
          board_state = Some bs ->
          fst (Player._choose_move_llm env self ag available_moves bs) = None ->
          random_choice env available_moves = Returned m).
Proof.
  destruct (random_choice_in env available_moves Hne) as (a & Hrand & Ha).
  unfold Player.choose_move.
  destruct available_moves as [|m0 rest] eqn:El; [contradiction|].
  rewrite <- El in *.
  destruct (Player.use_llm self) eqn:Hllm;
    [destruct (Player.agent self) as [ag|] eqn:Hag;
     [destruct board_state as [bs|]|]|].
  - destruct (Player._choose_move_llm env self ag available_moves bs)
      as [[m|] md] eqn:Hchoice.
    + pose proof (choose_move_llm_in _ _ _ _ _ _ _ Hchoice) as Hin.
      rewrite Hin. cbn.
      do 3 eexists. split; [reflexivity|]. split.
      * apply move_in_In. assumption.
      * intros ag' bs' _ Hag' Hbs' Hnone.
        inversion Hag'; inversion Hbs'; subst ag' bs'.
        rewrite Hchoice in Hnone. discriminate.
    + rewrite Hrand. cbn.
      do 3 eexists. split; [reflexivity|]. split; [assumption|].
      intros; reflexivity.
  - rewrite Hrand. cbn. do 3 eexists. split; [reflexivity|].
    split; [assumption|]. intros; discriminate.
  - rewrite Hrand. cbn. do 3 eexists. split; [reflexivity|].
    split; [assumption|]. intros; discriminate.
  - rewrite Hrand. cbn. do 3 eexists. split; [reflexivity|].
    split; [assumption|]. intros; discriminate.
Qed.

Lemma C1_choose_move_valid_witness :
  all_cells <> []
  /\ exists m md self',
      Player.choose_move offline_env llm_player all_cells (Some Board.init)
      = Returned (Some m, Some md, self')
      /\ In m all_cells.
Proof.
  assert (Hne : all_cells <> []) by discriminate.
  split; [exact Hne|].
  destruct (C1_choose_move_valid offline_env llm_player all_cells
              (Some Board.init) Hne) as (m & md & self' & Heq & Hin & _).
  exists m, md, self'. split; assumption.
Defined.

(** C2 (the defect): an agent whose call raises "Connection timed out".
    [_choose_move_llm] records that text under [error]; [choose_move] falls
    back to the random choice, keeps the prompt, and overwrites [error] with
    its own fixed text, so the failure description is gone from the metadata
    it returns. *)
Lemma C2_failure_description_overwritten :
  error (snd (Player._choose_move_llm offline_env llm_player sample_agent
                all_cells Board.init))
  = Some "Connection timed out"
  /\ exists self',
      Player.choose_move offline_env llm_player all_cells (Some Board.init)
      = Returned
          (Some (1, 1),
           Some (mkMetadata "llm"
                   (mkLlmMetadata
                      (Some (get_move_prompt Board.init "X" all_cells))
                      None JNull None
                      (Some "LLM move invalid, used random fallback"))),
           self').
Proof.
  split; [reflexivity|]. eexists. reflexivity.
Qed.

(** On every failure of the language-model path the metadata returned keeps
    the prompt, response and reasoning of that path and carries the fixed
    fallback text under [error]. *)
Lemma choose_move_fallback_metadata (env : Env) (self : Player.t) (ag : Agent)
    (available_moves : list Move) (bs : Grid) (md_llm : LlmMetadata) :
  available_moves <> [] ->
  Player.use_llm self = true -> Player.agent self = Some ag ->
  Player._choose_move_llm env self ag available_moves bs = (None, md_llm) ->
  exists m self',
    Player.choose_move env self available_moves (Some bs)
    = Returned
        (Some m,
         Some (mkMetadata "llm"
                 (set_error md_llm "LLM move invalid, used random fallback")),
         self')
    /\ random_choice env available_moves = Returned m.
Proof.
  intros Hne Hllm Hag Hchoice.
  destruct (random_choice_in env available_moves Hne) as (a & Hrand & _).
  unfold Player.choose_move.
  destruct available_moves as [|m0 rest] eqn:El; [contradiction|].
  rewrite <- El in *.
  rewrite Hllm, Hag, Hchoice, Hrand. cbn.
  do 2 eexists. split; reflexivity.
Qed.

(** ** Strings: the leftmost occurrence and [split] *)

Lemma strip_prefix_sound (p s rest : string) :
  strip_prefix p s = Some rest -> s = p ++ rest.
Proof.
  revert s. induction p as [|a p IH]; intros s H.
  - simpl in H. inversion H. reflexivity.
  - destruct s as [|b s]; simpl in H; [discriminate|].
    destruct (Ascii.eqb a b) eqn:E; [|discriminate].
    apply Ascii.eqb_eq in E. subst b. simpl. f_equal. apply IH. assumption.
Qed.

Lemma strip_prefix_complete (p rest : string) :
  strip_prefix p (p ++ rest) = Some rest.
Proof.
  induction p as [|a p IH]; simpl.
  - destruct rest; reflexivity.
  - rewrite Ascii.eqb_refl. assumption.
Qed.

Lemma find_sub_sound (sep s before after : string) :
  find_sub sep s = Some (before, after) -> s = before ++ sep ++ after.
Proof.
  revert before. induction s as [|c s IH]; intros before H.
  - simpl in H. destruct (strip_prefix sep "") as [r|] eqn:E; [|discriminate].
    inversion H; subst. apply strip_prefix_sound in E. assumption.
  - simpl in H. destruct (strip_prefix sep (String c s)) as [r|] eqn:E.
    + inversion H; subst. apply strip_prefix_sound in E. assumption.
    + destruct (find_sub sep s) as [[b a]|] eqn:F; [|discriminate].
      inversion H; subst. simpl. f_equal. apply IH. reflexivity.
Qed.

(** No occurrence of [sep] starts before the one [find_sub] reports. *)
Lemma find_sub_leftmost (sep s before after : string) :
  find_sub sep s = Some (before, after) ->
  forall before' after', s = before' ++ sep ++ after' ->
    (String.length before <= String.length before')%nat.
Proof.
  revert before. induction s as [|c s IH]; intros before H before' after' Hs.
  - simpl in H. destruct (strip_prefix sep "") as [r|]; [|discriminate].
    inversion H; subst. simpl. lia.
  - simpl in H. destruct (strip_prefix sep (String c s)) as [r|] eqn:E.
    + inversion H; subst. simpl. lia.
    + destruct (find_sub sep s) as [[b a]|] eqn:F; [|discriminate].
      inversion H; subst.
      destruct before' as [|c' before'].
      * simpl in Hs. rewrite Hs in E.
        rewrite strip_prefix_complete in E. discriminate.
      * simpl in Hs. inversion Hs; subst. simpl.
        apply le_n_S. eapply IH; reflexivity.
Qed.

Lemma find_sub_none (sep s : string) :
  find_sub sep s = None ->
  forall before after, s <> before ++ sep ++ after.
Proof.
  induction s as [|c s IH]; intros H before after Hs.
  - simpl in H. destruct (strip_prefix sep "") as [r|] eqn:E; [discriminate|].
    destruct before; simpl in Hs.
    + rewrite Hs in E. rewrite strip_prefix_complete in E. discriminate.
    + discriminate.
  - simpl in H. destruct (strip_prefix sep (String c s)) as [r|] eqn:E;
      [discriminate|].
    destruct (find_sub sep s) as [[b a]|] eqn:F; [discriminate|].
    destruct before as [|c' before]; simpl in Hs.
    + rewrite Hs in E. rewrite strip_prefix_complete in E. discriminate.
    + inversion Hs; subst. eapply IH; eauto.
Qed.

Lemma string_length_app (a b : string) :
  String.length (a ++ b) = (String.length a + String.length b)%nat.
Proof. induction a; simpl; auto. Qed.

Lemma find_sub_shorter (sep s before after : string) :
  sep <> "" -> find_sub sep s = Some (before, after) ->
  (String.length after < String.length s)%nat.
Proof.
  intros Hsep H. apply find_sub_sound in H. subst s.
  rewrite !string_length_app. destruct sep; [contradiction|]. simpl. lia.
Qed.

Lemma split_fuel_eq (n : nat) (sep s : string) :
  split_fuel n sep s
  = match find_sub sep s with
    | None => [s]
    | Some (before, after) =>
        match n with
        | O => [s]
        | S n' => before :: split_fuel n' sep after
        end
    end.
Proof. destruct n; reflexivity. Qed.

Lemma split_fuel_enough (sep : string) (n m : nat) (s : string) :
  sep <> "" ->
  (String.length s <= n)%nat -> (String.length s <= m)%nat ->
  split_fuel n sep s = split_fuel m sep s.
Proof.
  intros Hsep. revert m s. induction n as [|n IH]; intros m s Hn Hm;
    rewrite (split_fuel_eq _ sep s), (split_fuel_eq m sep s);
    destruct (find_sub sep s) as [[b a]|] eqn:F; try reflexivity;
    pose proof (find_sub_shorter _ _ _ _ Hsep F) as Hlt.
  - lia.
  - destruct m; [lia|]. f_equal. apply IH; lia.
Qed.

(** [s.split(sep)], one occurrence at a time. *)
Lemma py_split_unfold (s sep : string) :
  sep <> "" ->
  py_split s sep
  = Returned (match find_sub sep s with
              | None => [s]
              | Some (before, after) =>
                  before :: split_fuel (String.length after) sep after
              end).
Proof.
  intros Hsep. unfold py_split. destruct sep as [|c sep']; [contradiction|].
  f_equal. remember (String c sep') as sep.
  rewrite split_fuel_eq.
  destruct (find_sub sep s) as [[b a]|] eqn:F; [|reflexivity].
  pose proof (find_sub_shorter _ _ _ _ Hsep F) as Hlt.
  destruct (String.length s) as [|n] eqn:El; [lia|].
  f_equal. apply split_fuel_enough; [assumption| lia | lia].
Qed.

Lemma split_fuel_head (sep s : string) :
  sep <> "" ->
  exists rest,
    split_fuel (String.length s) sep s = before_marker sep s :: rest.
Proof.
  intros Hsep. rewrite split_fuel_eq. unfold before_marker.
  destruct (find_sub sep s) as [[b a]|] eqn:F.
  - pose proof (find_sub_shorter _ _ _ _ Hsep F) as Hlt.
    destruct (String.length s); [lia|]. eexists. reflexivity.
  - eexists. reflexivity.
Qed.

Lemma py_getitem_0 {A : Type} (x : A) (l : list A) :
  py_getitem (x :: l) 0 = Returned x.
Proof.
  assert (E : (Z.of_nat (List.length (x :: l)) <=? 0) = false).
  { apply Z.leb_gt. simpl List.length. lia. }
  unfold py_getitem. cbn -[Z.of_nat Z.to_nat Z.leb List.length].
  rewrite E. reflexivity.
Qed.

Lemma py_getitem_1 {A : Type} (x y : A) (l : list A) :
  py_getitem (x :: y :: l) 1 = Returned y.
Proof.
  assert (E : (Z.of_nat (List.length (x :: y :: l)) <=? 1) = false).
  { apply Z.leb_gt. simpl List.length. lia. }
  unfold py_getitem. cbn -[Z.of_nat Z.to_nat Z.leb List.length].
  rewrite E, to_nat_1. reflexivity.
Qed.

(** [s.split(sep)[0]]. *)
Lemma split_first (s sep : string) :
  sep <> "" ->
  (parts <- py_split s sep ;; py_getitem parts 0)
  = Returned (before_marker sep s).
Proof.
  intros Hsep. rewrite py_split_unfold by assumption. unfold bind, before_marker.
  destruct (find_sub sep s) as [[b a]|]; apply py_getitem_0.
Qed.

(** [s.split(sep)[1]] when [sep] occurs in [s]. *)
Lemma split_second (s sep inner : string) :
  sep <> "" -> between_markers sep s = Some inner ->
  (parts <- py_split s sep ;; py_getitem parts 1) = Returned inner.
Proof.
  intros Hsep Hb. rewrite py_split_unfold by assumption.
  unfold between_markers in Hb. unfold bind.
  destruct (find_sub sep s) as [[b a]|]; [|discriminate].
  inversion Hb; subst.
  destruct (split_fuel_head sep a Hsep) as [rest ->].
  apply py_getitem_1.
Qed.

Lemma bind_assoc {A B C : Type} (m : PyResult A) (f : A -> PyResult B)
    (g : B -> PyResult C) :
  bind (bind m f) g = bind m (fun a => bind (f a) g).
Proof. destruct m; reflexivity. Qed.

(** The fence handling never raises and yields [fence_content]. *)
Lemma extract_payload_eq (response : string) :
  Player.extract_payload response
  = Returned (fence_content (py_strip response)).
Proof.
  unfold Player.extract_payload, fence_content, py_contains.
  set (s := py_strip response).
  assert (Hj : "```json" <> "") by discriminate.
  assert (Hf : "```" <> "") by discriminate.
  destruct (between_markers "```json" s) as [inner|] eqn:Bj.
  - assert (Fj : exists p, find_sub "```json" s = Some p).
    { unfold between_markers in Bj.
      destruct (find_sub "```json" s) as [p|]; [eauto | discriminate]. }
    destruct Fj as [p ->].
    rewrite <- bind_assoc. rewrite (split_second s _ inner Hj Bj).
    cbn [bind]. rewrite <- bind_assoc. rewrite (split_first inner _ Hf).
    reflexivity.
  - assert (Fj : find_sub "```json" s = None).
    { unfold between_markers in Bj.
      destruct (find_sub "```json" s) as [[? ?]|]; [discriminate | reflexivity]. }
    rewrite Fj.
    destruct (between_markers "```" s) as [inner|] eqn:Bf.
    + assert (Ff : exists p, find_sub "```" s = Some p).
      { unfold between_markers in Bf.
        destruct (find_sub "```" s) as [p|]; [eauto | discriminate]. }
      destruct Ff as [p ->].
      rewrite <- bind_assoc. rewrite (split_second s _ inner Hf Bf).
      cbn [bind]. rewrite <- bind_assoc. rewrite (split_first inner _ Hf).
      reflexivity.
    + assert (Ff : find_sub "```" s = None).
      { unfold between_markers in Bf.
        destruct (find_sub "```" s) as [[? ?]|]; [discriminate | reflexivity]. }
      rewrite Ff. reflexivity.
Qed.

(** ** The response parser *)

Definition field_or (default : json) (v : option json) : json :=
  match v with
  | Some x => x
  | None => default
  end.

(** What [_parse_llm_response] does with a payload that did not decode. *)
Lemma parse_decode_failure (env : Env) (response : string)
    (available_moves : list Move) (e : PyExc) :
  json_loads env (fence_content (py_strip response)) = Raised e ->
  Player._parse_llm_response env response available_moves
  = if Player.parse_catches e then Returned (None, JNull) else Raised e.
Proof.
  intros H. unfold Player._parse_llm_response, Player.parse_try.
  rewrite extract_payload_eq. cbn [bind]. rewrite H. reflexivity.
Qed.

(** What it does with a decoded object. *)
Lemma parse_object (env : Env) (response : string)
    (available_moves : list Move) (fields : list (string * json)) :
  json_loads env (fence_content (py_strip response)) = Returned (JObject fields) ->
  Player._parse_llm_response env response available_moves
  = let row := field_or JNull (assoc_get "row" fields) in
    let col := field_or JNull (assoc_get "col" fields) in
    let reasoning :=
      field_or (JString "No reasoning provided") (assoc_get "reasoning" fields) in
    if is_null row || is_null col then Returned (None, JNull)
    else match py_int row with
         | Raised e =>
             if Player.parse_catches e then Returned (None, JNull) else Raised e
         | Returned r =>
             match py_int col with
             | Raised e =>
                 if Player.parse_catches e then Returned (None, JNull) else Raised e
             | Returned c => Returned (Some (r, c), reasoning)
             end
         end.
Proof.
  intros H. unfold Player._parse_llm_response, Player.parse_try.
  rewrite extract_payload_eq. cbn [bind]. rewrite H. cbn [bind py_get].
  destruct (assoc_get "row" fields) as [row|];
    destruct (assoc_get "col" fields) as [col|];
    destruct (assoc_get "reasoning" fields) as [reasoning|];
    cbn [bind field_or];
    try (destruct (is_null row)); try (destruct (is_null col));
    cbn [negb andb orb is_null]; try reflexivity;
    destruct (py_int row) as [r|e]; cbn [bind]; try reflexivity;
    destruct (py_int col) as [c|e']; cbn [bind]; reflexivity.
Qed.

(** What it does with a decoded value that is not an object. *)
Lemma parse_not_object (env : Env) (response : string)
    (available_moves : list Move) (data : json) :
  json_loads env (fence_content (py_strip response)) = Returned data ->
  (forall fields, data <> JObject fields) ->
  Player._parse_llm_response env response available_moves
  = raise AttributeError ("'" ++ type_name data ++ "' object has no attribute 'get'").
Proof.
  intros H Hno. unfold Player._parse_llm_response, Player.parse_try.
  rewrite extract_payload_eq. cbn [bind]. rewrite H. cbn [bind].
  destruct data; try reflexivity. exfalso. eapply Hno. reflexivity.
Qed.

Lemma is_null_false (v : json) : is_null v = false <-> v <> JNull.
Proof. destruct v; simpl; split; intros; congruence. Qed.

(** ** The response parser on texts of any code points *)

Lemma text_strip_prefix_sound (p s rest : text) :
  Unicode.strip_prefix p s = Some rest -> s = (p ++ rest)%list.
Proof.
  revert s. induction p as [|a p IH]; intros s H.
  - simpl in H. inversion H. reflexivity.
  - destruct s as [|b s]; simpl in H; [discriminate|].
    destruct (N.eqb a b) eqn:E; [|discriminate].
    apply N.eqb_eq in E. subst b. simpl. f_equal. apply IH. assumption.
Qed.

Lemma text_strip_prefix_complete (p rest : text) :
  Unicode.strip_prefix p (p ++ rest)%list = Some rest.
Proof.
  induction p as [|a p IH]; simpl.
  - reflexivity.
  - rewrite N.eqb_refl. assumption.
Qed.

Lemma text_find_sub_eq (sep s : text) :
  Unicode.find_sub sep s
  = match Unicode.strip_prefix sep s with
    | Some rest => Some ([], rest)
    | None =>
        match s with
        | [] => None
        | c :: s' =>
            match Unicode.find_sub sep s' with
            | Some (before, after) => Some (c :: before, after)
            | None => None
            end
        end
    end.
Proof. destruct s; reflexivity. Qed.

Lemma text_find_sub_sound (sep s before after : text) :
  Unicode.find_sub sep s = Some (before, after) ->
  s = (before ++ sep ++ after)%list.
Proof.
  revert before. induction s as [|c s IH]; intros before H;
    rewrite text_find_sub_eq in H.
  - destruct (Unicode.strip_prefix sep []) as [r|] eqn:E; [|discriminate].
    inversion H; subst. apply text_strip_prefix_sound in E. assumption.
  - destruct (Unicode.strip_prefix sep (c :: s)) as [r|] eqn:E.
    + inversion H; subst. apply text_strip_prefix_sound in E. assumption.
    + destruct (Unicode.find_sub sep s) as [[b a]|] eqn:F; [|discriminate].
      inversion H; subst. simpl. f_equal. apply IH. reflexivity.
Qed.

(** No occurrence of [sep] starts before the one [find_sub] reports. *)
Lemma text_find_sub_leftmost (sep s before after : text) :
  Unicode.find_sub sep s = Some (before, after) ->
  forall before' after', s = (before' ++ sep ++ after')%list ->
    (List.length before <= List.length before')%nat.
Proof.
  revert before. induction s as [|c s IH]; intros before H before' after' Hs;
    rewrite text_find_sub_eq in H.
  - destruct (Unicode.strip_prefix sep []) as [r|]; [|discriminate].
    inversion H; subst. simpl. lia.
  - destruct (Unicode.strip_prefix sep (c :: s)) as [r|] eqn:E.
    + inversion H; subst. simpl. lia.
    + destruct (Unicode.find_sub sep s) as [[b a]|] eqn:F; [|discriminate].
      inversion H; subst.
      destruct before' as [|c' before'].
      * simpl in Hs. rewrite Hs in E.
        rewrite text_strip_prefix_complete in E. discriminate.
      * simpl in Hs. inversion Hs; subst. simpl.
        apply le_n_S. eapply IH; reflexivity.
Qed.

Lemma text_find_sub_none (sep s : text) :
  Unicode.find_sub sep s = None ->
  forall before after, s <> (before ++ sep ++ after)%list.
Proof.
  induction s as [|c s IH]; intros H before after Hs;
    rewrite text_find_sub_eq in H.
  - destruct (Unicode.strip_prefix sep []) as [r|] eqn:E; [discriminate|].
    destruct before; simpl in Hs.
    + rewrite Hs in E. rewrite text_strip_prefix_complete in E. discriminate.
    + discriminate.
  - destruct (Unicode.strip_prefix sep (c :: s)) as [r|] eqn:E;
      [discriminate|].
    destruct (Unicode.find_sub sep s) as [[b a]|] eqn:F; [discriminate|].
    destruct before as [|c' before]; simpl in Hs.
    + rewrite Hs in E. rewrite text_strip_prefix_complete in E. discriminate.
    + inversion Hs; subst. eapply IH; eauto.
Qed.

Lemma text_find_sub_shorter (sep s before after : text) :
  sep <> [] -> Unicode.find_sub sep s = Some (before, after) ->
  (List.length after < List.length s)%nat.
Proof.
  intros Hsep H. apply text_find_sub_sound in H. subst s.
  rewrite !length_app. destruct sep; [contradiction|]. simpl. lia.
Qed.

Lemma text_split_fuel_eq (n : nat) (sep s : text) :
  Unicode.split_fuel n sep s
  = match Unicode.find_sub sep s with
    | None => [s]
    | Some (before, after) =>
        match n with
        | O => [s]
        | S n' => before :: Unicode.split_fuel n' sep after
        end
    end.
Proof. destruct n; reflexivity. Qed.

Lemma text_split_fuel_enough (sep : text) (n m : nat) (s : text) :
  sep <> [] ->
  (List.length s <= n)%nat -> (List.length s <= m)%nat ->
  Unicode.split_fuel n sep s = Unicode.split_fuel m sep s.
Proof.
  intros Hsep. revert m s. induction n as [|n IH]; intros m s Hn Hm;
    rewrite (text_split_fuel_eq _ sep s), (text_split_fuel_eq m sep s);
    destruct (Unicode.find_sub sep s) as [[b a]|] eqn:F; try reflexivity;
    pose proof (text_find_sub_shorter _ _ _ _ Hsep F) as Hlt.
  - lia.
  - destruct m; [lia|]. f_equal. apply IH; lia.
Qed.

(** [s.split(sep)], one occurrence at a time. *)
Lemma text_split_unfold (s sep : text) :
  sep <> [] ->
  Unicode.split s sep
  = Returned (match Unicode.find_sub sep s with
              | None => [s]
              | Some (before, after) =>
                  before :: Unicode.split_fuel (List.length after) sep after
              end).
Proof.
  intros Hsep. unfold Unicode.split. destruct sep as [|c sep']; [contradiction|].
  f_equal. remember (c :: sep') as sep.
  rewrite text_split_fuel_eq.
  destruct (Unicode.find_sub sep s) as [[b a]|] eqn:F; [|reflexivity].
  pose proof (text_find_sub_shorter _ _ _ _ Hsep F) as Hlt.
  destruct (List.length s) as [|n] eqn:El; [lia|].
  f_equal. apply text_split_fuel_enough; [assumption| lia | lia].
Qed.

Lemma text_split_fuel_head (sep s : text) :
  sep <> [] ->
  exists rest,
    Unicode.split_fuel (List.length s) sep s
    = Unicode.before_marker sep s :: rest.
Proof.
  intros Hsep. rewrite text_split_fuel_eq. unfold Unicode.before_marker.
  destruct (Unicode.find_sub sep s) as [[b a]|] eqn:F.
  - pose proof (text_find_sub_shorter _ _ _ _ Hsep F) as Hlt.
    destruct (List.length s); [lia|]. eexists. reflexivity.
  - eexists. reflexivity.
Qed.

(** [s.split(sep)[0]]. *)
Lemma text_split_first (s sep : text) :
  sep <> [] ->
  (parts <- Unicode.split s sep ;; py_getitem parts 0)
  = Returned (Unicode.before_marker sep s).
Proof.
  intros Hsep. rewrite text_split_unfold by assumption.
  unfold bind, Unicode.before_marker.
  destruct (Unicode.find_sub sep s) as [[b a]|]; apply py_getitem_0.
Qed.

(** [s.split(sep)[1]] when [sep] occurs in [s]. *)
Lemma text_split_second (s sep inner : text) :
  sep <> [] -> Unicode.between_markers sep s = Some inner ->
  (parts <- Unicode.split s sep ;; py_getitem parts 1) = Returned inner.
Proof.
  intros Hsep Hb. rewrite text_split_unfold by assumption.
  unfold Unicode.between_markers in Hb. unfold bind.
  destruct (Unicode.find_sub sep s) as [[b a]|]; [|discriminate].
  inversion Hb; subst.
  destruct (text_split_fuel_head sep a Hsep) as [rest ->].
  apply py_getitem_1.
Qed.

(** The fence handling never raises and yields [fence_content]. *)
Lemma text_extract_payload_eq (response : text) :
  Unicode.extract_payload response
  = Returned (Unicode.fence_content (Unicode.strip response)).
Proof.
  unfold Unicode.extract_payload, Unicode.fence_content, Unicode.contains.
  set (s := Unicode.strip response).
  assert (Hj : Unicode.json_fence <> []) by discriminate.
  assert (Hf : Unicode.fence <> []) by discriminate.
  destruct (Unicode.between_markers Unicode.json_fence s) as [inner|] eqn:Bj.
  - assert (Fj : exists p, Unicode.find_sub Unicode.json_fence s = Some p).
    { unfold Unicode.between_markers in Bj.
      destruct (Unicode.find_sub Unicode.json_fence s) as [p|];
        [eauto | discriminate]. }
    destruct Fj as [p ->].
    rewrite <- bind_assoc. rewrite (text_split_second s _ inner Hj Bj).
    cbn [bind]. rewrite <- bind_assoc. rewrite (text_split_first inner _ Hf).
    reflexivity.
  - assert (Fj : Unicode.find_sub Unicode.json_fence s = None).
    { unfold Unicode.between_markers in Bj.
      destruct (Unicode.find_sub Unicode.json_fence s) as [[? ?]|];
        [discriminate | reflexivity]. }
    rewrite Fj.
    destruct (Unicode.between_markers Unicode.fence s) as [inner|] eqn:Bf.
    + assert (Ff : exists p, Unicode.find_sub Unicode.fence s = Some p).
      { unfold Unicode.between_markers in Bf.
        destruct (Unicode.find_sub Unicode.fence s) as [p|];
          [eauto | discriminate]. }
      destruct Ff as [p ->].
      rewrite <- bind_assoc. rewrite (text_split_second s _ inner Hf Bf).
      cbn [bind]. rewrite <- bind_assoc. rewrite (text_split_first inner _ Hf).
      reflexivity.
    + assert (Ff : Unicode.find_sub Unicode.fence s = None).
      { unfold Unicode.between_markers in Bf.
        destruct (Unicode.find_sub Unicode.fence s) as [[? ?]|];
          [discriminate | reflexivity]. }
      rewrite Ff. reflexivity.
Qed.

(** What the parser does with a payload that did not decode. *)
Lemma text_parse_decode_failure (lib : Unicode.Library) (response : text)
    (available_moves : list Move) (e : PyExc) :
  Unicode.loads lib (Unicode.fence_content (Unicode.strip response)) = Raised e ->
  Unicode._parse_llm_response lib response available_moves
  = if Player.parse_catches e then Returned (None, Unicode.VNull) else Raised e.
Proof.
  intros H. unfold Unicode._parse_llm_response, Unicode.parse_try.
  rewrite text_extract_payload_eq. cbn [bind]. rewrite H. reflexivity.
Qed.

(** What it does with a decoded object. *)
Lemma text_parse_object (lib : Unicode.Library) (response : text)
    (available_moves : list Move) (fields : list (text * Unicode.value)) :
  Unicode.loads lib (Unicode.fence_content (Unicode.strip response))
  = Returned (Unicode.VObject fields) ->
  Unicode._parse_llm_response lib response available_moves
  = let row :=
      Unicode.field_or Unicode.VNull
        (Unicode.assoc_get Unicode.key_row fields) in
    let col :=
      Unicode.field_or Unicode.VNull
        (Unicode.assoc_get Unicode.key_col fields) in
    let reasoning :=
      Unicode.field_or Unicode.no_reasoning
        (Unicode.assoc_get Unicode.key_reasoning fields) in
    if Unicode.is_null row || Unicode.is_null col
    then Returned (None, Unicode.VNull)
    else match Unicode.py_int lib row with
         | Raised e =>
             if Player.parse_catches e then Returned (None, Unicode.VNull)
             else Raised e
         | Returned r =>
             match Unicode.py_int lib col with
             | Raised e =>
                 if Player.parse_catches e then Returned (None, Unicode.VNull)
                 else Raised e
             | Returned c => Returned (Some (r, c), reasoning)
             end
         end.
Proof.
  intros H. unfold Unicode._parse_llm_response, Unicode.parse_try.
  rewrite text_extract_payload_eq. cbn [bind]. rewrite H.
  cbn [bind Unicode.get].
  destruct (Unicode.assoc_get Unicode.key_row fields) as [row|];
    destruct (Unicode.assoc_get Unicode.key_col fields) as [col|];
    destruct (Unicode.assoc_get Unicode.key_reasoning fields) as [reasoning|];
    cbn [bind Unicode.field_or];
    try (destruct (Unicode.is_null row)); try (destruct (Unicode.is_null col));
    cbn [negb andb orb Unicode.is_null]; try reflexivity;
    destruct (Unicode.py_int lib row) as [r|e]; cbn [bind]; try reflexivity;
    destruct (Unicode.py_int lib col) as [c|e']; cbn [bind]; reflexivity.
Qed.

(** What it does with a decoded value that is not an object. *)
Lemma text_parse_not_object (lib : Unicode.Library) (response : text)
    (available_moves : list Move) (data : Unicode.value) :
  Unicode.loads lib (Unicode.fence_content (Unicode.strip response))
  = Returned data ->
  (forall fields, data <> Unicode.VObject fields) ->
  Unicode._parse_llm_response lib response available_moves
  = raise AttributeError
      ("'" ++ Unicode.type_name data ++ "' object has no attribute 'get'").
Proof.
  intros H Hno. unfold Unicode._parse_llm_response, Unicode.parse_try.
  rewrite text_extract_payload_eq. cbn [bind]. rewrite H. cbn [bind].
  destruct data; try reflexivity. exfalso. eapply Hno. reflexivity.
Qed.

Lemma text_is_null_false (v : Unicode.value) :
  Unicode.is_null v = false <-> v <> Unicode.VNull.
Proof. destruct v; simpl; split; intros; congruence. Qed.

(** [int()] reads the digits of other scripts: with U+0660..U+0669 known as
    decimal digits, the text U+0663 U+0664 between U+3000 and U+00A0 is 34,
    while U+001C, which [strip] removes, is no white space for [int()]. *)
Lemma int_of_str_other_digits :
  Unicode.int_of_str Unicode.sample_library [12288; 1635; 1636; 160]%N
  = Returned 34
  /\ Unicode.strip [28; 53; 12288]%N = [53]%N
  /\ Unicode.int_of_str Unicode.sample_library [28; 53]%N
     = raise ValueError "invalid literal for int() with base 10".
Proof. repeat split. Qed.

(** C7, as the code has it, for a response of any code points: the parser
    strips the response and decodes [fence_content] of it (the text after
    the first [json] fence marker, or else after the first fence marker, cut
    at the next marker and stripped; the whole stripped response when it has
    no fence); this step never raises.  It returns the move [(r, c)]
    exactly when that text decodes to an object whose [row] and [col] are
    present, not null, and converted by [int()] to [r] and [c] (so quoted
    digits, booleans and floats qualify as well as integers), with the
    reasoning of the object or the placeholder text when the key is absent.
    A decoding error of the caught classes and a missing or null [row] or
    [col] give the pair of [None]s. *)
Theorem C7_parse_llm_response (lib : Unicode.Library) (response : text)
    (available_moves : list Move) :
  Unicode.extract_payload response
  = Returned (Unicode.fence_content (Unicode.strip response))
  /\ (forall r c reasoning,
        Unicode._parse_llm_response lib response available_moves
        = Returned (Some (r, c), reasoning)
        <->
        exists fields row col,
          Unicode.loads lib (Unicode.fence_content (Unicode.strip response))
          = Returned (Unicode.VObject fields)
          /\ Unicode.assoc_get Unicode.key_row fields = Some row
          /\ row <> Unicode.VNull
          /\ Unicode.assoc_get Unicode.key_col fields = Some col
          /\ col <> Unicode.VNull
          /\ Unicode.py_int lib row = Returned r
          /\ Unicode.py_int lib col = Returned c
          /\ reasoning
             = Unicode.field_or
                 (Unicode.VStr (text_of_string "No reasoning provided"))
                 (Unicode.assoc_get Unicode.key_reasoning fields))
  /\ (forall e,
        Unicode.loads lib (Unicode.fence_content (Unicode.strip response))
        = Raised e ->
        Player.parse_catches e = true ->
        Unicode._parse_llm_response lib response available_moves
        = Returned (None, Unicode.VNull))
  /\ (forall fields,
        Unicode.loads lib (Unicode.fence_content (Unicode.strip response))
        = Returned (Unicode.VObject fields) ->
        Unicode.field_or Unicode.VNull
          (Unicode.assoc_get Unicode.key_row fields) = Unicode.VNull
        \/ Unicode.field_or Unicode.VNull
             (Unicode.assoc_get Unicode.key_col fields) = Unicode.VNull ->
        Unicode._parse_llm_response lib response available_moves
        = Returned (None, Unicode.VNull)).
Proof.
  split; [apply text_extract_payload_eq|]. split; [|split].
  - intros r c reasoning. split.
    + intros Hres.
      destruct (Unicode.loads lib
                  (Unicode.fence_content (Unicode.strip response)))
        as [data|e] eqn:Hload.
      * destruct data as [| | | | | |fields];
          try (rewrite (text_parse_not_object _ _ _ _ Hload) in Hres;
               [discriminate | intros ? ?; discriminate]).
        rewrite (text_parse_object _ _ _ _ Hload) in Hres. cbv zeta in Hres.
        destruct (Unicode.assoc_get Unicode.key_row fields) as [row|] eqn:Hrow;
          [|discriminate].
        destruct (Unicode.assoc_get Unicode.key_col fields) as [col|] eqn:Hcol;
          [|cbn in Hres; rewrite orb_true_r in Hres; discriminate].
        cbn [Unicode.field_or] in Hres.
        destruct (Unicode.is_null row) eqn:Nr; [discriminate|].
        destruct (Unicode.is_null col) eqn:Nc; [discriminate|].
        cbn [orb] in Hres.
        destruct (Unicode.py_int lib row) as [r'|e1] eqn:Ir;
          [|destruct (Player.parse_catches e1); discriminate].
        destruct (Unicode.py_int lib col) as [c'|e2] eqn:Ic;
          [|destruct (Player.parse_catches e2); discriminate].
        inversion Hres; subst.
        exists fields, row, col.
        repeat split; try reflexivity; try assumption;
          apply text_is_null_false; assumption.
      * rewrite (text_parse_decode_failure _ _ _ _ Hload) in Hres.
        destruct (Player.parse_catches e); discriminate.
    + intros (fields & row & col & Hload & Hr & Nr & Hc & Nc & Ir & Ic & ->).
      rewrite (text_parse_object _ _ _ _ Hload). cbv zeta.
      rewrite Hr, Hc. cbn [Unicode.field_or].
      apply text_is_null_false in Nr, Nc. rewrite Nr, Nc, Ir, Ic. reflexivity.
  - intros e Hload Hcatch.
    rewrite (text_parse_decode_failure _ _ _ _ Hload), Hcatch. reflexivity.
  - intros fields Hload Hnull.
    rewrite (text_parse_object _ _ _ _ Hload). cbv zeta.
    destruct Hnull as [-> | ->]; cbn [Unicode.is_null orb]; [reflexivity|].
    rewrite orb_true_r. reflexivity.
Qed.

(** C7 as worded fails, on both of its rules.  The numeric fields: the
    response [{"row": "1", "col": "2"}], with no fence, decodes to an
    object whose [row] and [col] are strings, not numbers, and the parser
    returns the move (1, 2) all the same.  The first fenced block: for a
    response with a plain block holding [X . .] and then a block tagged
    [json] holding [{"row": 1, "col": 2}], the content of the first block
    is [X . .], which does not decode, and the parser returns the move
    (1, 2), read from the second block. *)
Lemma C7_as_worded_fails :
  (Unicode._parse_llm_response Unicode.sample_library Unicode.quoted_fields []
   = Returned (Some (1, 2), Unicode.no_reasoning)
   /\ Unicode.worded_payload Unicode.quoted_fields = Unicode.quoted_fields
   /\ Unicode.loads Unicode.sample_library Unicode.quoted_fields
      = Returned Unicode.quoted_fields_value
   /\ ~ Unicode.move_iff_numeric_fields Unicode.sample_library
          Unicode.quoted_fields [])
  /\ (Unicode._parse_llm_response Unicode.sample_library Unicode.two_blocks []
      = Returned (Some (1, 2), Unicode.no_reasoning)
      /\ Unicode.first_block_content Unicode.two_blocks
         = Some (text_of_string "X . .")
      /\ Unicode.fence_content (Unicode.strip Unicode.two_blocks)
         = Unicode.plain_fields
      /\ ~ Unicode.move_iff_numeric_fields Unicode.sample_library
             Unicode.two_blocks []).
Proof.
  split.
  - split; [vm_compute; reflexivity|].
    split; [vm_compute; reflexivity|].
    split; [vm_compute; reflexivity|].
    intros [Hmove _].
    destruct Hmove as (fields & row & col & Hl & Hr & _ & Hn & _).
    + do 2 eexists. vm_compute. reflexivity.
    + vm_compute in Hl. inversion Hl; subst fields.
      vm_compute in Hr. inversion Hr; subst row.
      discriminate Hn.
  - split; [vm_compute; reflexivity|].
    split; [vm_compute; reflexivity|].
    split; [vm_compute; reflexivity|].
    intros [Hmove _].
    destruct Hmove as (fields & row & col & Hl & _).
    + do 2 eexists. vm_compute. reflexivity.
    + vm_compute in Hl. discriminate Hl.
Qed.

(** *** The two parsers agree on strings

    On a response of characters below 256 whose decoded value holds such
    strings only, [Unicode._parse_llm_response] does what
    [Player._parse_llm_response] does. *)

Lemma code_eqb (a b : ascii) :
  (N_of_ascii a =? N_of_ascii b)%N = Ascii.eqb a b.
Proof.
  destruct (Ascii.eqb_spec a b) as [->|Hne].
  - apply N.eqb_refl.
  - apply N.eqb_neq. intros E. apply Hne.
    rewrite <- (ascii_N_embedding a), <- (ascii_N_embedding b), E. reflexivity.
Qed.

Ltac each_ascii c :=
  destruct c as [[] [] [] [] [] [] [] []].

Lemma isspace_code (c : ascii) :
  Unicode.isspace (N_of_ascii c) = py_isspace c.
Proof. each_ascii c; vm_compute; reflexivity. Qed.

Lemma int_isspace_code (c : ascii) :
  Unicode.int_isspace (N_of_ascii c) = int_isspace c.
Proof. each_ascii c; vm_compute; reflexivity. Qed.

Lemma digit_code (lib : Unicode.Library) (c : ascii) :
  (forall n, (128 <= n < 256)%N -> Unicode.decimal lib n = None) ->
  Unicode.digit lib (N_of_ascii c)
  = if is_digit c then Some (digit_val c) else None.
Proof.
  intros Hdec. unfold Unicode.digit.
  destruct ((N_of_ascii c <? 128)%N) eqn:Hlow.
  - clear Hdec. revert Hlow. each_ascii c; vm_compute; intros H;
      try reflexivity; discriminate H.
  - assert (Hrange : (128 <= N_of_ascii c < 256)%N).
    { apply N.ltb_ge in Hlow. split; [exact Hlow|]. apply N_ascii_bounded. }
    rewrite (Hdec _ Hrange). clear Hdec Hrange. revert Hlow.
    each_ascii c; vm_compute; intros H; try reflexivity; discriminate H.
Qed.

Lemma text_of_string_cons (c : ascii) (s : string) :
  text_of_string (String c s) = N_of_ascii c :: text_of_string s.
Proof. reflexivity. Qed.

Lemma string_of_text_of_string (s : string) :
  string_of_text (text_of_string s) = s.
Proof.
  induction s as [|c s IH]; [reflexivity|].
  rewrite text_of_string_cons. simpl. rewrite ascii_N_embedding, IH. reflexivity.
Qed.

Lemma is_empty_text (s : string) :
  Unicode.is_empty (text_of_string s) = String.eqb s "".
Proof. destruct s; reflexivity. Qed.

Lemma lstrip_text (s : string) :
  Unicode.lstrip (text_of_string s) = text_of_string (lstrip s).
Proof.
  induction s as [|c s IH]; [reflexivity|].
  rewrite text_of_string_cons. simpl. rewrite isspace_code.
  destruct (py_isspace c); [exact IH | reflexivity].
Qed.

Lemma rstrip_text (s : string) :
  Unicode.rstrip (text_of_string s) = text_of_string (rstrip s).
Proof.
  induction s as [|c s IH]; [reflexivity|].
  rewrite text_of_string_cons. simpl. rewrite IH, is_empty_text, isspace_code.
  destruct (String.eqb (rstrip s) "" && py_isspace c); reflexivity.
Qed.

Lemma strip_text (s : string) :
  Unicode.strip (text_of_string s) = text_of_string (py_strip s).
Proof. unfold Unicode.strip, py_strip. rewrite lstrip_text. apply rstrip_text. Qed.

Lemma strip_prefix_text (p s : string) :
  Unicode.strip_prefix (text_of_string p) (text_of_string s)
  = option_map text_of_string (strip_prefix p s).
Proof.
  revert s. induction p as [|a p IH]; intros s; [reflexivity|].
  destruct s as [|b s]; [reflexivity|].
  rewrite !text_of_string_cons. simpl. rewrite code_eqb.
  destruct (Ascii.eqb a b); [apply IH | reflexivity].
Qed.

Lemma find_sub_text (sep s : string) :
  Unicode.find_sub (text_of_string sep) (text_of_string s)
  = option_map (fun ba => (text_of_string (fst ba), text_of_string (snd ba)))
      (find_sub sep s).
Proof.
  induction s as [|c s IH].
  - rewrite text_find_sub_eq, strip_prefix_text. simpl.
    destruct (strip_prefix sep ""); reflexivity.
  - rewrite text_find_sub_eq, strip_prefix_text. simpl find_sub.
    destruct (strip_prefix sep (String c s)); [reflexivity|].
    rewrite text_of_string_cons, IH.
    destruct (find_sub sep s) as [[b a]|]; reflexivity.
Qed.

Lemma before_marker_text (marker s : string) :
  Unicode.before_marker (text_of_string marker) (text_of_string s)
  = text_of_string (before_marker marker s).
Proof.
  unfold Unicode.before_marker, before_marker. rewrite find_sub_text.
  destruct (find_sub marker s) as [[b a]|]; reflexivity.
Qed.

Lemma between_markers_text (marker s : string) :
  Unicode.between_markers (text_of_string marker) (text_of_string s)
  = option_map text_of_string (between_markers marker s).
Proof.
  unfold Unicode.between_markers, between_markers. rewrite find_sub_text.
  destruct (find_sub marker s) as [[b a]|]; [|reflexivity].
  cbn [option_map fst snd]. rewrite before_marker_text. reflexivity.
Qed.

Lemma fence_content_text (s : string) :
  Unicode.fence_content (text_of_string s) = text_of_string (fence_content s).
Proof.
  unfold Unicode.fence_content, fence_content,
    Unicode.json_fence, Unicode.fence.
  rewrite !between_markers_text.
  destruct (between_markers "```json" s) as [inner|]; cbn [option_map].
  - rewrite before_marker_text. apply strip_text.
  - destruct (between_markers "```" s) as [inner|]; cbn [option_map];
      [|reflexivity].
    rewrite before_marker_text. apply strip_text.
Qed.

Lemma text_eqb_text (a b : string) :
  Unicode.text_eqb (text_of_string a) (text_of_string b) = String.eqb a b.
Proof.
  revert b. induction a as [|x a IH]; intros [|y b]; try reflexivity.
  rewrite !text_of_string_cons. simpl. rewrite code_eqb, IH. reflexivity.
Qed.

Lemma assoc_get_widen (k : string) (fields : list (string * json)) :
  Unicode.assoc_get (text_of_string k)
    (map (fun kv => let '(k', x) := kv in (text_of_string k', widen x)) fields)
  = option_map widen (assoc_get k fields).
Proof.
  induction fields as [|[k' v] rest IH]; [reflexivity|].
  simpl. rewrite text_eqb_text. destruct (String.eqb k k'); [reflexivity|].
  exact IH.
Qed.

Lemma int_lstrip_text (s : string) :
  Unicode.int_lstrip (text_of_string s) = text_of_string (int_lstrip s).
Proof.
  induction s as [|c s IH]; [reflexivity|].
  rewrite text_of_string_cons. simpl. rewrite int_isspace_code.
  destruct (int_isspace c); [exact IH | reflexivity].
Qed.

Lemma int_rstrip_text (s : string) :
  Unicode.int_rstrip (text_of_string s) = text_of_string (int_rstrip s).
Proof.
  induction s as [|c s IH]; [reflexivity|].
  rewrite text_of_string_cons. simpl.
  rewrite IH, is_empty_text, int_isspace_code.
  destruct (String.eqb (int_rstrip s) "" && int_isspace c); reflexivity.
Qed.

Lemma read_digits_text (lib : Unicode.Library) (s : string) :
  (forall n, (128 <= n < 256)%N -> Unicode.decimal lib n = None) ->
  forall after_digit acc count,
    Unicode.read_digits lib (text_of_string s) after_digit acc count
    = read_digits s after_digit acc count.
Proof.
  intros Hdec. induction s as [|c s IH]; intros after_digit acc count;
    [reflexivity|].
  rewrite text_of_string_cons. simpl. rewrite (digit_code lib c Hdec).
  destruct (is_digit c); [apply IH|].
  change 95%N with (N_of_ascii "_"%char). rewrite code_eqb.
  destruct (Ascii.eqb c "_" && after_digit); [apply IH | reflexivity].
Qed.

Lemma int_of_str_text (lib : Unicode.Library) (s : string) :
  (forall n, (128 <= n < 256)%N -> Unicode.decimal lib n = None) ->
  Unicode.int_of_str lib (text_of_string s) = int_of_str s.
Proof.
  intros Hdec. unfold Unicode.int_of_str, int_of_str.
  rewrite int_lstrip_text, int_rstrip_text.
  destruct (int_rstrip (int_lstrip s)) as [|c rest] eqn:Hbody.
  - reflexivity.
  - rewrite text_of_string_cons. cbv zeta.
    change 45%N with (N_of_ascii "-"%char).
    change 43%N with (N_of_ascii "+"%char).
    rewrite !code_eqb.
    destruct (Ascii.eqb_spec c "-") as [->|Hminus];
      [rewrite (read_digits_text lib rest Hdec); reflexivity|].
    destruct (Ascii.eqb_spec c "+") as [->|Hplus];
      [rewrite (read_digits_text lib rest Hdec); reflexivity|].
    rewrite <- text_of_string_cons, (read_digits_text lib _ Hdec).
    revert Hminus Hplus. clear.
    each_ascii c; intros Hminus Hplus; try reflexivity;
      exfalso; (apply Hminus; reflexivity) || (apply Hplus; reflexivity).
Qed.

Lemma type_name_widen (v : json) : Unicode.type_name (widen v) = type_name v.
Proof. destruct v; reflexivity. Qed.

Lemma is_null_widen (v : json) : Unicode.is_null (widen v) = is_null v.
Proof. destruct v; reflexivity. Qed.

Lemma py_int_widen (lib : Unicode.Library) (v : json) :
  (forall n, (128 <= n < 256)%N -> Unicode.decimal lib n = None) ->
  Unicode.py_int lib (widen v) = py_int v.
Proof.
  intros Hdec. destruct v; try reflexivity.
  apply int_of_str_text. exact Hdec.
Qed.

(** The agreement: with a library whose decoder answers as [json.loads]
    of [env] does, and whose only decimal digits below 256 are the ASCII
    ones, the parser on texts returns, on the text of [response], the
    result of the parser on strings. *)
Lemma parsers_agree (env : Env) (lib : Unicode.Library) (response : string)
    (available_moves : list Move) :
  (forall n, (128 <= n < 256)%N -> Unicode.decimal lib n = None) ->
  (forall s, Unicode.loads lib (text_of_string s)
             = map_result widen (json_loads env s)) ->
  Unicode._parse_llm_response lib (text_of_string response) available_moves
  = map_result (fun mr => (fst mr, widen (snd mr)))
      (Player._parse_llm_response env response available_moves).
Proof.
  intros Hdec Hloads.
  assert (Hpayload :
            Unicode.loads lib
              (Unicode.fence_content (Unicode.strip (text_of_string response)))
            = map_result widen
                (json_loads env (fence_content (py_strip response)))).
  { rewrite strip_text, fence_content_text. apply Hloads. }
  destruct (json_loads env (fence_content (py_strip response)))
    as [data|e] eqn:Hload; cbn [map_result] in Hpayload.
  - destruct data as [| | | | | |fields];
      try (rewrite (text_parse_not_object _ _ _ _ Hpayload)
             by (intros ? ?; discriminate);
           rewrite (parse_not_object _ _ _ _ Hload)
             by (intros ? ?; discriminate);
           reflexivity).
    cbn [widen] in Hpayload.
    rewrite (text_parse_object _ _ _ _ Hpayload), (parse_object _ _ _ _ Hload).
    cbv zeta. unfold Unicode.key_row, Unicode.key_col, Unicode.key_reasoning.
    rewrite !assoc_get_widen.
    assert (Hfield : forall d o,
               Unicode.field_or (widen d) (option_map widen o)
               = widen (field_or d o)) by (intros d [x|]; reflexivity).
    change Unicode.VNull with (widen JNull).
    change Unicode.no_reasoning with (widen (JString "No reasoning provided")).
    rewrite !Hfield, !is_null_widen, !(py_int_widen lib _ Hdec).
    destruct (is_null (field_or JNull (assoc_get "row" fields))
              || is_null (field_or JNull (assoc_get "col" fields)));
      [reflexivity|].
    destruct (py_int (field_or JNull (assoc_get "row" fields))) as [r|e1];
      [|destruct (Player.parse_catches e1); reflexivity].
    destruct (py_int (field_or JNull (assoc_get "col" fields))) as [c|e2];
      [|destruct (Player.parse_catches e2); reflexivity].
    reflexivity.
  - rewrite (text_parse_decode_failure _ _ _ _ Hpayload),
      (parse_decode_failure _ _ _ _ Hload).
    destruct (Player.parse_catches e); reflexivity.
Qed.

(** Such a library exists for every [env]. *)
Lemma parsers_agree_library (env : Env) (response : string)
    (available_moves : list Move) :
  Unicode._parse_llm_response (library_of env) (text_of_string response)
    available_moves
  = map_result (fun mr => (fst mr, widen (snd mr)))
      (Player._parse_llm_response env response available_moves).
Proof.
  apply parsers_agree.
  - intros n [Hlow Hhigh]. unfold library_of, Unicode.sample_decimal.
    cbn [Unicode.decimal].
    destruct ((1632 <=? n)%N) eqn:E1; [apply N.leb_le in E1; lia|].
    destruct ((65296 <=? n)%N) eqn:E2; [apply N.leb_le in E2; lia|].
    reflexivity.
  - intros s. unfold library_of. cbn [Unicode.loads].
    rewrite string_of_text_of_string. reflexivity.
Qed.

(** ** The game *)

(** C6: on a game that is over, [make_move], with or without coordinates,
    answers [success = False] with the current board, winner and draw flag,
    leaves the game exactly as it was and hands nothing to the logger. *)
Theorem C6_make_move_when_over (env : Env) (g : Game.t) (row col : option Z)
    (Hover : Game.game_over g = true) :
  exists res,
    Game.make_move env g row col = Returned (res, g, [])
    /\ r_success res = false
    /\ r_board res = Game.board g
    /\ r_game_over res = true
    /\ r_winner res = Some (Game.winner g)
    /\ r_is_draw res = Some (Game.is_draw g).
Proof.
  unfold Game.make_move. rewrite Hover. eexists. split; [reflexivity|].
  cbn. rewrite get_state_eq. repeat split.
Qed.

(** C8: on a fresh game the moves X:(0,0), O:(1,1), X:(0,1), O:(2,2),
    X:(0,2) all succeed; the fifth result names the winner "X", and the game
    then has winner "X", [game_over] set and five entries in its history. *)
Theorem C8_top_row_win (env : Env) :
  exists r1 r2 r3 r4 r5 g,
    play_moves env (Game.init env None None None true)
      [(0, 0); (1, 1); (0, 1); (2, 2); (0, 2)]
    = Returned ([r1; r2; r3; r4; r5], g)
    /\ map r_success [r1; r2; r3; r4; r5] = [true; true; true; true; true]
    /\ r_winner r5 = Some (Some "X")
    /\ r_game_over r5 = true
    /\ Game.winner g = Some "X"
    /\ Game.game_over g = true
    /\ Game.is_draw g = false
    /\ List.length (Game.move_history g) = 5%nat
    /\ map (fun h => (h_player h, h_row h, h_col h)) (Game.move_history g)
       = [("X", Some 0, Some 0); ("O", Some 1, Some 1); ("X", Some 0, Some 1);
          ("O", Some 2, Some 2); ("X", Some 0, Some 2)].
Proof.
  do 6 eexists. split; [vm_compute; reflexivity|].
  repeat split.
Qed.

Lemma C6_make_move_when_over_witness :
  Game.game_over finished_game = true
  /\ exists res,
      Game.make_move offline_env finished_game (Some 1) (Some 0)
      = Returned (res, finished_game, [])
      /\ r_success res = false.
Proof.
  assert (Hover : Game.game_over finished_game = true) by reflexivity.
  split; [exact Hover|].
  destruct (C6_make_move_when_over offline_env finished_game (Some 1) (Some 0) Hover)
    as (res & Heq & Hs & _).
  exists res. split; assumption.
Defined.

(** With a non-empty list the chooser always hands back a move. *)
Lemma choose_move_some (env : Env) (self : Player.t)
    (available_moves : list Move) (board_state : option Grid) :
  available_moves <> [] ->
  exists m md self',
    Player.choose_move env self available_moves board_state
    = Returned (Some m, Some md, self')
    /\ In m available_moves
    /\ Player.symbol self' = Player.symbol self
    /\ Player.name self' = Player.name self
    /\ chooser_config self' = chooser_config self
    /\ player_type md = Player.get_player_type self.
Proof.
  intros Hne.
  destruct (random_choice_in env available_moves Hne) as (a & Hrand & Ha).
  unfold Player.choose_move.
  destruct available_moves as [|m0 rest] eqn:El; [contradiction|].
  rewrite <- El in *. unfold Player.get_player_type.
  destruct (Player.use_llm self) eqn:Hllm;
    [destruct (Player.agent self) as [ag|] eqn:Hag;
     [destruct board_state as [bs|]|]|];
    try (rewrite Hrand; cbn; do 3 eexists; split; [reflexivity|];
         split; [assumption|]; unfold chooser_config; cbn;
         rewrite ?Hllm, ?Hag; repeat split; reflexivity).
  destruct (Player._choose_move_llm env self ag available_moves bs)
    as [[m|] md] eqn:Hchoice.
  - pose proof (choose_move_llm_in _ _ _ _ _ _ _ Hchoice) as Hin.
    rewrite Hin. cbn. do 3 eexists. split; [reflexivity|].
    split; [apply move_in_In; assumption|].
    unfold chooser_config; cbn. rewrite ?Hllm, ?Hag. repeat split; reflexivity.
  - rewrite Hrand. cbn. do 3 eexists. split; [reflexivity|].
    split; [assumption|].
    unfold chooser_config; cbn. rewrite ?Hllm, ?Hag. repeat split; reflexivity.
Qed.

(** *** Winner detection and available moves on a well-formed board *)

Lemma check_line_cases (a b c : Cell) :
  check_line (Returned a) (Returned b) (Returned c) = Returned None
  \/ (check_line (Returned a) (Returned b) (Returned c) = Returned (Some a)
      /\ exists s, a = Some s).
Proof.
  unfold check_line. cbn [bind].
  destruct (cell_eqb a b); [|left; reflexivity].
  cbn [bind]. destruct (cell_eqb b c); [|left; reflexivity].
  destruct a as [s|]; [right | left; reflexivity].
  split; [reflexivity | eauto].
Qed.

Lemma first_complete_total (lines : list (Cell * Cell * Cell)) :
  exists w,
    first_complete lines = Returned w
    /\ (w = None
        \/ exists s b c, w = Some s /\ In (Some s, b, c) lines).
Proof.
  induction lines as [|[[a b] c] rest IH].
  - exists None. split; [reflexivity | left; reflexivity].
  - cbn [first_complete].
    destruct (check_line_cases a b c) as [-> | [-> [s ->]]]; cbn [bind].
    + destruct IH as (w & Hw & [-> | (s & b' & c' & -> & Hin)]).
      * exists None. split; [assumption | left; reflexivity].
      * exists (Some s). split; [assumption|]. right.
        exists s, b', c'. split; [reflexivity | right; assumption].
    + exists (Some s). split; [reflexivity|]. right.
      exists s, b, c. split; [reflexivity | left; reflexivity].
Qed.

Lemma check_winner_cells (c00 c01 c02 c10 c11 c12 c20 c21 c22 : Cell) :
  check_winner [[c00; c01; c02]; [c10; c11; c12]; [c20; c21; c22]]
  = first_complete
      [(c00, c01, c02); (c10, c11, c12); (c20, c21, c22);
       (c00, c10, c20); (c01, c11, c21); (c02, c12, c22);
       (c00, c11, c22); (c02, c11, c20)].
Proof.
  unfold check_winner, first_complete, check_rows, check_cols, grid_cell.
  change (py_getitem [[c00; c01; c02]; [c10; c11; c12]; [c20; c21; c22]] 0)
    with (Returned [c00; c01; c02]).
  change (py_getitem [[c00; c01; c02]; [c10; c11; c12]; [c20; c21; c22]] 1)
    with (Returned [c10; c11; c12]).
  change (py_getitem [[c00; c01; c02]; [c10; c11; c12]; [c20; c21; c22]] 2)
    with (Returned [c20; c21; c22]).
  cbn [bind].
  change (py_getitem [c00; c01; c02] 0) with (Returned c00).
  change (py_getitem [c00; c01; c02] 1) with (Returned c01).
  change (py_getitem [c00; c01; c02] 2) with (Returned c02).
  change (py_getitem [c10; c11; c12] 0) with (Returned c10).
  change (py_getitem [c10; c11; c12] 1) with (Returned c11).
  change (py_getitem [c10; c11; c12] 2) with (Returned c12).
  change (py_getitem [c20; c21; c22] 0) with (Returned c20).
  change (py_getitem [c20; c21; c22] 1) with (Returned c21).
  change (py_getitem [c20; c21; c22] 2) with (Returned c22).
  repeat match goal with
         | |- context [check_line (Returned ?a) (Returned ?b) (Returned ?c)] =>
             destruct (check_line (Returned a) (Returned b) (Returned c))
               as [[?|]|];
             cbn [bind]; try reflexivity
         end.
Qed.

(** On a well-formed board [check_winner] returns, and a symbol it returns
    is one of the marks. *)
Lemma check_winner_total (b : Grid) :
  wf_grid b ->
  exists w,
    check_winner b = Returned w
    /\ (w = None \/ exists s, w = Some s /\ In (Some s) (List.concat b)).
Proof.
  intros Hwf. explode_grid Hwf. rewrite check_winner_cells.
  match goal with
  | |- context [first_complete ?lines] =>
      destruct (first_complete_total lines)
        as (w & Hw & [-> | (s & b' & c' & -> & Hin)])
  end.
  - exists None. split; [assumption | left; reflexivity].
  - exists (Some s). split; [assumption|]. right. exists s.
    split; [reflexivity|]. cbn in Hin |- *.
    repeat (destruct Hin as [Hin | Hin];
            [inversion Hin; subst; tauto|]).
    contradiction.
Qed.

(** On a well-formed board the list of available moves is empty exactly when
    the board is full. *)
Lemma available_total (b : Grid) :
  wf_grid b ->
  exists l,
    get_available_moves b = Returned l
    /\ (l = [] <-> is_board_full b = true).
Proof.
  intros Hwf. explode_grid Hwf.
  unfold get_available_moves. eval_index.
  destruct c00, c01, c02, c10, c11, c12, c20, c21, c22; cbn;
    (eexists; split; [reflexivity|];
     split; intros; (reflexivity || discriminate)).
Qed.

Lemma count_occupied_bound (b : Grid) :
  wf_grid b -> (count_occupied b <= 9)%nat.
Proof.
  intros Hwf. explode_grid Hwf. unfold count_occupied.
  etransitivity; [apply filter_length_le|]. cbn. lia.
Qed.

(** *** One call of [make_move] on a running game *)

Lemma same_setup_refl (g : Game.t) : same_setup g g.
Proof. unfold same_setup. repeat split. Qed.

Lemma same_setup_trans (g1 g2 g3 : Game.t) :
  same_setup g1 g2 -> same_setup g2 g3 -> same_setup g1 g3.
Proof. unfold same_setup. intuition congruence. Qed.

(** The coordinates a call settles on are two integers: the explicit ones,
    or the chooser's.  Only the current player's bookkeeping changes. *)
Lemma determine_move_outcome (env : Env) (g : Game.t) (row col : option Z)
    (available_moves : list Move) :
  available_moves <> [] ->
  exists r c md g1,
    Game.determine_move env g row col available_moves
    = Returned (Some r, Some c, md, g1)
    /\ same_setup g g1 /\ same_play g g1
    /\ Player.symbol (Game.current g1) = Player.symbol (Game.current g)
    /\ (forall r0 c0, row = Some r0 -> col = Some c0 -> r = r0 /\ c = c0).
Proof.
  intros Hne.
  destruct (choose_move_some env (Game.current g) available_moves
              (Some (Board.get_state (Game.board g))) Hne)
    as ([r c] & md & p & Hchoose & _ & Hsym & _ & Hcfg & _).
  assert (Hchooser :
            same_setup g (Game.set_current g p)
            /\ same_play g (Game.set_current g p)
            /\ Player.symbol (Game.current (Game.set_current g p))
               = Player.symbol (Game.current g)).
  { unfold same_setup, same_play, Game.set_current, Game.current in *.
    destruct (Game.current_player g); cbn; repeat split; assumption. }
  unfold Game.determine_move.
  destruct row as [r0|], col as [c0|];
    try (rewrite Hchoose; cbn [bind];
         exists r, c, (Some md), (Game.set_current g p);
         split; [reflexivity|];
         destruct Hchooser as (H1 & H2 & H3);
         split; [exact H1|]; split; [exact H2|]; split; [exact H3|];
         intros ? ? Ha Hb; (discriminate Ha || discriminate Hb)).
  exists r0, c0, None, g. split; [reflexivity|].
  split; [apply same_setup_refl|]. split; [unfold same_play; repeat split|].
  split; [reflexivity|].
  intros ? ? H1 H2. inversion H1; inversion H2. auto.
Qed.

(** What one call does to a running game with a well-formed board: it
    returns; either it reports failure and leaves board, turn, winner and
    history alone, or it reports success after marking one empty cell in
    range and appending one history entry. *)
Lemma make_move_outcome (env : Env) (g : Game.t) (row col : option Z) :
  wf_grid (Game.board g) -> Game.game_over g = false ->
  exists res g' logs,
    Game.make_move env g row col = Returned (res, g', logs)
    /\ same_setup g g'
    /\ ((r_success res = false
         /\ Game.board g' = Game.board g
         /\ Game.current_player g' = Game.current_player g
         /\ Game.move_history g' = Game.move_history g
         /\ Game.winner g' = Game.winner g
         /\ ((Game.game_over g' = false /\ Game.is_draw g' = Game.is_draw g)
             \/ (Board.is_full (Game.board g) = true
                 /\ Game.game_over g' = true /\ Game.is_draw g' = true)))
        \/ (r_success res = true
            /\ exists r c b' w entry,
                (forall r0 c0, row = Some r0 -> col = Some c0 -> r = r0 /\ c = c0)
                /\ in_range r c
                /\ grid_cell (Game.board g) r c = Returned None
                /\ wf_grid b'
                /\ count_occupied b' = S (count_occupied (Game.board g))
                /\ (forall x, In x (List.concat b') ->
                      x = Some (Player.symbol (Game.current g))
                      \/ In x (List.concat (Game.board g)))
                /\ check_winner b' = Returned w
                /\ (w = None \/ exists s, w = Some s /\ In (Some s) (List.concat b'))
                /\ Game.board g' = b'
                /\ Game.move_history g' = (Game.move_history g ++ [entry])%list
                /\ ((truthy w = true
                     /\ Game.winner g' = w /\ Game.game_over g' = true
                     /\ Game.is_draw g' = Game.is_draw g
                     /\ Game.current_player g' = Game.current_player g)
                    \/ (truthy w = false /\ Board.is_full b' = true
                        /\ Game.winner g' = Game.winner g
                        /\ Game.game_over g' = true /\ Game.is_draw g' = true
                        /\ Game.current_player g' = Game.current_player g)
                    \/ (truthy w = false /\ Board.is_full b' = false
                        /\ Game.winner g' = Game.winner g
                        /\ Game.game_over g' = false
                        /\ Game.is_draw g' = Game.is_draw g
                        /\ Game.current_player g'
                           = Game.other (Game.current_player g))))).
Proof.
  intros Hwf Hrunning.
  destruct (available_total (Game.board g) Hwf) as (l & Hl & Hempty).
  unfold Game.make_move, Board.get_available_moves.
  rewrite Hrunning, Hl. cbn [bind].
  destruct l as [|m0 rest].
  - do 3 eexists. split; [reflexivity|].
    split; [unfold same_setup; cbn; repeat split|].
    left. cbn. repeat split. right.
    split; [apply Hempty; reflexivity | split; reflexivity].
  - destruct (determine_move_outcome env g row col (m0 :: rest))
      as (r & c & md & g1 & Hdet & Hsetup & Hplay & Hsym & Hexplicit);
      [discriminate|].
    rewrite Hdet. cbn [bind].
    destruct Hplay as (Hb & Hcur & Hwin & Hdraw & Hover & Hhist).
    rewrite Hrunning in Hover. rewrite <- Hb in Hwf.
    destruct (make_move_cases (Game.board g1) r c
                (Player.symbol (Game.current g1)) Hwf)
      as [Hsame | (Hin & Hcell & b' & Hmv & Hwf' & _ & Hcount & Hcells)].
    + rewrite Hsame. cbn [bind negb].
      do 3 eexists. split; [reflexivity|].
      split; [unfold same_setup in *; cbn; intuition congruence|].
      left. cbn. repeat split; try assumption. left. split; assumption.
    + rewrite Hmv. cbn [bind negb].
      destruct (check_winner_total b' Hwf') as (w & Hw & Hwmark).
      unfold Board.get_winner. cbn [Game.board Game.set_history Game.set_board].
      rewrite Hw. cbn [bind].
      assert (Hprefix :
                (forall r0 c0, row = Some r0 -> col = Some c0 -> r = r0 /\ c = c0)
                /\ in_range r c
                /\ grid_cell (Game.board g) r c = Returned None
                /\ wf_grid b'
                /\ count_occupied b' = S (count_occupied (Game.board g))
                /\ (forall x, In x (List.concat b') ->
                      x = Some (Player.symbol (Game.current g))
                      \/ In x (List.concat (Game.board g)))
                /\ check_winner b' = Returned w
                /\ (w = None \/ exists s, w = Some s /\ In (Some s) (List.concat b'))).
      { rewrite <- Hb, <- Hsym.
        split; [exact Hexplicit|]. split; [exact Hin|].
        split; [exact Hcell|]. split; [exact Hwf'|].
        split; [exact Hcount|]. split; [exact Hcells|].
        split; [exact Hw | exact Hwmark]. }
      destruct (truthy w) eqn:Htruthy;
        [|destruct (Board.is_full b') eqn:Hfull];
        (do 3 eexists; split; [reflexivity|];
         split; [unfold same_setup in *; cbn; intuition congruence|];
         right; split; [reflexivity|];
         exists r, c, b', w; eexists;
         destruct Hprefix as (P1 & P2 & P3 & P4 & P5 & P6 & P7 & P8);
         split; [exact P1|]; split; [exact P2|]; split; [exact P3|];
         split; [exact P4|]; split; [exact P5|]; split; [exact P6|];
         split; [exact P7|]; split; [exact P8|];
         split; [reflexivity|];
         split; [cbn; rewrite Hhist; reflexivity|]).
      * left. cbn. repeat split; assumption.
      * right; left. cbn. repeat split; assumption.
      * right; right. cbn. rewrite Hcur. repeat split; assumption.
Qed.

(** *** The invariant *)

Lemma truthy_some (s : Symbol) : s <> "" -> truthy (Some s) = true.
Proof.
  intros Hs. simpl. destruct (String.eqb_spec s ""); [contradiction | reflexivity].
Qed.

Lemma current_symbol (g : Game.t) :
  Player.symbol (Game.current g) = Player.symbol (Game.player_x g)
  \/ Player.symbol (Game.current g) = Player.symbol (Game.player_o g).
Proof. unfold Game.current. destruct (Game.current_player g); auto. Qed.

Lemma invariant_init (g0 : Game.t) : constructed g0 -> invariant g0 g0.
Proof.
  intros (env & gid & px & po & lg & ->).
  constructor; cbn; try reflexivity.
  - apply wf_grid_init.
  - intros _. repeat split.
  - discriminate.
  - intros _. split; [|reflexivity].
    unfold marks_truthy. cbn. repeat constructor.
Qed.

Lemma invariant_reset (env : Env) (g0 g : Game.t) :
  invariant g0 g -> invariant g0 (Game.reset env g).
Proof.
  intros Hinv. destruct Hinv.
  constructor; cbn; try assumption; try reflexivity.
  - apply wf_grid_init.
  - intros _. repeat split.
  - discriminate.
  - intros _. split; [|reflexivity].
    unfold marks_truthy. cbn. repeat constructor.
Qed.

Lemma make_move_over (env : Env) (g : Game.t) (row col : option Z) :
  Game.game_over g = true ->
  exists res, Game.make_move env g row col = Returned (res, g, []).
Proof.
  intros Hover. unfold Game.make_move. rewrite Hover. eexists. reflexivity.
Qed.

Lemma invariant_move (env : Env) (g0 g g' : Game.t) (row col : option Z)
    (res : MoveResult) (logs : list LogEvent) :
  invariant g0 g ->
  Game.make_move env g row col = Returned (res, g', logs) ->
  invariant g0 g'.
Proof.
  intros Hinv Hmove.
  destruct (Game.game_over g) eqn:Hover.
  { destruct (make_move_over env g row col Hover) as [res' Heq].
    rewrite Heq in Hmove. inversion Hmove; subst. assumption. }
  destruct Hinv as [Hwf Hcount Hrun Hov Hid Hlog Hsx Hso Hcx Hco Hmarks].
  destruct (Hrun Hover) as (Hnowin & Hnodraw & Hnotfull).
  destruct (make_move_outcome env g row col Hwf Hover)
    as (res' & g'' & logs' & Heq & Hsetup & Hcases).
  rewrite Heq in Hmove. inversion Hmove; subst res' g'' logs'. clear Hmove.
  destruct Hsetup as (Sid & Slog & Ssx & Sso & Scx & Sco).
  destruct Hcases
    as [(_ & Hb & Hcur & Hhist & Hwin & Hflags)
       | (_ & r & c & b' & w & entry & _ & _ & _ & Hwf' & Hcnt & Hcells
          & Hw & Hwmark & Hb & Hhist & Hflags)].
  - (* the call reported failure *)
    constructor; try congruence.
    + intros Hr. rewrite Hb.
      destruct Hflags as [[_ Hd] | [_ [Ho _]]]; [|congruence].
      repeat split; congruence.
    + intros Ho. rewrite Hb.
      destruct Hflags as [[Hr _] | [Hfull [_ Hd]]]; [congruence|].
      right. repeat split; congruence.
    + intros Ht. rewrite Hb, Hwin. apply Hmarks. assumption.
  - (* one cell was marked *)
    assert (Hmarks' :
              symbols_truthy g0 -> marks_truthy b').
    { intros Ht. destruct (Hmarks Ht) as [Hold _].
      unfold marks_truthy in *. rewrite Forall_forall in *.
      intros x Hx. destruct (Hcells x Hx) as [-> | Hin]; [|auto].
      right. apply truthy_some. destruct Ht as [Hx0 Ho0].
      destruct (current_symbol g) as [-> | ->]; congruence. }
    assert (Hfalsy :
              symbols_truthy g0 -> truthy w = false -> w = None).
    { intros Ht Hf. destruct Hwmark as [-> | (s & -> & Hin)]; [reflexivity|].
      pose proof (Hmarks' Ht) as Hall. unfold marks_truthy in Hall.
      rewrite Forall_forall in Hall.
      destruct (Hall _ Hin) as [Hnone | Htrue]; congruence. }
    constructor; try congruence.
    + rewrite Hhist, Hb, Hcnt, length_app. cbn. lia.
    + intros Hr. rewrite Hb.
      destruct Hflags as [(_ & _ & Ho & _) | [(_ & _ & _ & Ho & _)
                         | (_ & Hnf & Hwn & _ & Hd & _)]]; try congruence.
      repeat split; congruence.
    + intros Hr. rewrite Hb.
      destruct Hflags as [(Ht & Hwn & _ & Hd & _) | [(_ & Hf & Hwn & _ & Hd & _)
                         | (_ & _ & _ & Ho & _)]]; try congruence.
      * left. split; [|congruence].
        rewrite Hwn. intros ->. discriminate.
      * right. repeat split; congruence.
    + intros Ht. rewrite Hb. split; [apply Hmarks'; assumption|].
      unfold Board.get_winner. rewrite Hw. f_equal.
      destruct Hflags as [(_ & Hwn & _) | [(Hf & _ & Hwn & _)
                         | (Hf & _ & Hwn & _)]].
      * congruence.
      * rewrite Hwn, Hnowin. apply Hfalsy; assumption.
      * rewrite Hwn, Hnowin. apply Hfalsy; assumption.
Qed.

Lemma invariant_reachable (g0 g : Game.t) :
  constructed g0 -> reachable g0 g -> invariant g0 g.
Proof.
  intros Hc Hreach. induction Hreach.
  - apply invariant_init. assumption.
  - eapply invariant_move; eauto.
  - apply invariant_reset. assumption.
Qed.

(** From the invariant, every call returns. *)
Lemma make_move_returns (env : Env) (g0 g : Game.t) (row col : option Z) :
  invariant g0 g ->
  exists res g' logs, Game.make_move env g row col = Returned (res, g', logs).
Proof.
  intros Hinv. destruct (Game.game_over g) eqn:Hover.
  - destruct (make_move_over env g row col Hover) as [res Heq]. eauto.
  - destruct (make_move_outcome env g row col (inv_wf _ _ Hinv) Hover)
      as (res & g' & logs & Heq & _). eauto.
Qed.

Lemma play_moves_reachable (env : Env) (g0 : Game.t) (moves : list Move) :
  forall g results g',
    reachable g0 g ->
    play_moves env g moves = Returned (results, g') ->
    reachable g0 g'.
Proof.
  induction moves as [|[r c] rest IH]; intros g results g' Hreach Hplay.
  - cbn in Hplay. inversion Hplay; subst. assumption.
  - cbn [play_moves] in Hplay.
    destruct (Game.make_move env g (Some r) (Some c)) as [[[res g1] logs]|e] eqn:Hmv;
      [|discriminate].
    cbn [bind] in Hplay.
    destruct (play_moves env g1 rest) as [[results' g2]|e] eqn:Hrest;
      [|discriminate].
    cbn [bind] in Hplay. inversion Hplay; subst.
    eapply IH; [|exact Hrest].
    eapply reach_move; eauto.
Qed.

(** C3: in every game state reached from a constructed game by calls of
    [make_move] (with any arguments and any outside world) and [reset]:
    [game_over] holds exactly when a winner is recorded or the board is full
    with no winner; a winner and [is_draw] never hold together; the history
    has at most nine entries.  Moreover [is_draw] holds exactly when the
    board is full with no winner, every further call of [make_move] returns,
    and, when both players' symbols are non-empty, the recorded winner is
    the one [check_winner] finds on the board. *)
Theorem C3_game_invariants (g0 g : Game.t)
    (Hstart : constructed g0) (Hreach : reachable g0 g) :
  (Game.game_over g = true
   <-> (Game.winner g <> None
        \/ (Board.is_full (Game.board g) = true /\ Game.winner g = None)))
  /\ ~ (Game.winner g <> None /\ Game.is_draw g = true)
  /\ (List.length (Game.move_history g) <= 9)%nat
  /\ (Game.is_draw g = true
      <-> (Board.is_full (Game.board g) = true /\ Game.winner g = None))
  /\ (forall env row col,
        exists res g' logs,
          Game.make_move env g row col = Returned (res, g', logs))
  /\ (symbols_truthy g0 ->
      Board.get_winner (Game.board g) = Returned (Game.winner g)).
Proof.
  pose proof (invariant_reachable g0 g Hstart Hreach) as Hinv.
  destruct Hinv as [Hwf Hcount Hrun Hov Hid Hlog Hsx Hso Hcx Hco Hmarks] eqn:E.
  clear E.
  split; [|split; [|split; [|split; [|split]]]].
  - split.
    + intros Ho. destruct (Hov Ho) as [[Hw _] | (Hw & _ & Hf)]; auto.
    + intros H. destruct (Game.game_over g) eqn:Ho; [reflexivity|].
      destruct (Hrun eq_refl) as (Hw & _ & Hf).
      destruct H as [H | [H _]]; congruence.
  - intros [Hw Hd]. destruct (Game.game_over g) eqn:Ho.
    + destruct (Hov eq_refl) as [[_ Hd'] | (Hw' & _)]; congruence.
    + destruct (Hrun eq_refl) as (Hw' & _). congruence.
  - rewrite Hcount. apply count_occupied_bound. assumption.
  - split.
    + intros Hd. destruct (Game.game_over g) eqn:Ho.
      * destruct (Hov eq_refl) as [[_ Hd'] | (Hw & _ & Hf)]; [congruence | auto].
      * destruct (Hrun eq_refl) as (_ & Hd' & _). congruence.
    + intros [Hf Hw]. destruct (Game.game_over g) eqn:Ho.
      * destruct (Hov eq_refl) as [[Hw' _] | (_ & Hd & _)]; congruence.
      * destruct (Hrun eq_refl) as (_ & _ & Hf'). congruence.
  - intros env row col. eapply make_move_returns.
    exact (invariant_reachable g0 g Hstart Hreach).
  - intros Ht. apply Hmarks. assumption.
Qed.

Lemma new_game_constructed : constructed new_game.
Proof. unfold constructed, new_game. do 5 eexists. reflexivity. Qed.

Lemma finished_game_reachable : reachable new_game finished_game.
Proof.
  eapply (play_moves_reachable offline_env new_game
            [(0, 0); (1, 1); (0, 1); (2, 2); (0, 2)] new_game).
  - apply reach_start.
  - vm_compute. reflexivity.
Qed.

Lemma running_game_reachable : reachable new_game running_game.
Proof.
  eapply (play_moves_reachable offline_env new_game [(0, 0); (1, 1)] new_game).
  - apply reach_start.
  - vm_compute. reflexivity.
Qed.

Lemma C3_game_invariants_witness :
  Game.game_over finished_game = true
  /\ Game.winner finished_game = Some "X"
  /\ ~ (Game.winner finished_game <> None /\ Game.is_draw finished_game = true)
  /\ (List.length (Game.move_history finished_game) <= 9)%nat.
Proof.
  destruct (C3_game_invariants new_game finished_game
              new_game_constructed finished_game_reachable)
    as (Hover & Hexcl & Hlen & _).
  split; [apply Hover; left; discriminate|].
  split; [reflexivity|]. split; assumption.
Defined.

(** C5: on a game that is not over, a call whose explicit coordinates are
    out of range or name a marked cell returns [success = False] and leaves
    the board, the current player and the move history as they were; and
    whatever the arguments, a call that reports failure leaves these three
    unchanged. *)
Theorem C5_invalid_move_rejected (env : Env) (g : Game.t) (row col : Z)
    (Hwf : wf_grid (Game.board g))
    (Hrunning : Game.game_over g = false)
    (Hinvalid : ~ in_range row col
                \/ exists s, grid_cell (Game.board g) row col = Returned (Some s)) :
  (exists res g' logs,
      Game.make_move env g (Some row) (Some col) = Returned (res, g', logs)
      /\ r_success res = false
      /\ Game.board g' = Game.board g
      /\ Game.current_player g' = Game.current_player g
      /\ Game.current g' = Game.current g
      /\ Game.move_history g' = Game.move_history g)
  /\ (forall env' row' col' res g' logs,
        Game.make_move env' g row' col' = Returned (res, g', logs) ->
        r_success res = false ->
        Game.board g' = Game.board g
        /\ Game.current_player g' = Game.current_player g
        /\ List.length (Game.move_history g') = List.length (Game.move_history g)).
Proof.
  split.
  - destruct (make_move_outcome env g (Some row) (Some col) Hwf Hrunning)
      as (res & g' & logs & Heq & _ & Hcases).
    exists res, g', logs. split; [assumption|].
    destruct Hcases
      as [(Hs & Hb & Hcur & Hhist & _)
         | (_ & r & c & b' & w & entry & Hex & Hin & Hcell & _)].
    + split; [assumption|]. split; [assumption|]. split; [assumption|].
      split; [|assumption].
      (* with explicit coordinates the players are not touched *)
      revert Heq. unfold Game.make_move. rewrite Hrunning.
      destruct (Board.get_available_moves (Game.board g)) as [[|m0 rest]|e];
        cbn [bind]; intros Heq; try discriminate.
      * inversion Heq; subst. unfold Game.current. cbn.
        destruct (Game.current_player g); reflexivity.
      * cbn [Game.determine_move bind] in Heq.
        destruct (Board.make_move (Game.board g) (Some row) (Some col)
                    (Player.symbol (Game.current g))) as [[ok b]|e];
          cbn [bind] in Heq; [|discriminate].
        destruct ok; cbn [negb] in Heq.
        -- exfalso.
           destruct (Board.get_winner (Game.board _)) as [w|e] in Heq;
             cbn [bind] in Heq; [|discriminate].
           destruct (truthy w) in Heq;
             [|destruct (Board.is_full _) in Heq];
             inversion Heq; subst; discriminate.
        -- inversion Heq; subst. unfold Game.current. cbn.
           destruct (Game.current_player g); reflexivity.
    + exfalso. destruct (Hex row col eq_refl eq_refl) as [-> ->].
      destruct Hinvalid as [Hout | [s Hs]]; [contradiction | congruence].
  - intros env' row' col' res g' logs Heq Hfail.
    destruct (make_move_outcome env' g row' col' Hwf Hrunning)
      as (res' & g'' & logs' & Heq' & _ & Hcases).
    rewrite Heq' in Heq. inversion Heq; subst.
    destruct Hcases as [(_ & Hb & Hcur & Hhist & _) | (Hs & _)];
      [|congruence].
    rewrite Hhist. auto.
Qed.

Lemma C5_invalid_move_rejected_witness :
  wf_grid (Game.board running_game)
  /\ Game.game_over running_game = false
  /\ exists res g' logs,
      Game.make_move offline_env running_game (Some 1) (Some 1)
      = Returned (res, g', logs)
      /\ r_success res = false
      /\ Game.board g' = Game.board running_game
      /\ Game.current_player g' = Game.current_player running_game
      /\ Game.move_history g' = Game.move_history running_game.
Proof.
  assert (Hwf : wf_grid (Game.board running_game)) by apply wf_grid_cells.
  assert (Hrunning : Game.game_over running_game = false) by reflexivity.
  split; [exact Hwf|]. split; [exact Hrunning|].
  destruct (C5_invalid_move_rejected offline_env running_game 1 1 Hwf Hrunning)
    as [(res & g' & logs & Heq & Hs & Hb & Hc & _ & Hh) _].
  - right. exists "O". reflexivity.
  - exists res, g', logs. repeat split; assumption.
Defined.

(** C9: for a game reached from a constructed one, [reset] followed by
    [get_state] gives the state [get_state] gave right after construction:
    empty board, player X to move, no winner, not a draw, not over, empty
    history and all nine cells available; the identifier and both players'
    chooser configuration are those of the constructed game. *)
Theorem C9_reset_round_trip (env : Env) (g0 g : Game.t)
    (Hstart : constructed g0) (Hreach : reachable g0 g) :
  Game.get_state (Game.reset env g) = Game.get_state g0
  /\ Game.get_state g0
     = Returned (mkGameState Board.init
                   (Some (Player.symbol (Game.player_x g0)))
                   None false false [] all_cells)
  /\ Game.game_id (Game.reset env g) = Game.game_id g0
  /\ chooser_config (Game.player_x (Game.reset env g))
     = chooser_config (Game.player_x g0)
  /\ chooser_config (Game.player_o (Game.reset env g))
     = chooser_config (Game.player_o g0).
Proof.
  pose proof (invariant_reachable g0 g Hstart Hreach) as Hinv.
  destruct Hinv as [_ _ _ _ Hid _ Hsx _ Hcx Hco _].
  assert (Hfresh :
            Game.get_state g0
            = Returned (mkGameState Board.init
                          (Some (Player.symbol (Game.player_x g0)))
                          None false false [] all_cells)).
  { destruct Hstart as (env0 & gid & px & po & lg & ->). reflexivity. }
  split; [|split; [exact Hfresh|]].
  - rewrite Hfresh. unfold Game.get_state, Game.reset. cbn.
    rewrite Hsx. reflexivity.
  - cbn. auto.
Qed.

Lemma C9_reset_round_trip_witness :
  Game.get_state (Game.reset offline_env finished_game)
  = Returned (mkGameState Board.init (Some "X") None false false [] all_cells)
  /\ Game.get_state (Game.reset offline_env finished_game)
     = Game.get_state new_game.
Proof.
  destruct (C9_reset_round_trip offline_env new_game finished_game
              new_game_constructed finished_game_reachable)
    as (Hsame & Hfresh & _).
  split; [rewrite Hsame; exact Hfresh | exact Hsame].
Defined.

(** * Further properties of the code *)

(** ** utils.py and board.py *)

Lemma cell_eqb_eq (a b : Cell) : cell_eqb a b = true <-> a = b.
Proof.
  destruct a as [x|], b as [y|]; simpl; split; intros H;
    try discriminate; try reflexivity.
  - apply String.eqb_eq in H. congruence.
  - inversion H. apply String.eqb_refl.
Qed.

Lemma check_line_complete (a b c : Cell) :
  complete3 (a, b, c) ->
  check_line (Returned a) (Returned b) (Returned c) = Returned (Some a).
Proof.
  intros [s H]. inversion H; subst. unfold check_line. cbn.
  rewrite String.eqb_refl. reflexivity.
Qed.

Lemma check_line_incomplete (a b c : Cell) :
  ~ complete3 (a, b, c) ->
  check_line (Returned a) (Returned b) (Returned c) = Returned None.
Proof.
  intros Hno. unfold check_line. cbn [bind].
  destruct (cell_eqb a b) eqn:Eab; [|reflexivity]. cbn [bind].
  destruct (cell_eqb b c) eqn:Ebc; [|reflexivity].
  destruct a as [s|]; [|reflexivity].
  exfalso. apply Hno. apply cell_eqb_eq in Eab, Ebc. subst. exists s. reflexivity.
Qed.

Lemma complete3_dec (t : Cell * Cell * Cell) : {complete3 t} + {~ complete3 t}.
Proof.
  destruct t as [[a b] c].
  destruct a as [s|]; [|right; intros [s H]; discriminate].
  destruct (cell_eqb (Some s) b) eqn:Eab.
  - destruct (cell_eqb b c) eqn:Ebc.
    + left. apply cell_eqb_eq in Eab, Ebc. subst. exists s. reflexivity.
    + right. intros [s' H]. inversion H; subst.
      rewrite (proj2 (cell_eqb_eq _ _) eq_refl) in Ebc. discriminate.
  - right. intros [s' H]. inversion H; subst.
    rewrite (proj2 (cell_eqb_eq _ _) eq_refl) in Eab. discriminate.
Qed.

(** [first_complete] returns the mark of the first complete triple, and
    [None] when there is none. *)
Lemma first_complete_spec (lines : list (Cell * Cell * Cell)) :
  exists w,
    first_complete lines = Returned w
    /\ ((w = None /\ forall t, In t lines -> ~ complete3 t)
        \/ exists s i,
            w = Some s
            /\ nth_error lines i = Some (Some s, Some s, Some s)
            /\ forall j t, (j < i)%nat -> nth_error lines j = Some t ->
                 ~ complete3 t).
Proof.
  induction lines as [|[[a b] c] rest IH].
  - exists None. split; [reflexivity|]. left. split; [reflexivity|].
    intros t [].
  - cbn [first_complete].
    destruct (complete3_dec (a, b, c)) as [Hc | Hn].
    + rewrite (check_line_complete _ _ _ Hc). cbn [bind].
      destruct Hc as [s Hs]. inversion Hs; subst.
      exists (Some s). split; [reflexivity|]. right.
      exists s, 0%nat. split; [reflexivity|]. split; [reflexivity|].
      intros j t Hj. lia.
    + rewrite (check_line_incomplete _ _ _ Hn). cbn [bind].
      destruct IH as (w & Hw & [[-> Hall] | (s & i & -> & Hi & Hbefore)]).
      * exists None. split; [assumption|]. left. split; [reflexivity|].
        intros t [<- | Hin]; auto.
      * exists (Some s). split; [assumption|]. right.
        exists s, (S i). split; [reflexivity|]. split; [assumption|].
        intros j t Hj Hnth. destruct j as [|j]; cbn in Hnth.
        -- inversion Hnth; subst. assumption.
        -- apply (Hbefore j t); [lia | assumption].
Qed.

(** The cells of the eight lines of a board given by its nine cells. *)
Lemma line_held_cells (c00 c01 c02 c10 c11 c12 c20 c21 c22 : Cell)
    (i : nat) (line : Move * Move * Move) (t : Cell * Cell * Cell) (s : Symbol) :
  nth_error all_lines i = Some line ->
  nth_error
    [(c00, c01, c02); (c10, c11, c12); (c20, c21, c22);
     (c00, c10, c20); (c01, c11, c21); (c02, c12, c22);
     (c00, c11, c22); (c02, c11, c20)] i = Some t ->
  (line_held [[c00; c01; c02]; [c10; c11; c12]; [c20; c21; c22]] s line
   <-> t = (Some s, Some s, Some s)).
Proof.
  intros Hl Ht.
  do 8 (destruct i as [|i];
        [cbn in Hl, Ht; inversion Hl; inversion Ht; subst;
         unfold line_held; eval_index; split;
         [intros (H1 & H2 & H3); inversion H1; inversion H2; inversion H3;
          reflexivity
         |intros H; inversion H; subst; repeat split]|]).
  destruct i; discriminate.
Qed.

Lemma all_lines_length (i : nat) :
  (i < 8)%nat <-> exists line, nth_error all_lines i = Some line.
Proof.
  split.
  - intros Hi. do 8 (destruct i as [|i]; [eexists; reflexivity|]). lia.
  - intros [line H].
    assert (Hlen : (i < List.length all_lines)%nat)
      by (apply nth_error_Some; congruence).
    exact Hlen.
Qed.

(** What [check_winner] finds on a well-formed board. *)
Lemma check_winner_lines (b : Grid) (Hwf : wf_grid b) :
  exists w,
    check_winner b = Returned w
    /\ (w = None <->
        forall s line, In line all_lines -> ~ line_held b s line)
    /\ (forall s, w = Some s ->
        exists i line,
          nth_error all_lines i = Some line
          /\ line_held b s line
          /\ forall j line' s', (j < i)%nat ->
               nth_error all_lines j = Some line' -> ~ line_held b s' line').
Proof.
  explode_grid Hwf. rewrite check_winner_cells.
  set (T := [(c00, c01, c02); (c10, c11, c12); (c20, c21, c22);
             (c00, c10, c20); (c01, c11, c21); (c02, c12, c22);
             (c00, c11, c22); (c02, c11, c20)]).
  assert (HT : forall j line, nth_error all_lines j = Some line ->
                 exists t, nth_error T j = Some t).
  { intros j line Hj.
    assert (Hlt : (j < 8)%nat) by (apply all_lines_length; eauto).
    destruct (nth_error T j) as [t|] eqn:E; [eauto|].
    apply nth_error_None in E. cbn in E. lia. }
  assert (HL : forall j t, nth_error T j = Some t ->
                 exists line, nth_error all_lines j = Some line).
  { intros j t Hj. apply all_lines_length.
    assert (Hlt : (j < List.length T)%nat) by (apply nth_error_Some; congruence).
    exact Hlt. }
  destruct (first_complete_spec T)
    as (w & Hw & [[-> Hall] | (s & i & -> & Hi & Hbefore)]).
  - exists None. split; [assumption|]. split.
    + split; [|reflexivity]. intros _ s line Hin Hheld.
      destruct (In_nth_error _ _ Hin) as [j Hj].
      destruct (HT j line Hj) as [t Ht].
      apply (Hall t); [eapply nth_error_In; eauto|].
      exists s. eapply line_held_cells; eauto.
    + intros s H. discriminate.
  - exists (Some s). split; [assumption|].
    destruct (HL i _ Hi) as [line Hline].
    assert (Hheld : line_held [[c00; c01; c02]; [c10; c11; c12]; [c20; c21; c22]]
                      s line).
    { eapply line_held_cells; eauto. }
    split.
    + split; [discriminate|]. intros Hnone. exfalso.
      apply (Hnone s line); [eapply nth_error_In; eauto | assumption].
    + intros s' Hs'. inversion Hs'; subst s'.
      exists i, line. split; [assumption|]. split; [assumption|].
      intros j line' s' Hj Hline' Hheld'.
      destruct (HT j line' Hline') as [t Ht].
      apply (Hbefore j t Hj Ht). exists s'.
      eapply line_held_cells; eauto.
Qed.

(** X1.  On a three-by-three board [check_winner] returns [None] exactly when
    none of the eight lines holds three equal marks; otherwise it returns the
    mark of the first such line in the order rows, columns, main diagonal,
    anti-diagonal. *)
Theorem check_winner_first_line (b : Grid) (Hwf : wf_grid b) :
  exists w,
    check_winner b = Returned w
    /\ (w = None <->
        forall s line, In line all_lines -> ~ line_held b s line)
    /\ (forall s, w = Some s ->
        exists i line,
          nth_error all_lines i = Some line
          /\ line_held b s line
          /\ forall j line' s', (j < i)%nat ->
               nth_error all_lines j = Some line' -> ~ line_held b s' line').
Proof. exact (check_winner_lines b Hwf). Qed.

Lemma check_winner_first_line_witness :
  wf_grid top_row_grid
  /\ check_winner top_row_grid = Returned (Some "X")
  /\ exists i line,
      nth_error all_lines i = Some line /\ line_held top_row_grid "X" line.
Proof.
  assert (Hwf : wf_grid top_row_grid) by apply wf_grid_cells.
  assert (E : check_winner top_row_grid = Returned (Some "X"))
    by (vm_compute; reflexivity).
  split; [exact Hwf|]. split; [exact E|].
  destruct (check_winner_first_line top_row_grid Hwf) as (w & Hw & _ & Hsome).
  assert (Hx : w = Some "X").
  { rewrite E in Hw. inversion Hw. reflexivity. }
  destruct (Hsome "X" Hx) as (i & line & Hi & Hheld & _).
  exists i, line. split; assumption.
Defined.

Lemma in_all_cells (r c : Z) : In (r, c) all_cells <-> in_range r c.
Proof.
  unfold all_cells, in_range. cbn. split.
  - intros H.
    repeat (destruct H as [H | H]; [inversion H; subst; lia|]). contradiction.
  - intros [Hr Hc]. split_coord r; split_coord c; tauto.
Qed.

Lemma empty_at_true (b : Grid) (r c : Z) :
  empty_at b (r, c) = true <-> grid_cell b r c = Returned None.
Proof.
  unfold empty_at. cbn [fst snd].
  destruct (grid_cell b r c) as [[s|]|e]; split; intros H;
    try discriminate; reflexivity.
Qed.

Lemma available_filter (b : Grid) :
  wf_grid b ->
  get_available_moves b = Returned (filter (empty_at b) all_cells)
  /\ (List.length (filter (empty_at b) all_cells) + count_occupied b = 9)%nat.
Proof.
  intros Hwf. explode_grid Hwf.
  destruct c00, c01, c02, c10, c11, c12, c20, c21, c22;
    split; vm_compute; reflexivity.
Qed.

Lemma all_cells_nodup : NoDup all_cells.
Proof.
  unfold all_cells.
  repeat (constructor; [cbn; intros H;
    repeat (destruct H as [H | H]; [discriminate H|]); contradiction|]).
  constructor.
Qed.

(** X2.  On a three-by-three board [get_available_moves] returns exactly the
    in-range coordinates whose cell is [None], each once, in row-major order;
    their number and the number of marks add up to nine. *)
Theorem get_available_moves_exact (b : Grid) (Hwf : wf_grid b) :
  exists l,
    get_available_moves b = Returned l
    /\ l = filter (empty_at b) all_cells
    /\ (forall r c,
          In (r, c) l <-> in_range r c /\ grid_cell b r c = Returned None)
    /\ NoDup l
    /\ (List.length l + count_occupied b = 9)%nat.
Proof.
  destruct (available_filter b Hwf) as [Heq Hlen].
  exists (filter (empty_at b) all_cells).
  split; [assumption|]. split; [reflexivity|]. split; [|split].
  - intros r c. rewrite filter_In, in_all_cells, empty_at_true. tauto.
  - apply NoDup_filter. apply all_cells_nodup.
  - assumption.
Qed.

Lemma get_available_moves_exact_witness :
  wf_grid example_grid
  /\ get_available_moves example_grid
     = Returned [(0, 1); (0, 2); (1, 0); (1, 2); (2, 0); (2, 1); (2, 2)].
Proof.
  assert (Hwf : wf_grid example_grid) by apply wf_grid_cells.
  split; [exact Hwf|].
  destruct (get_available_moves_exact example_grid Hwf) as (l & Heq & -> & _).
  exact Heq.
Defined.

(** X3.  On a three-by-three board [is_board_full] answers [True] exactly
    when no in-range cell is [None], which is when [get_available_moves]
    returns the empty list and when the board carries nine marks. *)
Theorem is_board_full_exact (b : Grid) (Hwf : wf_grid b) :
  (is_board_full b = true <->
   forall r c, in_range r c -> grid_cell b r c <> Returned None)
  /\ (is_board_full b = true <-> get_available_moves b = Returned [])
  /\ (is_board_full b = true <-> count_occupied b = 9%nat).
Proof.
  destruct (available_total b Hwf) as (l & Hl & Hempty).
  destruct (available_filter b Hwf) as [Hf Hlen].
  assert (Hlf : l = filter (empty_at b) all_cells) by congruence.
  clear Hf.
  assert (Hfull_avail : is_board_full b = true <-> get_available_moves b = Returned []).
  { rewrite Hl. split.
    - intros H. apply Hempty in H. rewrite H. reflexivity.
    - intros H. apply Hempty. inversion H. reflexivity. }
  split; [|split; [exact Hfull_avail|]].
  - rewrite <- Hempty. split.
    + intros -> r c Hin Hcell.
      assert (Hmem : In (r, c) (filter (empty_at b) all_cells)).
      { rewrite filter_In, in_all_cells, empty_at_true. tauto. }
      rewrite <- Hlf in Hmem. contradiction.
    + intros Hno. destruct l as [|[r c] rest]; [reflexivity|]. exfalso.
      assert (Hmem : In (r, c) (filter (empty_at b) all_cells)).
      { rewrite <- Hlf. left. reflexivity. }
      rewrite filter_In, in_all_cells, empty_at_true in Hmem.
      destruct Hmem as [Hin Hcell]. exact (Hno r c Hin Hcell).
  - rewrite <- Hempty. rewrite <- Hlf in Hlen. split.
    + intros ->. cbn in Hlen. lia.
    + intros H9. destruct l; [reflexivity|]. cbn in Hlen. lia.
Qed.

Lemma is_board_full_exact_witness :
  wf_grid example_grid
  /\ is_board_full example_grid = false
  /\ count_occupied example_grid <> 9%nat.
Proof.
  assert (Hwf : wf_grid example_grid) by apply wf_grid_cells.
  split; [exact Hwf|].
  destruct (is_board_full_exact example_grid Hwf) as (_ & _ & Hcount).
  assert (Hne : count_occupied example_grid <> 9%nat) by (vm_compute; discriminate).
  split; [|exact Hne].
  destruct (is_board_full example_grid) eqn:E; [|reflexivity].
  exfalso. apply Hne. apply Hcount. reflexivity.
Defined.

(** X4.  [Board.make_move] never erases or replaces a mark: on a
    three-by-three board every cell that held a mark before the call holds
    the same mark after it, and the number of marks grows by one exactly
    when the call returns [True]. *)
Theorem board_make_move_monotone (b : Grid) (row col : Z) (sym : Symbol)
    (Hwf : wf_grid b) :
  exists ok b1,
    Board.make_move b (Some row) (Some col) sym = Returned (ok, b1)
    /\ wf_grid b1
    /\ (forall r c s, in_range r c ->
          grid_cell b r c = Returned (Some s) ->
          grid_cell b1 r c = Returned (Some s))
    /\ count_occupied b1
       = (if ok then S (count_occupied b) else count_occupied b).
Proof.
  destruct (in_range_dec row col) as [Hin | Hout].
  - destruct (grid_cell_total b row col Hwf Hin) as [[s|] Hcell].
    + exists false, b. split; [eapply make_move_occupied; eauto|]. auto.
    + destruct (make_move_empty b row col sym Hwf Hin Hcell)
        as (b' & Hmv & Hwf' & Hset & Hframe & Hcount & _).
      exists true, b'. split; [assumption|]. split; [assumption|].
      split; [|assumption].
      intros r c s Hrc Hold.
      rewrite Hframe; [assumption | assumption |].
      intros Heq. inversion Heq; subst. congruence.
  - exists false, b. split; [apply make_move_out_of_range; assumption|]. auto.
Qed.

Lemma board_make_move_monotone_witness :
  wf_grid example_grid
  /\ exists ok b1,
      Board.make_move example_grid (Some 2) (Some 2) "X" = Returned (ok, b1)
      /\ grid_cell b1 0 0 = Returned (Some "X")
      /\ grid_cell b1 1 1 = Returned (Some "O").
Proof.
  assert (Hwf : wf_grid example_grid) by apply wf_grid_cells.
  split; [exact Hwf|].
  destruct (board_make_move_monotone example_grid 2 2 "X" Hwf)
    as (ok & b1 & Hmv & _ & Hkeep & _).
  exists ok, b1. split; [exact Hmv|]. split.
  - apply Hkeep; [unfold in_range; lia | reflexivity].
  - apply Hkeep; [unfold in_range; lia | reflexivity].
Defined.

(** ** player.py *)

(** X5.  A player that does not use the language model, or has no agent, or
    is given no board, picks [random.choice] of the non-empty list; the
    metadata carries only the player type (["llm"] when [use_llm] is set,
    even without an agent) and no error; the player records the move; and
    nothing but the random draw of the outside world matters. *)
Theorem choose_move_random_path (env : Env) (self : Player.t)
    (available_moves : list Move) (board_state : option Grid)
    (Hne : available_moves <> [])
    (Hrandom : Player.use_llm self = false \/ Player.agent self = None
               \/ board_state = None) :
  exists m,
    random_choice env available_moves = Returned m
    /\ In m available_moves
    /\ Player.choose_move env self available_moves board_state
       = Returned
           (Some m,
            Some (mkMetadata (Player.get_player_type self) no_details),
            Player.record_move self m
              (mkMetadata (Player.get_player_type self) no_details))
    /\ Player.move_history
         (Player.record_move self m
            (mkMetadata (Player.get_player_type self) no_details))
       = (Player.move_history self ++ [m])%list
    /\ forall env',
         random_draw env' = random_draw env ->
         Player.choose_move env' self available_moves board_state
         = Player.choose_move env self available_moves board_state.
Proof.
  destruct (random_choice_in env available_moves Hne) as (m & Hrand & Hin).
  exists m. split; [assumption|]. split; [assumption|].
  assert (Hsame : forall env',
             random_draw env' = random_draw env ->
             random_choice env' available_moves = random_choice env available_moves).
  { intros env' Hd. unfold random_choice. rewrite Hd. reflexivity. }
  assert (Hform : forall env',
             random_draw env' = random_draw env ->
             Player.choose_move env' self available_moves board_state
             = Returned
                 (Some m,
                  Some (mkMetadata (Player.get_player_type self) no_details),
                  Player.record_move self m
                    (mkMetadata (Player.get_player_type self) no_details))).
  { intros env' Hd. unfold Player.choose_move, Player.get_player_type.
    destruct available_moves as [|m0 rest] eqn:El; [contradiction|].
    rewrite <- El in *.
    destruct (Player.use_llm self) eqn:Hllm;
      [destruct (Player.agent self) as [ag|] eqn:Hag;
       [destruct board_state as [bs|]|]|];
      try (rewrite (Hsame env' Hd), Hrand; reflexivity).
    destruct Hrandom as [H | [H | H]]; discriminate. }
  split; [apply Hform; reflexivity|]. split; [reflexivity|].
  intros env' Hd. rewrite (Hform env' Hd), (Hform env eq_refl). reflexivity.
Qed.

Lemma choose_move_random_path_witness :
  all_cells <> []
  /\ Player.choose_move offline_env (Game.player_x new_game) all_cells
       (Some Board.init)
     = Returned
         (Some (1, 1),
          Some (mkMetadata "random" no_details),
          Player.record_move (Game.player_x new_game) (1, 1)
            (mkMetadata "random" no_details)).
Proof.
  assert (Hne : all_cells <> []) by discriminate.
  split; [exact Hne|].
  destruct (choose_move_random_path offline_env (Game.player_x new_game)
              all_cells (Some Board.init) Hne (or_introl eq_refl))
    as (m & Hrand & _ & Heq & _).
  assert (Hm : m = (1, 1)).
  { assert (E : random_choice offline_env all_cells = Returned (1, 1))
      by reflexivity.
    rewrite E in Hrand. inversion Hrand. reflexivity. }
  subst m. exact Heq.
Defined.

(** X6.  When the agent answers and the parsed move is in the list,
    [choose_move] plays exactly that move and returns the prompt, the raw
    response, the reasoning and the response time with no error, whatever
    the random draw is. *)
Theorem choose_move_llm_success (env : Env) (self : Player.t) (ag : Agent)
    (available_moves : list Move) (bs : Grid) (text : string) (m : Move)
    (why : json)
    (Hllm : Player.use_llm self = true)
    (Hag : Player.agent self = Some ag)
    (Hanswer :
      agent_invoke env ag
        (get_move_prompt bs (Player.symbol self) available_moves)
        SYSTEM_PROMPT (Player.temperature self) 256
      = Returned text)
    (Hparse :
      Player._parse_llm_response env text available_moves = Returned (Some m, why))
    (Hin : In m available_moves) :
  exists self',
    Player.choose_move env self available_moves (Some bs)
    = Returned
        (Some m,
         Some (mkMetadata "llm"
                 (mkLlmMetadata
                    (Some (get_move_prompt bs (Player.symbol self) available_moves))
                    (Some text) why (Some (elapsed_ms env)) None)),
         self')
    /\ Player.move_history self' = (Player.move_history self ++ [m])%list
    /\ Player.last_response self' = Some text
    /\ Player.last_reasoning self' = why.
Proof.
  assert (Hmem : move_in m available_moves = true) by (apply move_in_In; assumption).
  assert (Hchoice :
            Player._choose_move_llm env self ag available_moves bs
            = (Some m,
               mkLlmMetadata
                 (Some (get_move_prompt bs (Player.symbol self) available_moves))
                 (Some text) why (Some (elapsed_ms env)) None)).
  { unfold Player._choose_move_llm. rewrite Hanswer, Hparse, Hmem. reflexivity. }
  unfold Player.choose_move.
  destruct available_moves as [|m0 rest] eqn:El; [contradiction|].
  rewrite <- El in *.
  rewrite Hllm, Hag, Hchoice, Hmem. cbn.
  eexists. split; [reflexivity|]. cbn. repeat split.
Qed.

Lemma choose_move_llm_success_witness :
  exists self',
    Player.choose_move (answering_env fenced_response) llm_player all_cells
      (Some Board.init)
    = Returned
        (Some (1, 2),
         Some (mkMetadata "llm"
                 (mkLlmMetadata
                    (Some (get_move_prompt Board.init "X" all_cells))
                    (Some fenced_response)
                    (JString "No reasoning provided")
                    (Some (elapsed_ms (answering_env fenced_response))) None)),
         self').
Proof.
  destruct (choose_move_llm_success (answering_env fenced_response) llm_player
              sample_agent all_cells Board.init fenced_response (1, 2)
              (JString "No reasoning provided"))
    as (self' & Heq & _).
  - reflexivity.
  - reflexivity.
  - reflexivity.
  - vm_compute. reflexivity.
  - cbn. tauto.
  - exists self'. exact Heq.
Defined.

(** X7.  [_choose_move_llm] always records the prompt it built; it hands
    back a move exactly when it records no error, and such a move is in the
    list; the response is recorded exactly when the agent call returned; when
    the agent call raised, the error is the text of that exception. *)
Theorem choose_move_llm_outcome (env : Env) (self : Player.t) (ag : Agent)
    (available_moves : list Move) (bs : Grid) :
  let user_prompt := get_move_prompt bs (Player.symbol self) available_moves in
  let answer :=
    agent_invoke env ag user_prompt SYSTEM_PROMPT (Player.temperature self) 256 in
  let result := Player._choose_move_llm env self ag available_moves bs in
  prompt (snd result) = Some user_prompt
  /\ (fst result = None <-> error (snd result) <> None)
  /\ (forall m, fst result = Some m -> In m available_moves)
  /\ (forall text, answer = Returned text ->
        response (snd result) = Some text
        /\ response_time_ms (snd result) = Some (elapsed_ms env))
  /\ (forall e, answer = Raised e ->
        fst result = None
        /\ response (snd result) = None
        /\ reasoning (snd result) = JNull
        /\ error (snd result) = Some (exc_str e)).
Proof.
  cbv zeta. unfold Player._choose_move_llm.
  destruct (agent_invoke env ag _ _ _ _) as [text|e].
  - destruct (Player._parse_llm_response env text available_moves)
      as [[[m|] why]|e'].
    + destruct (move_in m available_moves) eqn:Hmem; cbn.
      * split; [reflexivity|]. split; [split; [discriminate | intros H; congruence]|].
        split; [intros m' H; inversion H; subst; apply move_in_In; assumption|].
        split; [intros t H; inversion H; auto | intros e H; discriminate].
      * split; [reflexivity|]. split; [split; [discriminate | reflexivity]|].
        split; [intros m' H; discriminate|].
        split; [intros t H; inversion H; auto | intros e H; discriminate].
    + cbn. split; [reflexivity|]. split; [split; [discriminate | reflexivity]|].
      split; [intros m' H; discriminate|].
      split; [intros t H; inversion H; auto | intros e H; discriminate].
    + cbn. split; [reflexivity|]. split; [split; [discriminate | reflexivity]|].
      split; [intros m' H; discriminate|].
      split; [intros t H; inversion H; auto | intros e H; discriminate].
  - cbn. split; [reflexivity|]. split; [split; [discriminate | reflexivity]|].
    split; [intros m' H; discriminate|].
    split; [intros t H; discriminate|].
    intros e' H. inversion H; subst. auto.
Qed.

(** X8.  [_parse_llm_response] ignores the list of available moves (it does
    not check the move against it); when it returns no move it returns no
    reasoning either; and an exception that leaves it is never a
    [JSONDecodeError], [ValueError] or [KeyError]. *)
Theorem parse_llm_response_shape (env : Env) (response : string)
    (available_moves : list Move) :
  (forall other_moves,
      Player._parse_llm_response env response other_moves
      = Player._parse_llm_response env response available_moves)
  /\ (forall why,
        Player._parse_llm_response env response available_moves
        = Returned (None, why) -> why = JNull)
  /\ (forall e,
        Player._parse_llm_response env response available_moves = Raised e ->
        Player.parse_catches e = false
        /\ exc_class e <> JSONDecodeError /\ exc_class e <> ValueError
        /\ exc_class e <> KeyError).
Proof.
  split; [reflexivity|]. unfold Player._parse_llm_response.
  destruct (Player.parse_try env response) as [[[m why]|]|e].
  - split; [intros w H; discriminate | intros e H; discriminate].
  - split; [intros w H; inversion H; reflexivity | intros e H; discriminate].
  - destruct (Player.parse_catches e) eqn:Hc.
    + split; [intros w H; inversion H; reflexivity | intros e' H; discriminate].
    + split; [intros w H; discriminate|].
      intros e' H. inversion H; subst e'. split; [assumption|].
      unfold Player.parse_catches in Hc.
      destruct (exc_class e); try discriminate; repeat split; discriminate.
Qed.

(** X9.  A player created with [use_llm=True] and no agent, when the agent
    library is missing or the agent constructor raises, ends up without an
    agent.  If the constructor raised, [use_llm] is switched off; if the
    library is missing it stays on, so the player reports the type ["llm"]
    and its model.  Either way its name (when none is given) is
    ["Player <symbol>"] and every [choose_move] is the random choice, with
    no error recorded. *)
Theorem player_init_without_agent (env : Env) (sym : Symbol)
    (name : option string) (provider model : string) (temperature : spec_float)
    (Hunusable :
      agents_available env = false
      \/ exists e,
           create_agent env ("TicTacToe_" ++ sym) ("Tic-tac-toe player " ++ sym)
             provider model = Raised e) :
  let p := Player.init env sym name None true provider model temperature in
  Player.agent p = None
  /\ Player.use_llm p = negb (agents_available env)
  /\ Player.get_player_type p = (if agents_available env then "random" else "llm")
  /\ Player.get_model_name p = (if agents_available env then None else Some model)
  /\ Player.name p
     = match name with
       | Some n => if String.eqb n "" then "Player " ++ sym else n
       | None => "Player " ++ sym
       end
  /\ forall env' available_moves board_state,
       available_moves <> [] ->
       exists m,
         random_choice env' available_moves = Returned m
         /\ Player.choose_move env' p available_moves board_state
            = Returned
                (Some m,
                 Some (mkMetadata (Player.get_player_type p) no_details),
                 Player.record_move p m
                   (mkMetadata (Player.get_player_type p) no_details)).
Proof.
  cbv zeta.
  assert (Hp : Player.agent
                 (Player.init env sym name None true provider model temperature)
               = None
               /\ Player.use_llm
                    (Player.init env sym name None true provider model temperature)
                  = negb (agents_available env)
               /\ Player.name
                    (Player.init env sym name None true provider model temperature)
                  = match name with
                    | Some n => if String.eqb n "" then "Player " ++ sym else n
                    | None => "Player " ++ sym
                    end
               /\ Player.model
                    (Player.init env sym name None true provider model temperature)
                  = model).
  { unfold Player.init. cbn [andb].
    destruct (agents_available env) eqn:Hav.
    - destruct Hunusable as [H | [e He]]; [discriminate|].
      rewrite He. cbn. repeat split.
    - cbn. repeat split. }
  destruct Hp as (Hagent & Hllm & Hname & Hmodel).
  split; [assumption|]. split; [assumption|].
  split; [unfold Player.get_player_type; rewrite Hllm;
          destruct (agents_available env); reflexivity|].
  split; [unfold Player.get_model_name; rewrite Hllm, Hmodel;
          destruct (agents_available env); reflexivity|].
  split; [assumption|].
  intros env' available_moves board_state Hne.
  destruct (random_choice_in env' available_moves Hne) as (m & Hrand & _).
  exists m. split; [assumption|].
  unfold Player.choose_move, Player.get_player_type.
  destruct available_moves as [|a rest] eqn:El; [contradiction|].
  rewrite <- El in *. rewrite Hagent.
  destruct (Player.use_llm _); rewrite Hrand; reflexivity.
Qed.

Lemma player_init_without_agent_witness :
  agents_available no_library_env = false
  /\ Player.get_player_type
       (Player.init no_library_env "O" None None true "mistral" "mistral-small"
          float_0_7)
     = "llm"
  /\ Player.name
       (Player.init no_library_env "O" None None true "mistral" "mistral-small"
          float_0_7)
     = "Player O"
  /\ exists m self',
      Player.choose_move no_library_env
        (Player.init no_library_env "O" None None true "mistral" "mistral-small"
           float_0_7)
        all_cells (Some Board.init)
      = Returned (Some m, Some (mkMetadata "llm" no_details), self').
Proof.
  assert (Hav : agents_available no_library_env = false) by reflexivity.
  split; [exact Hav|].
  destruct (player_init_without_agent no_library_env "O" None "mistral"
              "mistral-small" float_0_7 (or_introl Hav))
    as (_ & _ & Htype & _ & Hname & Hchoose).
  split; [exact Htype|]. split; [exact Hname|].
  destruct (Hchoose no_library_env all_cells (Some Board.init)) as (m & _ & Heq);
    [discriminate|].
  exists m. eexists. exact Heq.
Defined.

(** ** game.py *)

(** The coordinates a call settles on, and where they come from. *)
Lemma determine_move_detail (env : Env) (g : Game.t) (row col : option Z)
    (available_moves : list Move) :
  available_moves <> [] ->
  exists r c md g1,
    Game.determine_move env g row col available_moves
    = Returned (Some r, Some c, md, g1)
    /\ ((exists r0 c0, row = Some r0 /\ col = Some c0) ->
        row = Some r /\ col = Some c /\ md = None /\ g1 = g)
    /\ (row = None \/ col = None ->
        exists meta p,
          Player.choose_move env (Game.current g) available_moves
            (Some (Board.get_state (Game.board g)))
          = Returned (Some (r, c), Some meta, p)
          /\ md = Some meta /\ g1 = Game.set_current g p
          /\ In (r, c) available_moves).
Proof.
  intros Hne.
  destruct (choose_move_some env (Game.current g) available_moves
              (Some (Board.get_state (Game.board g))) Hne)
    as ([r c] & meta & p & Hchoose & Hin & _).
  unfold Game.determine_move.
  destruct row as [r0|], col as [c0|];
    try (rewrite Hchoose; cbn [bind];
         exists r, c, (Some meta), (Game.set_current g p);
         split; [reflexivity|]; split;
         [intros (? & ? & Ha & Hb); discriminate
         |intros _; exists meta, p; auto]).
  exists r0, c0, None, g. split; [reflexivity|]. split.
  - intros _. auto.
  - intros [H | H]; discriminate.
Qed.

(** Everything one call of [make_move] does on a running game that
    satisfies the invariant. *)
Lemma make_move_detail (env : Env) (g0 g g' : Game.t) (row col : option Z)
    (res : MoveResult) (logs : list LogEvent) :
  invariant g0 g -> Game.game_over g = false ->
  Game.make_move env g row col = Returned (res, g', logs) ->
  exists available_moves r c md g1,
    Board.get_available_moves (Game.board g) = Returned available_moves
    /\ available_moves <> []
    /\ Game.determine_move env g row col available_moves
       = Returned (Some r, Some c, md, g1)
    /\ Game.player_x g' = Game.player_x g1
    /\ Game.player_o g' = Game.player_o g1
    /\ Board.make_move (Game.board g) (Some r) (Some c)
         (Player.symbol (Game.current g))
       = Returned (r_success res, Game.board g')
    /\ r_board res = Game.board g'
    /\ r_game_over res = Game.game_over g'
    /\ r_metadata res = Some md
    /\ (r_success res = true ->
        r_move res = Some (Some r, Some c, Player.symbol (Game.current g))
        /\ Game.move_history g'
           = (Game.move_history g
                ++ [mkHistoryEntry (Player.symbol (Game.current g)) (Some r)
                      (Some c) (Game.md_get reasoning JNull md)])%list)
    /\ (r_success res = false -> r_move res = None)
    /\ (Game.game_over g' = true ->
        r_success res = true
        /\ r_winner res = Some (Game.winner g')
        /\ r_is_draw res = Some (Game.is_draw g')
        /\ r_current_player res = None)
    /\ (Game.game_over g' = false ->
        r_winner res = None /\ r_is_draw res = None
        /\ r_current_player res = Some (Player.symbol (Game.current g')))
    /\ logs
       = ((if Game.enable_logging g
           then [move_record g g' available_moves r c md (r_success res)]
           else [])
            ++ (if Game.game_over g' then Game._log_game_summary env g' else []))%list.
Proof.
  intros Hinv Hrunning Hmove.
  destruct Hinv as [Hwf _ Hrun _ _ _ _ _ _ _ _].
  destruct (Hrun Hrunning) as (Hnowin & Hnodraw & Hnotfull).
  destruct (available_total (Game.board g) Hwf) as (l & Hl & Hempty).
  assert (Hne : l <> []).
  { intros E. apply Hempty in E. unfold Board.is_full in Hnotfull. congruence. }
  destruct (determine_move_detail env g row col l Hne)
    as (r & c & md & g1 & Hdet & Hexpl & Hauto).
  destruct (determine_move_outcome env g row col l Hne)
    as (r' & c' & md' & g1' & Hdet' & Hsetup & Hplay & Hsym & _).
  rewrite Hdet in Hdet'. inversion Hdet'; subst r' c' md' g1'. clear Hdet'.
  destruct Hplay as (Hb & Hcur & Hwin & Hdraw & Hover & Hhist).
  rewrite Hrunning in Hover. rewrite Hnowin in Hwin. rewrite Hnodraw in Hdraw.
  destruct Hsetup as (Sid & Slog & _).
  exists l, r, c, md, g1.
  split; [exact Hl|]. split; [exact Hne|]. split; [exact Hdet|].
  revert Hmove. unfold Game.make_move, Board.get_available_moves.
  rewrite Hrunning, Hl. cbn [bind].
  destruct l as [|m0 rest]; [contradiction|].
  rewrite Hdet. cbn [bind].
  rewrite <- Hb in Hwf.
  unfold move_record. rewrite <- Sid, <- Slog, <- Hhist, <- Hsym, <- Hb.
  destruct (make_move_cases (Game.board g1) r c
              (Player.symbol (Game.current g1)) Hwf)
    as [Hsame | (Hin & Hcell & b' & Hmv & Hwf' & _)].
  - rewrite Hsame. cbn [bind negb]. intros Hmove.
    inversion Hmove; subst res g' logs. clear Hmove. cbn.
    rewrite !get_state_eq, Hover. cbn. rewrite app_nil_r.
    repeat split; try reflexivity; try discriminate.
  - rewrite Hmv. cbn [bind negb].
    destruct (check_winner_total b' Hwf') as (w & Hw & _).
    unfold Board.get_winner. cbn [Game.board Game.set_history Game.set_board].
    rewrite Hw. cbn [bind].
    destruct (truthy w) eqn:Htruthy;
      [|destruct (Board.is_full b') eqn:Hfull];
      intros Hmove; inversion Hmove; subst res g' logs; clear Hmove; cbn;
      rewrite ?get_state_eq, ?Hover, ?Hwin, ?Hdraw; cbn; rewrite ?app_nil_r;
      repeat split; try reflexivity; try discriminate.
    unfold Game.current. destruct (Game.current_player g1); reflexivity.
Qed.

(** *** A call with a coordinate missing *)

(** The chooser's move, once chosen, is the move the call plays: on a
    running game with a 3x3 board, a call that lacks a coordinate returns
    with success, reports the chooser's move and metadata, marks that cell
    and no other for the player to move, appends the history entry of that
    move and keeps the chooser's bookkeeping in the game. *)
Lemma chosen_move_played (env : Env) (g : Game.t) (row col : option Z)
    (available_moves : list Move) (m : Move) (md : option Metadata)
    (p : Player.t) :
  wf_grid (Game.board g) -> Game.game_over g = false ->
  Board.get_available_moves (Game.board g) = Returned available_moves ->
  row = None \/ col = None ->
  Player.choose_move env (Game.current g) available_moves
    (Some (Board.get_state (Game.board g)))
  = Returned (Some m, md, p) ->
  In m available_moves ->
  Player.symbol p = Player.symbol (Game.current g) ->
  exists res g' logs,
    Game.make_move env g row col = Returned (res, g', logs)
    /\ r_success res = true
    /\ r_move res
       = Some (Some (fst m), Some (snd m), Player.symbol (Game.current g))
    /\ r_metadata res = Some md
    /\ r_board res = Game.board g'
    /\ grid_cell (Game.board g') (fst m) (snd m)
       = Returned (Some (Player.symbol (Game.current g)))
    /\ (forall r c, in_range r c -> (r, c) <> m ->
          grid_cell (Game.board g') r c = grid_cell (Game.board g) r c)
    /\ Game.move_history g'
       = (Game.move_history g
            ++ [mkHistoryEntry (Player.symbol (Game.current g))
                  (Some (fst m)) (Some (snd m))
                  (Game.md_get reasoning JNull md)])%list
    /\ side_player g' (Game.current_player g) = p.
Proof.
  intros Hwf Hrunning Havail Hauto Hchoose Hin Hsym.
  destruct m as [r c]. cbn [fst snd].
  assert (Hcell : in_range r c /\ grid_cell (Game.board g) r c = Returned None).
  { destruct (available_filter (Game.board g) Hwf) as [Hfilter _].
    unfold Board.get_available_moves in Havail.
    assert (Hl : available_moves = filter (empty_at (Game.board g)) all_cells)
      by congruence.
    rewrite Hl, filter_In, in_all_cells, empty_at_true in Hin. exact Hin. }
  destruct Hcell as [Hrange Hcell].
  assert (Hdet :
            Game.determine_move env g row col available_moves
            = Returned (Some r, Some c, md, Game.set_current g p)).
  { unfold Game.determine_move.
    destruct row, col; destruct Hauto as [Hn|Hn]; try discriminate;
      rewrite Hchoose; reflexivity. }
  destruct (make_move_empty (Game.board g) r c (Player.symbol (Game.current g))
              Hwf Hrange Hcell) as (b' & Hmv & Hwf' & Hset & Hothers & _).
  destruct (check_winner_total b' Hwf') as (w & Hw & _).
  assert (Hg1 :
            Game.board (Game.set_current g p) = Game.board g
            /\ Game.current (Game.set_current g p) = p
            /\ Game.move_history (Game.set_current g p) = Game.move_history g
            /\ Game.current_player (Game.set_current g p)
               = Game.current_player g
            /\ side_player (Game.set_current g p) (Game.current_player g) = p).
  { unfold Game.set_current, Game.current, side_player.
    destruct (Game.current_player g); cbn; repeat split. }
  destruct Hg1 as (Hb1 & Hc1 & Hh1 & Hcp1 & Hsp1).
  unfold Game.make_move. rewrite Hrunning, Havail. cbn [bind].
  destruct available_moves as [|m0 rest]; [contradiction|].
  rewrite Hdet. cbn [bind].
  rewrite Hb1, Hc1, Hsym, Hmv. cbn [bind negb].
  unfold Board.get_winner. cbn [Game.board Game.set_history Game.set_board].
  rewrite Hw. cbn [bind].
  destruct (truthy w) eqn:Htruthy; [|destruct (Board.is_full b') eqn:Hfull];
    do 3 eexists; (split; [reflexivity|]); cbn;
    rewrite ?get_state_eq, ?Hh1, ?Hc1, ?Hsym;
    (split; [reflexivity|]); (split; [try reflexivity|]);
    try (split; [reflexivity|]); try (split; [reflexivity|]);
    try (split; [exact Hset|]); try (split; [exact Hothers|]);
    try (split; [reflexivity|]); try exact Hsp1.
  rewrite <- Hsym. revert Hc1. unfold Game.current. rewrite Hcp1.
  destruct (Game.current_player g); cbn [Game.other]; intros Hc1;
    rewrite Hc1; reflexivity.
Qed.

(** C10: on a game that is not over and has an empty cell, a call that
    gives only the row, or only the column, does what the call without
    coordinates does: the coordinate given is dropped and the move is the
    one the current player's chooser picks from the available moves.  On a
    3x3 board the three calls return the same successful result, which
    reports the chooser's move and metadata; the game after the call has the
    current player's mark at that cell, every other cell as before, one more
    history entry, for that move, and the chooser's bookkeeping. *)
Theorem C10_single_coordinate_ignored (env : Env) (g : Game.t) (x : Z)
    (available_moves : list Move)
    (Hrunning : Game.game_over g = false)
    (Havail : Board.get_available_moves (Game.board g) = Returned available_moves)
    (Hne : available_moves <> []) :
  Game.make_move env g (Some x) None = Game.make_move env g None None
  /\ Game.make_move env g None (Some x) = Game.make_move env g None None
  /\ exists m md p,
      Player.choose_move env (Game.current g) available_moves
        (Some (Board.get_state (Game.board g)))
      = Returned (Some m, md, p)
      /\ In m available_moves
      /\ Game.determine_move env g (Some x) None available_moves
         = Returned (Some (fst m), Some (snd m), md, Game.set_current g p)
      /\ Game.determine_move env g None (Some x) available_moves
         = Returned (Some (fst m), Some (snd m), md, Game.set_current g p)
      /\ Game.determine_move env g None None available_moves
         = Returned (Some (fst m), Some (snd m), md, Game.set_current g p)
      /\ (wf_grid (Game.board g) ->
          exists res g' logs,
            Game.make_move env g (Some x) None = Returned (res, g', logs)
            /\ Game.make_move env g None (Some x) = Returned (res, g', logs)
            /\ Game.make_move env g None None = Returned (res, g', logs)
            /\ r_success res = true
            /\ r_move res
               = Some (Some (fst m), Some (snd m),
                       Player.symbol (Game.current g))
            /\ r_metadata res = Some md
            /\ r_board res = Game.board g'
            /\ grid_cell (Game.board g') (fst m) (snd m)
               = Returned (Some (Player.symbol (Game.current g)))
            /\ (forall r c, in_range r c -> (r, c) <> m ->
                  grid_cell (Game.board g') r c
                  = grid_cell (Game.board g) r c)
            /\ Game.move_history g'
               = (Game.move_history g
                    ++ [mkHistoryEntry (Player.symbol (Game.current g))
                          (Some (fst m)) (Some (snd m))
                          (Game.md_get reasoning JNull md)])%list
            /\ side_player g' (Game.current_player g) = p).
Proof.
  destruct (choose_move_some env (Game.current g) available_moves
              (Some (Board.get_state (Game.board g))) Hne)
    as (m & md & p & Hchoose & Hin & Hsym & _).
  assert (Hdet : forall row col,
             row = None \/ col = None ->
             Game.determine_move env g row col available_moves
             = Returned (Some (fst m), Some (snd m), Some md, Game.set_current g p)).
  { intros row col Hnone. unfold Game.determine_move.
    destruct m as [r c].
    destruct row, col; destruct Hnone as [Hn|Hn]; try discriminate;
      rewrite Hchoose; reflexivity. }
  assert (Hmk : forall row col,
             row = None \/ col = None ->
             Game.make_move env g row col = Game.make_move env g None None).
  { intros row col Hnone. unfold Game.make_move.
    rewrite Hrunning, Havail. cbn [bind].
    destruct available_moves as [|m0 rest]; [contradiction|].
    rewrite (Hdet row col Hnone), (Hdet None None (or_introl eq_refl)).
    reflexivity. }
  split; [apply Hmk; right; reflexivity|].
  split; [apply Hmk; left; reflexivity|].
  exists m, (Some md), p. split; [assumption|]. split; [assumption|].
  split; [apply Hdet; right; reflexivity|].
  split; [apply Hdet; left; reflexivity|].
  split; [apply Hdet; left; reflexivity|].
  intros Hwf.
  destruct (chosen_move_played env g None None available_moves m (Some md) p
              Hwf Hrunning Havail (or_introl eq_refl) Hchoose Hin Hsym)
    as (res & g' & logs & Hmove & Hrest).
  exists res, g', logs.
  split; [rewrite (Hmk (Some x) None (or_intror eq_refl)); exact Hmove|].
  split; [rewrite (Hmk None (Some x) (or_introl eq_refl)); exact Hmove|].
  split; [exact Hmove | exact Hrest].
Qed.

Lemma C10_single_coordinate_ignored_witness :
  Game.game_over running_game = false
  /\ Game.make_move offline_env running_game (Some 7) None
     = Game.make_move offline_env running_game None None
  /\ Game.make_move offline_env running_game None (Some 0)
     = Game.make_move offline_env running_game None None
  /\ exists res g' logs,
      Game.make_move offline_env running_game (Some 7) None
      = Returned (res, g', logs)
      /\ r_success res = true.
Proof.
  assert (Hrunning : Game.game_over running_game = false) by reflexivity.
  assert (Havail : Board.get_available_moves (Game.board running_game)
                   = Returned [(0, 1); (0, 2); (1, 0); (1, 2); (2, 0); (2, 1); (2, 2)])
    by reflexivity.
  assert (Hne : [(0, 1); (0, 2); (1, 0); (1, 2); (2, 0); (2, 1); (2, 2)]
                <> ([] : list Move)) by discriminate.
  assert (Hwf : wf_grid (Game.board running_game)).
  { exact (inv_wf _ _ (invariant_reachable new_game running_game
                         new_game_constructed running_game_reachable)). }
  destruct (C10_single_coordinate_ignored offline_env running_game 7 _
              Hrunning Havail Hne)
    as (H1 & _ & m & md & p & _ & _ & _ & _ & _ & Hplay).
  destruct (C10_single_coordinate_ignored offline_env running_game 0 _
              Hrunning Havail Hne) as (_ & H2 & _).
  destruct (Hplay Hwf) as (res & g' & logs & Hmove & _ & _ & Hs & _).
  split; [exact Hrunning|]. split; [exact H1|]. split; [exact H2|].
  exists res, g', logs. split; assumption.
Defined.

(** *** History, turn and winner *)

Lemma all_lines_in_range (p q t : Move) :
  In (p, q, t) all_lines ->
  in_range (fst p) (snd p) /\ in_range (fst q) (snd q)
  /\ in_range (fst t) (snd t).
Proof.
  unfold all_lines. cbn. intros H.
  repeat (destruct H as [H | H];
          [inversion H; subst; unfold in_range; cbn; lia|]).
  contradiction.
Qed.

Lemma move_eq_dec (a b : Move) : {a = b} + {a <> b}.
Proof.
  destruct (move_eqb a b) eqn:E.
  - left. apply move_eqb_eq. assumption.
  - right. intros H. apply move_eqb_eq in H. congruence.
Qed.

(** After one mark is placed, a complete line is either the placed mark's
    or was complete before. *)
Lemma line_held_after_placement (b b' : Grid) (r c : Z) (sym s : Symbol)
    (line : Move * Move * Move) :
  In line all_lines ->
  (forall r1 c1, in_range r1 c1 -> (r1, c1) <> (r, c) ->
     grid_cell b' r1 c1 = grid_cell b r1 c1) ->
  grid_cell b' r c = Returned (Some sym) ->
  line_held b' s line ->
  s = sym \/ line_held b s line.
Proof.
  intros Hin Hframe Hset Hheld. destruct line as [[p q] t].
  destruct (all_lines_in_range p q t Hin) as (Hp & Hq & Ht).
  destruct Hheld as (H1 & H2 & H3).
  destruct p as [pr pc], q as [qr qc], t as [tr tc]. cbn [fst snd] in *.
  destruct (move_eq_dec (pr, pc) (r, c)) as [E | Np];
    [inversion E; subst; left; congruence|].
  destruct (move_eq_dec (qr, qc) (r, c)) as [E | Nq];
    [inversion E; subst; left; congruence|].
  destruct (move_eq_dec (tr, tc) (r, c)) as [E | Nt];
    [inversion E; subst; left; congruence|].
  right. unfold line_held. cbn [fst snd].
  rewrite <- (Hframe pr pc Hp Np), <- (Hframe qr qc Hq Nq),
    <- (Hframe tr tc Ht Nt).
  auto.
Qed.

Lemma nodup_snoc {A : Type} (l : list A) (x : A) :
  NoDup l -> ~ In x l -> NoDup (l ++ [x]).
Proof.
  induction l as [|a l IH]; intros Hnd Hx; cbn.
  - constructor; [intros [] | constructor].
  - inversion Hnd; subst. constructor.
    + rewrite in_app_iff. cbn. intros [H | [H | []]]; [contradiction|].
      apply Hx. left. congruence.
    + apply IH; [assumption|]. intros H. apply Hx. right. assumption.
Qed.

Lemma side_of_index_succ (n : nat) :
  side_of_index (S n) = Game.other (side_of_index n).
Proof.
  unfold side_of_index. rewrite Nat.even_succ, <- Nat.negb_even.
  destruct (Nat.even n); reflexivity.
Qed.

Lemma no_line_on_empty_board (s : Symbol) (line : Move * Move * Move) :
  In line all_lines -> ~ line_held Board.init s line.
Proof.
  unfold all_lines. cbn [In]. intros H Hheld.
  repeat (destruct H as [H | H];
          [subst line; destruct Hheld as (H1 & _); vm_compute in H1;
           discriminate H1|]).
  contradiction.
Qed.

Lemma play_invariant_fresh (g0 g : Game.t) :
  Game.board g = Board.init -> Game.move_history g = [] ->
  Game.game_over g = false -> Game.current_player g = SideX ->
  Game.winner g = None ->
  play_invariant g0 g.
Proof.
  intros Hb Hh Ho Hc Hw. constructor; rewrite ?Hb, ?Hh.
  - intros h [].
  - intros r c s [Hr Hcc] Hcell. exfalso.
    split_coord r; split_coord c; vm_compute in Hcell; discriminate.
  - constructor.
  - intros i h H. destruct i; discriminate.
  - intros _. rewrite Hc. reflexivity.
  - intros H. congruence.
  - intros _ s line Hin Hheld. exfalso.
    eapply no_line_on_empty_board; eauto.
  - intros _ s Hs. congruence.
Qed.

Lemma play_invariant_init (g0 : Game.t) : constructed g0 -> play_invariant g0 g0.
Proof.
  intros (env & gid & px & po & lg & ->).
  apply play_invariant_fresh; reflexivity.
Qed.

Lemma play_invariant_reset (env : Env) (g0 g : Game.t) :
  play_invariant g0 (Game.reset env g).
Proof. apply play_invariant_fresh; reflexivity. Qed.

Lemma current_is_side_player (g : Game.t) :
  Game.current g = side_player g (Game.current_player g).
Proof. unfold Game.current, side_player. destruct (Game.current_player g); reflexivity. Qed.

Lemma side_player_symbol (g0 g : Game.t) (s : Side) :
  invariant g0 g ->
  Player.symbol (side_player g s) = Player.symbol (side_player g0 s).
Proof.
  intros Hinv. destruct s; cbn; [apply (inv_symbol_x _ _ Hinv) | apply (inv_symbol_o _ _ Hinv)].
Qed.

(** A placement that returned [True] hit an empty cell in range and changed
    nothing else. *)
Lemma make_move_true_inv (b b' : Grid) (r c : Z) (sym : Symbol) :
  wf_grid b ->
  Board.make_move b (Some r) (Some c) sym = Returned (true, b') ->
  in_range r c
  /\ grid_cell b r c = Returned None
  /\ wf_grid b'
  /\ grid_cell b' r c = Returned (Some sym)
  /\ (forall r1 c1, in_range r1 c1 -> (r1, c1) <> (r, c) ->
        grid_cell b' r1 c1 = grid_cell b r1 c1).
Proof.
  intros Hwf Hmv.
  destruct (make_move_cases b r c sym Hwf)
    as [Hsame | (Hin & Hcell & _)]; [congruence|].
  destruct (make_move_empty b r c sym Hwf Hin Hcell)
    as (b'' & Hmv' & Hwf' & Hset & Hframe & _).
  rewrite Hmv' in Hmv. inversion Hmv; subst b''. auto.
Qed.

Lemma play_invariant_move (env : Env) (g0 g g' : Game.t) (row col : option Z)
    (res : MoveResult) (logs : list LogEvent) :
  invariant g0 g -> play_invariant g0 g ->
  Game.make_move env g row col = Returned (res, g', logs) ->
  play_invariant g0 g'.
Proof.
  intros Hinv Hplay Hmove.
  destruct (Game.game_over g) eqn:Hover.
  { destruct (make_move_over env g row col Hover) as [res' Heq].
    rewrite Heq in Hmove. inversion Hmove; subst. assumption. }
  destruct (make_move_detail env g0 g g' row col res logs Hinv Hover Hmove)
    as (avail & r & c & md & g1 & _ & _ & _ & _ & _ & Hbm & _ & _ & _
        & Hsucc & _).
  pose proof (inv_wf _ _ Hinv) as Hwf.
  destruct (inv_running _ _ Hinv Hover) as (Hnowin & Hnodraw & Hnotfull).
  destruct (make_move_outcome env g row col Hwf Hover)
    as (res' & g'' & logs' & Heq & _ & Hcases).
  rewrite Heq in Hmove. inversion Hmove; subst res' g'' logs'. clear Hmove.
  destruct Hplay as [Pent Pmarks Pnd Palt Prun Pover Plines Pwin].
  destruct Hcases
    as [(_ & Hb & Hcur & Hhist & Hwin & Hflags)
       | (Hs & _ & _ & b' & w & _ & _ & _ & _ & _ & _ & _ & Hw & _ & Hb' & _
          & Hflags)].
  - (* failure: nothing that matters changed *)
    constructor; rewrite ?Hb, ?Hhist, ?Hcur, ?Hwin; try assumption.
    + intros _. apply Prun. exact Hover.
    + intros Ho. destruct Hflags as [[Hr _] | [Hfull _]];
        unfold Board.is_full in *; congruence.
  - (* success: one mark, one entry *)
    destruct (Hsucc Hs) as [_ Hhist]. rewrite Hs in Hbm. subst b'.
    destruct (make_move_true_inv _ _ _ _ _ Hwf Hbm)
      as (Hin & Hcell & Hwf' & Hset & Hframe).
    set (sym := Player.symbol (Game.current g)) in *.
    assert (Hsym : sym
                   = Player.symbol
                       (side_player g0
                          (side_of_index (List.length (Game.move_history g))))).
    { unfold sym. rewrite current_is_side_player, (Prun Hover).
      apply side_player_symbol. assumption. }
    assert (Hfresh : ~ In (Some r, Some c) (map entry_coords (Game.move_history g))).
    { intros Hmem. apply in_map_iff in Hmem. destruct Hmem as (h & Hco & Hh).
      destruct (Pent h Hh) as (r0 & c0 & Hr0 & Hc0 & _ & Hcell0).
      unfold entry_coords in Hco. rewrite Hr0, Hc0 in Hco.
      inversion Hco; subst. congruence. }
    assert (Hnew : symbols_truthy g0 ->
                   forall s1 line1, In line1 all_lines ->
                     line_held (Game.board g') s1 line1 -> s1 = sym).
    { intros Ht s1 line1 Hl1 Hheld1.
      destruct (inv_marks _ _ Hinv Ht) as [_ Hboard].
      unfold Board.get_winner in Hboard. rewrite Hnowin in Hboard.
      destruct (check_winner_lines (Game.board g) Hwf) as (w0 & Hw0 & Hnone0 & _).
      rewrite Hboard in Hw0. inversion Hw0; subst w0.
      destruct (line_held_after_placement _ _ _ _ _ _ _ Hl1 Hframe Hset Hheld1)
        as [E | Hold]; [assumption|].
      exfalso. exact (proj1 Hnone0 eq_refl s1 line1 Hl1 Hold). }
    constructor; rewrite ?Hhist.
    + (* entries *)
      intros h Hh. apply in_app_iff in Hh. destruct Hh as [Hh | [<- | []]].
      * destruct (Pent h Hh) as (r0 & c0 & Hr0 & Hc0 & Hin0 & Hcell0).
        exists r0, c0. repeat split; try assumption; try apply Hin0.
        rewrite Hframe; [assumption | assumption |].
        intros E. inversion E; subst. congruence.
      * exists r, c. cbn. repeat split; try assumption; apply Hin.
    + (* marks *)
      intros r1 c1 s Hin1 Hcell1.
      destruct (move_eq_dec (r1, c1) (r, c)) as [E | Ne].
      * inversion E; subst. rewrite Hset in Hcell1. inversion Hcell1; subst.
        eexists. apply in_app_iff. right. left. reflexivity.
      * rewrite (Hframe r1 c1 Hin1 Ne) in Hcell1.
        destruct (Pmarks r1 c1 s Hin1 Hcell1) as [why Hentry].
        exists why. apply in_app_iff. left. assumption.
    + (* no cell twice *)
      rewrite map_app. cbn. apply nodup_snoc; assumption.
    + (* alternation *)
      intros i h Hi.
      destruct (Nat.lt_ge_cases i (List.length (Game.move_history g))) as [Hlt | Hge].
      * rewrite nth_error_app1 in Hi by assumption. apply Palt. assumption.
      * rewrite nth_error_app2 in Hi by assumption.
        destruct (i - List.length (Game.move_history g))%nat as [|k] eqn:Ek;
          cbn in Hi; [|destruct k; discriminate].
        inversion Hi; subst h. cbn.
        replace i with (List.length (Game.move_history g)) by lia.
        exact Hsym.
    + (* turn while running *)
      intros Ho.
      destruct Hflags as [(_ & _ & Ho' & _) | [(_ & _ & _ & Ho' & _)
                         | (_ & _ & _ & _ & _ & Hcur)]]; try congruence.
      rewrite Hcur, length_app, (Prun Hover). cbn.
      rewrite Nat.add_1_r. symmetry. apply side_of_index_succ.
    + (* turn when over *)
      intros Ho. exists (List.length (Game.move_history g)).
      split; [rewrite length_app; cbn; lia|].
      destruct Hflags as [(_ & _ & _ & _ & Hcur) | [(_ & _ & _ & _ & _ & Hcur)
                         | (_ & _ & _ & Ho' & _)]]; try congruence;
        rewrite Hcur; apply Prun; exact Hover.
    + (* lines *)
      intros Ht s line Hl Hheld.
      destruct (check_winner_lines (Game.board g') Hwf') as (w1 & Hw1 & Hnone1 & Hsome1).
      rewrite Hw in Hw1. inversion Hw1; subst w1.
      destruct w as [s2|].
      * destruct (Hsome1 s2 eq_refl) as (i & line2 & Hi & Hheld2 & _).
        assert (Hs2 : s2 = sym)
          by (eapply (Hnew Ht); [eapply nth_error_In|]; eauto).
        assert (Hss : s = sym) by (eapply (Hnew Ht); eauto).
        subst s2 s.
        assert (Htruthy : truthy (Some sym) = true).
        { apply truthy_some. rewrite Hsym. destruct Ht as [Hx Ho].
          destruct (side_of_index _); assumption. }
        destruct Hflags as [(_ & Hwn & _) | [(Hf & _) | (Hf & _)]];
          congruence.
      * exfalso. exact (proj1 Hnone1 eq_refl s line Hl Hheld).
    + (* the winner moved last *)
      intros Ht s Hwinner.
      destruct Hflags as [(_ & Hwn & _ & _ & Hcur) | [(_ & _ & Hwn & _)
                         | (_ & _ & Hwn & _)]]; try congruence.
      rewrite Hcur, (Prun Hover), <- Hsym.
      destruct (check_winner_lines (Game.board g') Hwf') as (w1 & Hw1 & _ & Hsome1).
      rewrite Hw in Hw1. inversion Hw1; subst w1.
      rewrite Hwn in Hwinner. 
      destruct (Hsome1 s Hwinner) as (i & line2 & Hi & Hheld2 & _).
      eapply (Hnew Ht); [eapply nth_error_In|]; eauto.
Qed.

Lemma invariants_reachable (g0 g : Game.t) :
  constructed g0 -> reachable g0 g ->
  invariant g0 g /\ play_invariant g0 g.
Proof.
  intros Hc Hreach. induction Hreach.
  - split; [apply invariant_init | apply play_invariant_init]; assumption.
  - destruct IHHreach as [Hinv Hplay]. split.
    + eapply invariant_move; eauto.
    + eapply play_invariant_move; eauto.
  - destruct IHHreach as [Hinv Hplay]. split.
    + apply invariant_reset. assumption.
    + apply play_invariant_reset.
Qed.

(** X10.  In every reachable game the move history and the board agree: a
    cell holds a mark exactly when the history has an entry of that player at
    that cell; every entry lies in range; no cell appears twice; and the
    history is as long as the board has marks. *)
Theorem history_matches_board (g0 g : Game.t)
    (Hstart : constructed g0) (Hreach : reachable g0 g) :
  (forall r c s, in_range r c ->
     (grid_cell (Game.board g) r c = Returned (Some s)
      <-> exists why,
            In (mkHistoryEntry s (Some r) (Some c) why) (Game.move_history g)))
  /\ (forall h, In h (Game.move_history g) ->
        exists r c, h_row h = Some r /\ h_col h = Some c /\ in_range r c)
  /\ NoDup (map entry_coords (Game.move_history g))
  /\ List.length (Game.move_history g) = count_occupied (Game.board g).
Proof.
  destruct (invariants_reachable g0 g Hstart Hreach) as [Hinv Hplay].
  split; [|split; [|split]].
  - intros r c s Hin. split.
    + apply (play_marks _ _ Hplay); assumption.
    + intros [why Hentry].
      destruct (play_entries _ _ Hplay _ Hentry)
        as (r0 & c0 & Hr0 & Hc0 & _ & Hcell).
      cbn in Hr0, Hc0, Hcell. inversion Hr0; inversion Hc0; subst. assumption.
  - intros h Hh.
    destruct (play_entries _ _ Hplay _ Hh) as (r & c & Hr & Hc & Hin & _).
    exists r, c. auto.
  - apply (play_nodup _ _ Hplay).
  - apply (inv_count _ _ Hinv).
Qed.

Lemma history_matches_board_witness :
  grid_cell (Game.board running_game) 1 1 = Returned (Some "O")
  /\ exists why,
      In (mkHistoryEntry "O" (Some 1) (Some 1) why)
        (Game.move_history running_game).
Proof.
  destruct (history_matches_board new_game running_game new_game_constructed
              running_game_reachable) as (Hagree & _).
  assert (Hcell : grid_cell (Game.board running_game) 1 1 = Returned (Some "O"))
    by (vm_compute; reflexivity).
  split; [exact Hcell|].
  apply (Hagree 1 1 "O"); [unfold in_range; lia | exact Hcell].
Defined.

(** X11.  Turns alternate, X first: in every reachable game the [i]-th
    history entry was made by player X when [i] is even and by player O when
    it is odd; while the game runs the player to move is X after an even
    number of moves and O after an odd one; and once the game is over the
    current player is still the one who made the last move. *)
Theorem turns_alternate (g0 g : Game.t)
    (Hstart : constructed g0) (Hreach : reachable g0 g) :
  (forall i h, nth_error (Game.move_history g) i = Some h ->
     h_player h
     = if Nat.even i then Player.symbol (Game.player_x g)
       else Player.symbol (Game.player_o g))
  /\ (Game.game_over g = false ->
      Game.current_player g
      = if Nat.even (List.length (Game.move_history g)) then SideX else SideO)
  /\ (Game.game_over g = true ->
      exists last,
        nth_error (Game.move_history g)
          (List.length (Game.move_history g) - 1) = Some last
        /\ h_player last = Player.symbol (Game.current g)).
Proof.
  destruct (invariants_reachable g0 g Hstart Hreach) as [Hinv Hplay].
  split; [|split].
  - intros i h Hi. rewrite (play_alternate _ _ Hplay i h Hi).
    rewrite <- (side_player_symbol g0 g _ Hinv).
    unfold side_of_index. destruct (Nat.even i); reflexivity.
  - intros Ho. apply (play_turn_running _ _ Hplay Ho).
  - intros Ho.
    destruct (play_turn_over _ _ Hplay Ho) as (n & Hlen & Hcur).
    destruct (nth_error (Game.move_history g) n) as [last|] eqn:Hn.
    + exists last. rewrite Hlen. replace (S n - 1)%nat with n by lia.
      split; [assumption|].
      rewrite (play_alternate _ _ Hplay n last Hn), <- Hcur.
      rewrite current_is_side_player. symmetry.
      apply side_player_symbol. assumption.
    + apply nth_error_None in Hn. lia.
Qed.

Lemma turns_alternate_witness :
  Game.current_player running_game = SideX
  /\ exists last,
      nth_error (Game.move_history finished_game) 4 = Some last
      /\ h_player last = "X".
Proof.
  destruct (turns_alternate new_game running_game new_game_constructed
              running_game_reachable) as (_ & Hrun & _).
  destruct (turns_alternate new_game finished_game new_game_constructed
              finished_game_reachable) as (_ & _ & Hover).
  split.
  - apply Hrun. reflexivity.
  - destruct (Hover eq_refl) as (last & Hlast & Hplayer).
    exists last. split; [exact Hlast | exact Hplayer].
Defined.

(** X12.  When both players' symbols are non-empty, in every reachable game
    a winner is recorded exactly when one of the eight lines holds three of
    that player's marks; the winner is the symbol of the current player (the
    turn is not switched after the winning move), who made the last move. *)
Theorem winner_sound (g0 g : Game.t)
    (Hstart : constructed g0) (Hreach : reachable g0 g)
    (Hsymbols : symbols_truthy g0) :
  (forall s,
      Game.winner g = Some s
      <-> exists line, In line all_lines /\ line_held (Game.board g) s line)
  /\ (forall s, Game.winner g = Some s ->
        Game.game_over g = true
        /\ s = Player.symbol (Game.current g)
        /\ exists last,
            nth_error (Game.move_history g)
              (List.length (Game.move_history g) - 1) = Some last
            /\ h_player last = s).
Proof.
  destruct (invariants_reachable g0 g Hstart Hreach) as [Hinv Hplay].
  split.
  - intros s. split.
    + intros Hw.
      destruct (inv_marks _ _ Hinv Hsymbols) as [_ Hboard].
      destruct (check_winner_lines (Game.board g) (inv_wf _ _ Hinv))
        as (w & Hcw & _ & Hsome).
      unfold Board.get_winner in Hboard. rewrite Hboard in Hcw.
      inversion Hcw; subst w.
      destruct (Hsome s Hw) as (i & line & Hi & Hheld & _).
      exists line. split; [eapply nth_error_In; eauto | assumption].
    + intros (line & Hl & Hheld).
      apply (play_lines _ _ Hplay Hsymbols s line Hl Hheld).
  - intros s Hw.
    assert (Ho : Game.game_over g = true).
    { destruct (Game.game_over g) eqn:E; [reflexivity|].
      destruct (inv_running _ _ Hinv E) as [Hnone _]. congruence. }
    assert (Hs : s = Player.symbol (Game.current g)).
    { rewrite (play_winner _ _ Hplay Hsymbols s Hw), current_is_side_player.
      symmetry. apply side_player_symbol. assumption. }
    split; [assumption|]. split; [assumption|].
    destruct (play_turn_over _ _ Hplay Ho) as (n & Hlen & Hcur).
    destruct (nth_error (Game.move_history g) n) as [last|] eqn:Hn.
    + exists last. rewrite Hlen. replace (S n - 1)%nat with n by lia.
      split; [assumption|].
      rewrite (play_alternate _ _ Hplay n last Hn), <- Hcur.
      rewrite (play_winner _ _ Hplay Hsymbols s Hw). reflexivity.
    + apply nth_error_None in Hn. lia.
Qed.

Lemma new_game_symbols : symbols_truthy new_game.
Proof. split; discriminate. Qed.

Lemma winner_sound_witness :
  symbols_truthy new_game
  /\ exists line,
      In line all_lines /\ line_held (Game.board finished_game) "X" line.
Proof.
  split; [exact new_game_symbols|].
  destruct (winner_sound new_game finished_game new_game_constructed
              finished_game_reachable new_game_symbols) as (Hiff & _).
  apply (Hiff "X"). reflexivity.
Defined.

(** X13.  In every reachable game the available moves and the history
    entries add up to nine, and [get_state] returns: the board, the symbol of
    the player to move and the available moves while the game runs; no
    current player and no available moves once it is over. *)
Theorem state_counts (g0 g : Game.t)
    (Hstart : constructed g0) (Hreach : reachable g0 g) :
  exists l,
    Board.get_available_moves (Game.board g) = Returned l
    /\ (List.length l + List.length (Game.move_history g) = 9)%nat
    /\ Game.get_state g
       = Returned
           (mkGameState (Game.board g)
              (if Game.game_over g then None
               else Some (Player.symbol (Game.current g)))
              (Game.winner g) (Game.is_draw g) (Game.game_over g)
              (Game.move_history g)
              (if Game.game_over g then [] else l)).
Proof.
  destruct (invariants_reachable g0 g Hstart Hreach) as [Hinv _].
  destruct (available_filter (Game.board g) (inv_wf _ _ Hinv)) as [Heq Hlen].
  exists (filter (empty_at (Game.board g)) all_cells).
  split; [exact Heq|]. split; [rewrite (inv_count _ _ Hinv); exact Hlen|].
  unfold Game.get_state, Board.get_available_moves.
  destruct (Game.game_over g); cbn [negb bind];
    rewrite ?Heq; cbn [bind]; rewrite get_state_eq; reflexivity.
Qed.

Lemma state_counts_witness :
  exists l,
    Board.get_available_moves (Game.board running_game) = Returned l
    /\ (List.length l + List.length (Game.move_history running_game) = 9)%nat.
Proof.
  destruct (state_counts new_game running_game new_game_constructed
              running_game_reachable) as (l & Hl & Hlen & _).
  exists l. split; assumption.
Defined.

(** *** Automatic moves and [play_auto] *)

(** A call that leaves the choice to the chooser, on a running game. *)
Lemma auto_move_step (env : Env) (g0 g : Game.t) (row col : option Z) :
  invariant g0 g -> Game.game_over g = false ->
  row = None \/ col = None ->
  exists res g' logs available_moves r c md,
    Game.make_move env g row col = Returned (res, g', logs)
    /\ r_success res = true
    /\ Board.get_available_moves (Game.board g) = Returned available_moves
    /\ In (r, c) available_moves
    /\ r_move res = Some (Some r, Some c, Player.symbol (Game.current g))
    /\ Game.move_history g'
       = (Game.move_history g
            ++ [mkHistoryEntry (Player.symbol (Game.current g)) (Some r) (Some c)
                  (Game.md_get reasoning JNull md)])%list
    /\ grid_cell (Game.board g') r c
       = Returned (Some (Player.symbol (Game.current g))).
Proof.
  intros Hinv Hrunning Hauto.
  destruct (make_move_returns env g0 g row col Hinv) as (res & g' & logs & Hmove).
  destruct (make_move_detail env g0 g g' row col res logs Hinv Hrunning Hmove)
    as (avail & r & c & md & g1 & Havail & Hne & Hdet & _ & _ & Hbm & _ & _ & _
        & Hsucc & _).
  destruct (determine_move_detail env g row col avail Hne)
    as (r' & c' & md' & g1' & Hdet' & _ & Hchooser).
  rewrite Hdet in Hdet'. inversion Hdet'; subst r' c' md' g1'. clear Hdet'.
  destruct (Hchooser Hauto) as (meta & p & _ & _ & _ & Hin).
  pose proof (inv_wf _ _ Hinv) as Hwf.
  destruct (available_filter (Game.board g) Hwf) as [Hfilter _].
  unfold Board.get_available_moves in Havail.
  assert (Hl : avail = filter (empty_at (Game.board g)) all_cells) by congruence.
  assert (Hcell : in_range r c /\ grid_cell (Game.board g) r c = Returned None).
  { rewrite Hl, filter_In, in_all_cells, empty_at_true in Hin. exact Hin. }
  destruct Hcell as [Hrange Hcell].
  destruct (make_move_empty (Game.board g) r c (Player.symbol (Game.current g))
              Hwf Hrange Hcell) as (b' & Hmv & _ & Hset & _).
  rewrite Hmv in Hbm. inversion Hbm as [[Hok Hb']].
  symmetry in Hok. destruct (Hsucc Hok) as [Hrm Hhist].
  exists res, g', logs, avail, r, c, md.
  repeat split; try assumption. rewrite <- Hb'. assumption.
Qed.

(** X14.  On a reachable game that is not over, a call of [make_move]
    without both coordinates always succeeds: the chooser's move is one of
    the available cells, the current player's mark is placed there and one
    history entry is appended. *)
Theorem automatic_move_succeeds (env : Env) (g0 g : Game.t) (row col : option Z)
    (Hstart : constructed g0) (Hreach : reachable g0 g)
    (Hrunning : Game.game_over g = false)
    (Hauto : row = None \/ col = None) :
  exists res g' logs available_moves r c md,
    Game.make_move env g row col = Returned (res, g', logs)
    /\ r_success res = true
    /\ Board.get_available_moves (Game.board g) = Returned available_moves
    /\ In (r, c) available_moves
    /\ r_move res = Some (Some r, Some c, Player.symbol (Game.current g))
    /\ Game.move_history g'
       = (Game.move_history g
            ++ [mkHistoryEntry (Player.symbol (Game.current g)) (Some r) (Some c)
                  (Game.md_get reasoning JNull md)])%list
    /\ grid_cell (Game.board g') r c
       = Returned (Some (Player.symbol (Game.current g))).
Proof.
  destruct (invariants_reachable g0 g Hstart Hreach) as [Hinv _].
  exact (auto_move_step env g0 g row col Hinv Hrunning Hauto).
Qed.

Lemma automatic_move_succeeds_witness :
  Game.game_over running_game = false
  /\ exists res g' logs,
      Game.make_move offline_env running_game None None
      = Returned (res, g', logs)
      /\ r_success res = true.
Proof.
  assert (Hrunning : Game.game_over running_game = false) by reflexivity.
  split; [exact Hrunning|].
  destruct (automatic_move_succeeds offline_env new_game running_game None None
              new_game_constructed running_game_reachable Hrunning
              (or_introl eq_refl))
    as (res & g' & logs & _ & _ & _ & _ & Hmove & Hs & _).
  exists res, g', logs. split; assumption.
Defined.

Lemma running_history_short (g0 g : Game.t) :
  invariant g0 g -> Game.game_over g = false ->
  (List.length (Game.move_history g) < 9)%nat.
Proof.
  intros Hinv Hrunning.
  pose proof (inv_wf _ _ Hinv) as Hwf.
  destruct (inv_running _ _ Hinv Hrunning) as (_ & _ & Hnotfull).
  destruct (available_total (Game.board g) Hwf) as (l & Hl & Hempty).
  destruct (available_filter (Game.board g) Hwf) as [Hfilter Hlen].
  assert (Hlf : l = filter (empty_at (Game.board g)) all_cells) by congruence.
  rewrite (inv_count _ _ Hinv).
  destruct l as [|m rest].
  - unfold Board.is_full in Hnotfull.
    rewrite (proj1 Hempty eq_refl) in Hnotfull. discriminate.
  - rewrite <- Hlf in Hlen. cbn in Hlen. lia.
Qed.

(** The loop of [play_auto] ends once the fuel covers the cells still
    empty. *)
Lemma play_auto_loop_ends (g0 : Game.t) (fuel : nat) :
  forall (envs : nat -> Env) (g : Game.t) (moves : list MoveResult)
         (logs : list LogEvent),
    invariant g0 g -> reachable g0 g ->
    (9 - List.length (Game.move_history g) <= fuel)%nat ->
    exists g' moves' logs',
      play_auto_loop fuel envs g moves logs
      = Returned (Some (g', (moves ++ moves')%list, (logs ++ logs')%list))
      /\ reachable g0 g'
      /\ Game.game_over g' = true
      /\ Forall (fun r => r_success r = true) moves'
      /\ List.length (Game.move_history g')
         = (List.length (Game.move_history g) + List.length moves')%nat
      /\ (Game.game_over g = true -> g' = g /\ moves' = [] /\ logs' = []).
Proof.
  induction fuel as [|fuel IH]; intros envs g moves logs Hinv Hreach Hfuel.
  - destruct (Game.game_over g) eqn:Hover.
    + exists g, [], []. cbn. rewrite Hover, !app_nil_r. repeat split; auto.
    + pose proof (running_history_short g0 g Hinv Hover). lia.
  - cbn [play_auto_loop]. destruct (Game.game_over g) eqn:Hover.
    + exists g, [], []. rewrite !app_nil_r. repeat split; auto.
    + destruct (auto_move_step (envs O) g0 g None None Hinv Hover
                  (or_introl eq_refl))
        as (res & g1 & logs1 & avail & r & c & md & Hmove & Hs & _ & _ & _
            & Hhist & _).
      rewrite Hmove. cbn [bind].
      assert (Hinv1 : invariant g0 g1) by (eapply invariant_move; eauto).
      assert (Hreach1 : reachable g0 g1) by (eapply reach_move; eauto).
      assert (Hlen1 : List.length (Game.move_history g1)
                      = S (List.length (Game.move_history g))).
      { rewrite Hhist, length_app. cbn. lia. }
      destruct (IH (fun k => envs (S k)) g1 (moves ++ [res])%list
                  (logs ++ logs1)%list Hinv1 Hreach1)
        as (g' & moves' & logs' & Heq & Hreach' & Hover' & Hall & Hlen & _);
        [lia|].
      exists g', (res :: moves'), (logs1 ++ logs')%list.
      rewrite Heq, <- !app_assoc. cbn [app].
      split; [reflexivity|]. split; [assumption|]. split; [assumption|].
      split; [constructor; assumption|].
      split; [rewrite Hlen, Hlen1; cbn; lia|].
      intros H. discriminate.
Qed.

(** X15.  [play_auto] on a reachable game ends after at most as many rounds
    as there are empty cells (nine at most): with that much fuel the loop
    returns, every round's move succeeded, the game is over, and the result
    reports the final winner, draw flag and board and the number of moves
    played, at most nine.  On a game already over it makes no move. *)
Theorem play_auto_terminates (g0 g : Game.t) (fuel : nat) (envs : nat -> Env)
    (Hstart : constructed g0) (Hreach : reachable g0 g)
    (Hfuel : (9 - List.length (Game.move_history g) <= fuel)%nat) :
  exists result g' logs,
    play_auto fuel envs g = Returned (Some (result, g', logs))
    /\ reachable g0 g'
    /\ Game.game_over g' = true
    /\ a_winner result = Game.winner g'
    /\ a_is_draw result = Game.is_draw g'
    /\ a_board result = Game.board g'
    /\ a_total_moves result = Z.of_nat (List.length (Game.move_history g'))
    /\ (a_total_moves result <= 9)%Z
    /\ Forall (fun r => r_success r = true) (a_moves result)
    /\ List.length (Game.move_history g')
       = (List.length (Game.move_history g) + List.length (a_moves result))%nat
    /\ (Game.game_over g = true -> g' = g /\ a_moves result = [] /\ logs = []).
Proof.
  destruct (invariants_reachable g0 g Hstart Hreach) as [Hinv _].
  destruct (play_auto_loop_ends g0 fuel envs g [] [] Hinv Hreach Hfuel)
    as (g' & moves' & logs' & Heq & Hreach' & Hover' & Hall & Hlen & Hidle).
  cbn [app] in Heq. unfold play_auto. rewrite Heq. cbn [bind].
  do 3 eexists. split; [reflexivity|]. cbn.
  destruct (invariants_reachable g0 g' Hstart Hreach') as [Hinv' _].
  split; [assumption|]. split; [assumption|].
  split; [reflexivity|]. split; [reflexivity|].
  split; [apply get_state_eq|]. split; [reflexivity|].
  split.
  - rewrite (inv_count _ _ Hinv').
    pose proof (count_occupied_bound _ (inv_wf _ _ Hinv')). lia.
  - split; [assumption|]. split; [assumption|]. exact Hidle.
Qed.

Lemma play_auto_terminates_witness :
  (9 - List.length (Game.move_history running_game) <= 7)%nat
  /\ exists result g' logs,
      play_auto 7 (fun _ => offline_env) running_game
      = Returned (Some (result, g', logs))
      /\ Game.game_over g' = true
      /\ (a_total_moves result <= 9)%Z.
Proof.
  assert (Hfuel : (9 - List.length (Game.move_history running_game) <= 7)%nat)
    by (vm_compute; lia).
  split; [exact Hfuel|].
  destruct (play_auto_terminates new_game running_game 7 (fun _ => offline_env)
              new_game_constructed running_game_reachable Hfuel)
    as (result & g' & logs & Heq & _ & Hover & _ & _ & _ & _ & Hle & _).
  exists result, g', logs. repeat split; assumption.
Defined.

(** *** What a call reports and logs *)

(** X16.  What [make_move] hands to the logger on a reachable game: nothing
    when logging is disabled or the game is already over; otherwise one move
    record (numbered one more than the history length, carrying the board
    after the attempt, the available moves before it and the validity of the
    move), followed by one game record exactly when this call ended the
    game, with the final move count, winner, draw flag and board. *)
Theorem make_move_logging (env : Env) (g0 g g' : Game.t) (row col : option Z)
    (res : MoveResult) (logs : list LogEvent)
    (Hstart : constructed g0) (Hreach : reachable g0 g)
    (Hmove : Game.make_move env g row col = Returned (res, g', logs)) :
  (Game.enable_logging g = false -> logs = [])
  /\ (Game.game_over g = true -> logs = [])
  /\ (Game.enable_logging g = true -> Game.game_over g = false ->
      exists available_moves r c md,
        Board.get_available_moves (Game.board g) = Returned available_moves
        /\ logs
           = move_record g g' available_moves r c md (r_success res)
               :: (if Game.game_over g'
                   then [LogGame (Game.game_id g)
                           (Player.get_player_type (Game.player_x g'))
                           (Player.get_model_name (Game.player_x g'))
                           (Player.get_player_type (Game.player_o g'))
                           (Player.get_model_name (Game.player_o g'))
                           (Z.of_nat (List.length (Game.move_history g')))
                           (Game.winner g') (Game.is_draw g') (duration env)
                           (Game.board g')]
                   else [])).
Proof.
  destruct (invariants_reachable g0 g Hstart Hreach) as [Hinv _].
  assert (Hinv' : invariant g0 g') by (eapply invariant_move; eauto).
  assert (Hlog : Game.enable_logging g' = Game.enable_logging g).
  { rewrite (inv_logging _ _ Hinv), (inv_logging _ _ Hinv'). reflexivity. }
  assert (Hid : Game.game_id g' = Game.game_id g).
  { rewrite (inv_id _ _ Hinv), (inv_id _ _ Hinv'). reflexivity. }
  destruct (Game.game_over g) eqn:Hover.
  - destruct (make_move_over env g row col Hover) as [res' Heq].
    rewrite Heq in Hmove. inversion Hmove; subst.
    split; [reflexivity|]. split; [reflexivity|]. intros _ H. discriminate.
  - destruct (make_move_detail env g0 g g' row col res logs Hinv Hover Hmove)
      as (avail & r & c & md & g1 & Havail & _ & _ & _ & _ & _ & _ & _ & _ & _
          & _ & _ & _ & Hlogs).
    unfold Game._log_game_summary in Hlogs. rewrite Hlog, Hid in Hlogs.
    rewrite get_state_eq in Hlogs.
    split; [|split; [intros H; discriminate|]].
    + intros Hoff. rewrite Hoff in Hlogs. cbn in Hlogs.
      destruct (Game.game_over g'); exact Hlogs.
    + intros Hon _. rewrite Hon in Hlogs. cbn in Hlogs.
      exists avail, r, c, md. split; [exact Havail|].
      destruct (Game.game_over g'); exact Hlogs.
Qed.

Lemma make_move_logging_witness :
  exists res g' logs mv summary,
    Game.make_move offline_env running_game (Some 2) (Some 2)
    = Returned (res, g', logs)
    /\ logs = [mv]
    /\ Game.make_move offline_env finished_game (Some 2) (Some 0)
       = Returned (summary, finished_game, []).
Proof.
  destruct (make_move_returns offline_env new_game running_game (Some 2) (Some 2))
    as (res & g' & logs & Hmove).
  { apply invariants_reachable;
      [exact new_game_constructed | exact running_game_reachable]. }
  destruct (make_move_logging offline_env new_game running_game g' (Some 2)
              (Some 2) res logs new_game_constructed running_game_reachable Hmove)
    as (_ & _ & Hon).
  destruct (Hon eq_refl eq_refl) as (avail & r & c & md & _ & Hlogs).
  assert (Hrunning' : Game.game_over g' = false).
  { assert (E : exists res0 logs0 g0',
               Game.make_move offline_env running_game (Some 2) (Some 2)
               = Returned (res0, g0', logs0) /\ Game.game_over g0' = false).
    { do 3 eexists. split; [vm_compute; reflexivity | reflexivity]. }
    destruct E as (res0 & logs0 & g0' & E & Ho). rewrite E in Hmove.
    inversion Hmove; subst. exact Ho. }
  rewrite Hrunning' in Hlogs.
  destruct (make_move_over offline_env finished_game (Some 2) (Some 0) eq_refl)
    as [summary Hsummary].
  exists res, g', logs. do 2 eexists.
  split; [exact Hmove|]. split; [exact Hlogs | exact Hsummary].
Defined.

(** X17.  The dictionary [make_move] returns on a reachable game describes
    the game after the call: same board and [game_over] flag; winner and draw
    flag when the game is over, the symbol of the player to move when it is
    not; and [success] holds exactly when the history grew by one entry. *)
Theorem result_describes_state (env : Env) (g0 g g' : Game.t)
    (row col : option Z) (res : MoveResult) (logs : list LogEvent)
    (Hstart : constructed g0) (Hreach : reachable g0 g)
    (Hmove : Game.make_move env g row col = Returned (res, g', logs)) :
  r_board res = Game.board g'
  /\ r_game_over res = Game.game_over g'
  /\ (Game.game_over g' = true ->
      r_winner res = Some (Game.winner g')
      /\ r_is_draw res = Some (Game.is_draw g')
      /\ r_current_player res = None)
  /\ (Game.game_over g' = false ->
      r_winner res = None /\ r_is_draw res = None
      /\ r_current_player res = Some (Player.symbol (Game.current g')))
  /\ (r_success res = true
      <-> List.length (Game.move_history g')
          = S (List.length (Game.move_history g)))
  /\ (r_success res = false -> Game.move_history g' = Game.move_history g).
Proof.
  destruct (invariants_reachable g0 g Hstart Hreach) as [Hinv _].
  destruct (Game.game_over g) eqn:Hover.
  - revert Hmove. unfold Game.make_move. rewrite Hover. intros Hmove.
    inversion Hmove; subst res g' logs. cbn. rewrite get_state_eq, Hover.
    split; [reflexivity|]. split; [reflexivity|].
    split; [auto|]. split; [intros H; discriminate|].
    split; [split; [discriminate | lia] | reflexivity].
  - destruct (make_move_detail env g0 g g' row col res logs Hinv Hover Hmove)
      as (avail & r & c & md & g1 & _ & _ & _ & _ & _ & _ & Hrb & Hrgo & _
          & Hsucc & _ & Hgo & Hngo & _).
    destruct (make_move_outcome env g row col (inv_wf _ _ Hinv) Hover)
      as (res' & g'' & logs' & Heq & _ & Hcases).
    rewrite Heq in Hmove. inversion Hmove; subst res' g'' logs'.
    split; [assumption|]. split; [assumption|].
    split; [intros Ho; destruct (Hgo Ho) as (_ & H1 & H2 & H3); auto|].
    split; [assumption|].
    destruct (r_success res) eqn:Hs.
    + destruct (Hsucc eq_refl) as [_ Hhist].
      split; [|intros H; discriminate].
      split; [intros _; rewrite Hhist, length_app; cbn; lia | reflexivity].
    + destruct Hcases as [(_ & _ & _ & Hhist & _) | (Hs' & _)];
        [|discriminate].
      split; [|intros _; assumption].
      split; [discriminate | rewrite Hhist; lia].
Qed.

Lemma result_describes_state_witness :
  exists res g' logs,
    Game.make_move offline_env running_game (Some 0) (Some 0)
    = Returned (res, g', logs)
    /\ r_board res = Game.board g'
    /\ r_game_over res = Game.game_over g'.
Proof.
  destruct (make_move_returns offline_env new_game running_game (Some 0) (Some 0))
    as (res & g' & logs & Hmove).
  { apply invariants_reachable;
      [exact new_game_constructed | exact running_game_reachable]. }
  destruct (result_describes_state offline_env new_game running_game g' (Some 0)
              (Some 0) res logs new_game_constructed running_game_reachable Hmove)
    as (Hb & Ho & _).
  exists res, g', logs. repeat split; assumption.
Defined.

(** ** main.py *)

Lemma lookup_store_same (key : string) (g : Game.t) (games : Api.Games) :
  Api.lookup key (Api.store key g games) = Some g.
Proof.
  induction games as [|[k g'] rest IH]; cbn.
  - rewrite String.eqb_refl. reflexivity.
  - destruct (String.eqb key k) eqn:E; cbn; rewrite E; auto.
Qed.

Lemma lookup_store_other (key other : string) (g : Game.t) (games : Api.Games) :
  other <> key ->
  Api.lookup other (Api.store key g games) = Api.lookup other games.
Proof.
  intros Hne. induction games as [|[k g'] rest IH]; cbn.
  - destruct (String.eqb_spec other key); [contradiction | reflexivity].
  - destruct (String.eqb_spec key k) as [-> | Hk]; cbn.
    + destruct (String.eqb_spec other k); [contradiction | reflexivity].
    + destruct (String.eqb other k); auto.
Qed.

Lemma lookup_in_keys (key : string) (g : Game.t) (games : Api.Games) :
  Api.lookup key games = Some g -> In key (map fst games).
Proof.
  induction games as [|[k g'] rest IH]; cbn; [discriminate|].
  destruct (String.eqb_spec key k) as [-> | Hk]; auto.
Qed.

Lemma lookup_not_in_keys (key : string) (games : Api.Games) :
  Api.lookup key games = None <-> ~ In key (map fst games).
Proof.
  induction games as [|[k g'] rest IH]; cbn.
  - tauto.
  - destruct (String.eqb_spec key k) as [-> | Hk].
    + split; [discriminate | intros H; exfalso; apply H; auto].
    + rewrite IH. split; [intros H [E | Hin]; [congruence | auto] | tauto].
Qed.

Lemma store_keys_present (key : string) (g g' : Game.t) (games : Api.Games) :
  Api.lookup key games = Some g' ->
  map fst (Api.store key g games) = map fst games.
Proof.
  induction games as [|[k g1] rest IH]; cbn; [discriminate|].
  destruct (String.eqb_spec key k) as [-> | Hk]; cbn; [reflexivity|].
  intros H. rewrite IH by assumption. reflexivity.
Qed.

Lemma store_keys_absent (key : string) (g : Game.t) (games : Api.Games) :
  Api.lookup key games = None ->
  Api.store key g games = (games ++ [(key, g)])%list.
Proof.
  induction games as [|[k g1] rest IH]; cbn; [reflexivity|].
  destruct (String.eqb_spec key k) as [-> | Hk]; [discriminate|].
  intros H. rewrite IH by assumption. reflexivity.
Qed.

Lemma store_unique (key : string) (g : Game.t) (games : Api.Games) :
  unique_keys games -> unique_keys (Api.store key g games).
Proof.
  unfold unique_keys. intros Hu.
  destruct (Api.lookup key games) as [g'|] eqn:E.
  - rewrite (store_keys_present key g g' games E). assumption.
  - rewrite (store_keys_absent key g games E), map_app. cbn.
    apply nodup_snoc; [assumption|]. apply lookup_not_in_keys. assumption.
Qed.

Lemma lookup_remove_other (key other : string) (games : Api.Games) :
  other <> key ->
  Api.lookup other (Api.remove key games) = Api.lookup other games.
Proof.
  intros Hne. induction games as [|[k g'] rest IH]; cbn; [reflexivity|].
  destruct (String.eqb_spec key k) as [-> | Hk]; cbn.
  - destruct (String.eqb_spec other k); [contradiction | reflexivity].
  - destruct (String.eqb other k); auto.
Qed.

Lemma lookup_remove_same (key : string) (games : Api.Games) :
  unique_keys games -> Api.lookup key (Api.remove key games) = None.
Proof.
  unfold unique_keys. induction games as [|[k g'] rest IH]; cbn; intros Hu;
    [reflexivity|].
  inversion Hu; subst.
  destruct (String.eqb_spec key k) as [-> | Hk]; cbn.
  - apply lookup_not_in_keys. assumption.
  - destruct (String.eqb_spec key k); [contradiction | auto].
Qed.

Lemma remove_keys_subset (key k : string) (games : Api.Games) :
  In k (map fst (Api.remove key games)) -> In k (map fst games).
Proof.
  induction games as [|[k1 g'] rest IH]; cbn; [tauto|].
  destruct (String.eqb key k1); cbn; tauto.
Qed.

Lemma remove_unique (key : string) (games : Api.Games) :
  unique_keys games -> unique_keys (Api.remove key games).
Proof.
  unfold unique_keys. induction games as [|[k g'] rest IH]; cbn; intros Hu;
    [constructor|].
  inversion Hu; subst.
  destruct (String.eqb key k); cbn; [assumption|].
  constructor; [|auto].
  intros Hin. apply remove_keys_subset in Hin. contradiction.
Qed.

Lemma remove_length (key : string) (g : Game.t) (games : Api.Games) :
  Api.lookup key games = Some g ->
  S (List.length (Api.remove key games)) = List.length games.
Proof.
  induction games as [|[k g'] rest IH]; cbn; [discriminate|].
  destruct (String.eqb key k); cbn; [reflexivity|].
  intros H. rewrite IH by assumption. reflexivity.
Qed.

(** Replacing a registered game by one reached from it keeps the registry
    well formed. *)
Lemma registry_ok_store (key : string) (g : Game.t) (games : Api.Games) :
  registry_ok games ->
  (exists g0, constructed g0 /\ reachable g0 g) ->
  registry_ok (Api.store key g games).
Proof.
  intros [Hu Hall] Hg. split; [apply store_unique; assumption|].
  intros k g1 Hk.
  destruct (String.eqb_spec k key) as [-> | Hne].
  - rewrite lookup_store_same in Hk. inversion Hk; subst. assumption.
  - rewrite lookup_store_other in Hk by assumption. eapply Hall; eauto.
Qed.

Lemma reachable_constructed (g : Game.t) : constructed g -> exists g0, constructed g0 /\ reachable g0 g.
Proof. intros H. exists g. split; [assumption | apply reach_start]. Qed.

Lemma player_init_symbol (env : Env) (sym : Symbol) (name : option string)
    (agent : option Agent) (use_llm : bool) (provider model : string)
    (temperature : spec_float) :
  Player.symbol (Player.init env sym name agent use_llm provider model temperature)
  = sym.
Proof.
  unfold Player.init. destruct agent as [a|]; [reflexivity|].
  destruct (use_llm && agents_available env); [|reflexivity].
  destruct (create_agent env _ _ provider model); reflexivity.
Qed.

Lemma get_state_fresh (g : Game.t) :
  Game.board g = Board.init -> Game.game_over g = false ->
  Game.get_state g
  = Returned (mkGameState Board.init (Some (Player.symbol (Game.current g)))
                (Game.winner g) (Game.is_draw g) false (Game.move_history g)
                all_cells).
Proof.
  intros Hb Ho. unfold Game.get_state. rewrite Hb, Ho. reflexivity.
Qed.

(** X18.  [POST /games/{id}/move]: an unknown identifier gives the 404
    response and changes nothing.  For a registered game the handler never
    raises, returns the result of that game's [make_move], stores the
    changed game under the same key, and leaves every other registered game,
    and the set and order of keys, as they were. *)
Theorem api_make_move_isolated (env : Env) (games : Api.Games) (game_id : string)
    (move : Api.MoveRequest) (Hok : registry_ok games) :
  (Api.lookup game_id games = None ->
   Api.make_move env games game_id move = Returned (Api.not_found, games, []))
  /\ (forall g, Api.lookup game_id games = Some g ->
      exists result g' logs,
        Game.make_move env g (Api.row move) (Api.col move)
        = Returned (result, g', logs)
        /\ Api.make_move env games game_id move
           = Returned (Api.Ok (game_id, result), Api.store game_id g' games, logs)
        /\ Api.lookup game_id (Api.store game_id g' games) = Some g'
        /\ (forall other, other <> game_id ->
              Api.lookup other (Api.store game_id g' games)
              = Api.lookup other games)
        /\ map fst (Api.store game_id g' games) = map fst games
        /\ registry_ok (Api.store game_id g' games)).
Proof.
  split.
  - intros Hnone. unfold Api.make_move. rewrite Hnone. reflexivity.
  - intros g Hg. destruct Hok as [Hu Hall].
    destruct (Hall game_id g Hg) as (g0 & Hc & Hreach).
    destruct (invariants_reachable g0 g Hc Hreach) as [Hinv _].
    destruct (make_move_returns env g0 g (Api.row move) (Api.col move) Hinv)
      as (result & g' & logs & Hmove).
    exists result, g', logs. split; [assumption|].
    split; [unfold Api.make_move; rewrite Hg, Hmove; reflexivity|].
    split; [apply lookup_store_same|].
    split; [intros other Hne; apply lookup_store_other; assumption|].
    split; [eapply store_keys_present; eauto|].
    apply registry_ok_store; [split; assumption|].
    exists g0. split; [assumption|]. eapply reach_move; eauto.
Qed.

(** X19.  [POST /games]: the handler never raises; it registers, under the
    fresh identifier, a newly constructed game carrying that identifier,
    and answers with the initial state (empty board, X to move, all nine
    cells available).  Other registered games are untouched; when the
    identifier is new the game is added last and the count of [GET /games]
    grows by one. *)
Theorem api_create_game (env : Env) (games : Api.Games)
    (config : option Api.GameConfig) (Hok : registry_ok games) :
  exists body g games',
    Api.create_game env games config = Returned (body, games')
    /\ constructed g
    /\ Game.game_id g = fresh_uuid env
    /\ Api.lookup (fresh_uuid env) games' = Some g
    /\ Api.created_id body = fresh_uuid env
    /\ Api.created_state body
       = mkGameState Board.init (Some "X") None false false [] all_cells
    /\ Api.created_x body = Api.player_info (Game.player_x g)
    /\ Api.created_o body = Api.player_info (Game.player_o g)
    /\ (forall other, other <> fresh_uuid env ->
          Api.lookup other games' = Api.lookup other games)
    /\ registry_ok games'
    /\ (Api.lookup (fresh_uuid env) games = None ->
        games' = (games ++ [(fresh_uuid env, g)])%list
        /\ fst (Api.list_games games') = (fst (Api.list_games games) + 1)%Z).
Proof.
  set (px := match config with
             | Some c => Api.configured_player env "X" (Api.player_x c)
             | None => None
             end).
  set (po := match config with
             | Some c => Api.configured_player env "O" (Api.player_o c)
             | None => None
             end).
  set (lg := match config with
             | Some c => Api.enable_logging c
             | None => true
             end).
  set (g := Game.init env (Some (fresh_uuid env)) px po lg).
  assert (Hunfold :
            Api.create_game env games config
            = (g1 <- Api.getitem (fresh_uuid env)
                       (Api.store (fresh_uuid env) g games) ;;
               state <- Game.get_state g1 ;;
               Returned
                 (Api.mkCreateBody (fresh_uuid env) "Game created successfully"
                    state (Api.player_info (Game.player_x g1))
                    (Api.player_info (Game.player_o g1)),
                  Api.store (fresh_uuid env) g games))).
  { unfold Api.create_game, g, px, po, lg. destruct config; reflexivity. }
  assert (Hc : constructed g).
  { unfold constructed, g. do 5 eexists. reflexivity. }
  assert (Hx : Player.symbol (Game.player_x g) = "X").
  { unfold g, px. cbn [Game.init Game.player_x].
    destruct config as [c|]; [|reflexivity].
    destruct (Api.player_x c); [apply player_init_symbol | reflexivity]. }
  assert (Hstate :
            Game.get_state g
            = Returned (mkGameState Board.init (Some "X") None false false []
                          all_cells)).
  { rewrite (get_state_fresh g eq_refl eq_refl).
    change (Game.current g) with (Game.player_x g). rewrite Hx. reflexivity. }
  exists (Api.mkCreateBody (fresh_uuid env) "Game created successfully"
            (mkGameState Board.init (Some "X") None false false [] all_cells)
            (Api.player_info (Game.player_x g))
            (Api.player_info (Game.player_o g))),
    g, (Api.store (fresh_uuid env) g games).
  split.
  - rewrite Hunfold. unfold Api.getitem. rewrite lookup_store_same.
    cbn [bind]. rewrite Hstate. reflexivity.
  - split; [exact Hc|].
    split; [unfold g; cbn; destruct (String.eqb (fresh_uuid env) ""); reflexivity|].
    split; [apply lookup_store_same|].
    split; [reflexivity|]. split; [reflexivity|].
    split; [reflexivity|]. split; [reflexivity|].
    split; [intros other Hne; apply lookup_store_other; assumption|].
    split.
    + apply registry_ok_store; [assumption|].
      apply reachable_constructed. exact Hc.
    + intros Hnew. rewrite (store_keys_absent _ _ _ Hnew).
      split; [reflexivity|]. cbn. rewrite length_app. cbn. lia.
Qed.

Lemma sample_games_ok : registry_ok sample_games.
Proof.
  split.
  - unfold unique_keys, sample_games. cbn.
    constructor; [intros [H | []]; discriminate|].
    constructor; [intros [] | constructor].
  - intros key g Hk. unfold sample_games in Hk. cbn in Hk.
    destruct (String.eqb key "game-1").
    + inversion Hk; subst. exists new_game.
      split; [exact new_game_constructed | exact running_game_reachable].
    + destruct (String.eqb key "game-2"); [|discriminate].
      inversion Hk; subst. exists new_game.
      split; [exact new_game_constructed | exact finished_game_reachable].
Qed.

Lemma api_make_move_isolated_witness :
  registry_ok sample_games
  /\ Api.make_move offline_env sample_games "game-9" (Api.mkMoveRequest None None)
     = Returned (Api.not_found, sample_games, [])
  /\ exists result g' logs,
      Api.make_move offline_env sample_games "game-1"
        (Api.mkMoveRequest (Some 2) (Some 2))
      = Returned (Api.Ok ("game-1", result),
                  Api.store "game-1" g' sample_games, logs)
      /\ Api.lookup "game-2" (Api.store "game-1" g' sample_games)
         = Some finished_game.
Proof.
  split; [exact sample_games_ok|].
  destruct (api_make_move_isolated offline_env sample_games "game-9"
              (Api.mkMoveRequest None None) sample_games_ok) as [Hnone _].
  split; [apply Hnone; reflexivity|].
  destruct (api_make_move_isolated offline_env sample_games "game-1"
              (Api.mkMoveRequest (Some 2) (Some 2)) sample_games_ok)
    as [_ Hsome].
  destruct (Hsome running_game eq_refl)
    as (result & g' & logs & _ & Heq & _ & Hother & _).
  exists result, g', logs. split; [exact Heq|].
  rewrite Hother; [reflexivity | discriminate].
Defined.

Lemma api_create_game_witness :
  registry_ok sample_games
  /\ exists body g games',
      Api.create_game offline_env sample_games None = Returned (body, games')
      /\ Api.created_state body
         = mkGameState Board.init (Some "X") None false false [] all_cells
      /\ Api.lookup (fresh_uuid offline_env) games' = Some g
      /\ Api.lookup "game-1" games' = Some running_game.
Proof.
  split; [exact sample_games_ok|].
  destruct (api_create_game offline_env sample_games None sample_games_ok)
    as (body & g & games' & Heq & _ & _ & Hnew & _ & Hstate & _ & _ & Hother & _).
  exists body, g, games'. split; [exact Heq|]. split; [exact Hstate|].
  split; [exact Hnew|].
  rewrite Hother; [reflexivity | discriminate].
Defined.

(** X20.  [DELETE /games/{id}]: an unknown identifier gives the 404 response
    and changes nothing.  Deleting a registered game removes exactly that
    entry: a later [GET /games/{id}] answers 404, every other game is still
    registered unchanged, and the count of games drops by one. *)
Theorem api_delete_game (games : Api.Games) (game_id : string)
    (Hok : registry_ok games) :
  (Api.lookup game_id games = None ->
   Api.delete_game games game_id = (Api.not_found, games))
  /\ (forall g, Api.lookup game_id games = Some g ->
      Api.delete_game games game_id
      = (Api.Ok (game_id, "Game deleted successfully"),
         Api.remove game_id games)
      /\ Api.lookup game_id (Api.remove game_id games) = None
      /\ Api.get_game (Api.remove game_id games) game_id
         = Returned Api.not_found
      /\ (forall other, other <> game_id ->
            Api.lookup other (Api.remove game_id games)
            = Api.lookup other games)
      /\ fst (Api.list_games games)
         = (fst (Api.list_games (Api.remove game_id games)) + 1)%Z
      /\ registry_ok (Api.remove game_id games)).
Proof.
  destruct Hok as [Hu Hall]. split.
  - intros Hnone. unfold Api.delete_game. rewrite Hnone. reflexivity.
  - intros g Hg.
    pose proof (lookup_remove_same game_id games Hu) as Hgone.
    split; [unfold Api.delete_game; rewrite Hg; reflexivity|].
    split; [exact Hgone|].
    split; [unfold Api.get_game; rewrite Hgone; reflexivity|].
    split; [intros other Hne; apply lookup_remove_other; assumption|].
    split.
    + cbn. rewrite <- (remove_length game_id g games Hg). lia.
    + split; [apply remove_unique; assumption|].
      intros key g1 Hk.
      destruct (String.eqb_spec key game_id) as [-> | Hne]; [congruence|].
      rewrite lookup_remove_other in Hk by assumption. eapply Hall; eauto.
Qed.

Lemma api_delete_game_witness :
  registry_ok sample_games
  /\ Api.get_game (Api.remove "game-1" sample_games) "game-1"
     = Returned Api.not_found
  /\ Api.lookup "game-2" (Api.remove "game-1" sample_games)
     = Some finished_game.
Proof.
  split; [exact sample_games_ok|].
  destruct (api_delete_game sample_games "game-1" sample_games_ok) as [_ Hsome].
  destruct (Hsome running_game eq_refl) as (_ & _ & Hget & Hother & _).
  split; [exact Hget|].
  rewrite Hother; [reflexivity | discriminate].
Defined.

(** X21.  [POST /games/{id}/reset]: an unknown identifier gives the 404
    response and changes nothing.  For a registered game the handler never
    raises and answers with the initial state; afterwards [GET /games/{id}]
    returns that same state, the game keeps its key, and every other game
    is untouched. *)
Theorem api_reset_game (env : Env) (games : Api.Games) (game_id : string)
    (Hok : registry_ok games) :
  (Api.lookup game_id games = None ->
   Api.reset_game env games game_id = Returned (Api.not_found, games))
  /\ (forall g, Api.lookup game_id games = Some g ->
      let fresh_state :=
        mkGameState Board.init (Some (Player.symbol (Game.player_x g)))
          None false false [] all_cells in
      let games' := Api.store game_id (Game.reset env g) games in
      Api.reset_game env games game_id
      = Returned (Api.Ok (game_id, "Game reset successfully", fresh_state), games')
      /\ Api.get_game games' game_id = Returned (Api.Ok (game_id, fresh_state))
      /\ (forall other, other <> game_id ->
            Api.lookup other games' = Api.lookup other games)
      /\ map fst games' = map fst games
      /\ registry_ok games').
Proof.
  split.
  - intros Hnone. unfold Api.reset_game. rewrite Hnone. reflexivity.
  - intros g Hg. cbv zeta.
    assert (Hstate :
              Game.get_state (Game.reset env g)
              = Returned
                  (mkGameState Board.init
                     (Some (Player.symbol (Game.player_x g)))
                     None false false [] all_cells)).
    { rewrite (get_state_fresh (Game.reset env g) eq_refl eq_refl).
      reflexivity. }
    split.
    + unfold Api.reset_game, Api.getitem. rewrite Hg, lookup_store_same.
      cbn [bind]. rewrite Hstate. reflexivity.
    + split.
      * unfold Api.get_game. rewrite lookup_store_same, Hstate. reflexivity.
      * split; [intros other Hne; apply lookup_store_other; assumption|].
        split; [eapply store_keys_present; eauto|].
        apply registry_ok_store; [assumption|].
        destruct Hok as [_ Hall].
        destruct (Hall game_id g Hg) as (g0 & Hc & Hreach).
        exists g0. split; [assumption | apply reach_reset; assumption].
Qed.

Lemma api_reset_game_witness :
  registry_ok sample_games
  /\ Api.get_game (Api.store "game-2" (Game.reset offline_env finished_game)
                     sample_games) "game-2"
     = Returned
         (Api.Ok ("game-2",
                  mkGameState Board.init (Some "X") None false false []
                    all_cells)).
Proof.
  split; [exact sample_games_ok|].
  destruct (api_reset_game offline_env sample_games "game-2" sample_games_ok)
    as [_ Hsome].
  destruct (Hsome finished_game eq_refl) as (_ & Hget & _).
  exact Hget.
Defined.

(** X22.  [POST /games/{id}/auto]: an unknown identifier gives the 404
    response and changes nothing.  For a registered game nine rounds are
    always enough: the handler returns the result of [play_auto], the game
    stored under the key is over, at most nine moves were played in total,
    and every other registered game is untouched. *)
Theorem api_play_auto (fuel : nat) (envs : nat -> Env) (games : Api.Games)
    (game_id : string) (Hok : registry_ok games) (Hfuel : (9 <= fuel)%nat) :
  (Api.lookup game_id games = None ->
   Api.play_auto fuel envs games game_id
   = Returned (Some (Api.not_found, games, [])))
  /\ (forall g, Api.lookup game_id games = Some g ->
      exists result g' logs,
        Api.play_auto fuel envs games game_id
        = Returned (Some (Api.Ok (game_id, result),
                          Api.store game_id g' games, logs))
        /\ Game.game_over g' = true
        /\ a_winner result = Game.winner g'
        /\ a_is_draw result = Game.is_draw g'
        /\ (a_total_moves result <= 9)%Z
        /\ (forall other, other <> game_id ->
              Api.lookup other (Api.store game_id g' games)
              = Api.lookup other games)
        /\ registry_ok (Api.store game_id g' games)).
Proof.
  split.
  - intros Hnone. unfold Api.play_auto. rewrite Hnone. reflexivity.
  - intros g Hg. destruct Hok as [Hu Hall].
    destruct (Hall game_id g Hg) as (g0 & Hc & Hreach).
    destruct (invariants_reachable g0 g Hc Hreach) as [Hinv _].
    destruct (play_auto_loop_ends g0 fuel envs g [] [] Hinv Hreach)
      as (g' & moves' & logs' & Heq & Hreach' & Hover' & _); [lia|].
    cbn [app] in Heq.
    destruct (invariants_reachable g0 g' Hc Hreach') as [Hinv' _].
    do 3 eexists. split.
    + unfold Api.play_auto, play_auto. rewrite Hg, Heq. cbn [bind]. reflexivity.
    + cbn. split; [assumption|]. split; [reflexivity|]. split; [reflexivity|].
      split.
      * rewrite (inv_count _ _ Hinv').
        pose proof (count_occupied_bound _ (inv_wf _ _ Hinv')). lia.
      * split; [intros other Hne; apply lookup_store_other; assumption|].
        apply registry_ok_store; [split; assumption|].
        exists g0. split; assumption.
Qed.

Lemma api_play_auto_witness :
  registry_ok sample_games /\ (9 <= 9)%nat
  /\ exists result g' logs,
      Api.play_auto 9 (fun _ => offline_env) sample_games "game-1"
      = Returned (Some (Api.Ok ("game-1", result),
                        Api.store "game-1" g' sample_games, logs))
      /\ Game.game_over g' = true.
Proof.
  split; [exact sample_games_ok|]. split; [lia|].
  destruct (api_play_auto 9 (fun _ => offline_env) sample_games "game-1"
              sample_games_ok (le_n 9)) as [_ Hsome].
  destruct (Hsome running_game eq_refl)
    as (result & g' & logs & Heq & Hover & _).
  exists result, g', logs. split; assumption.
Defined.

(** ** logger.py *)

Lemma substring_prefix_length (n : nat) (s : string) :
  String.length (substring 0 n s) = Nat.min n (String.length s).
Proof.
  revert s. induction n as [|n IH]; intros s.
  - destruct s; reflexivity.
  - destruct s as [|c s]; [reflexivity|]. cbn. rewrite IH. reflexivity.
Qed.

Lemma cap_capped (text : option string) :
  capped text (Logger.or_empty (Logger.cap text)).
Proof.
  unfold capped, Logger.cap, Logger.or_empty.
  destruct text as [s|]; [|cbn; split; [lia | reflexivity]].
  destruct (Nat.leb_spec (String.length s) 500) as [Hle | Hgt].
  - assert (E : (500 <? String.length s)%nat = false) by (apply Nat.ltb_ge; lia).
    rewrite E, andb_false_r. split; [lia | reflexivity].
  - assert (E : (500 <? String.length s)%nat = true) by (apply Nat.ltb_lt; lia).
    assert (Hs : String.eqb s "" = false).
    { destruct s; [cbn in Hgt; lia | reflexivity]. }
    rewrite E, Hs. cbn [negb andb].
    assert (Hlen : String.length (substring 0 500 s ++ "...") = 503%nat).
    { rewrite string_length_app, substring_prefix_length.
      rewrite Nat.min_l by lia. reflexivity. }
    split; [lia | split; [reflexivity | assumption]].
Qed.

(** X23.  The row [log_move] writes has one cell per column of the header;
    the prompt and the response are capped (kept when at most 500 characters
    long, else cut to their first 500 characters plus three dots, so never
    longer than 503), a missing prompt, response or error is the empty text,
    and no cell is [None]. *)
Theorem log_move_row (timestamp game_id : string) (move_number : Z)
    (player : Symbol) (player_type : string) (board_state : Grid)
    (available_moves : list Move) (prompt_sent llm_response : option string)
    (llm_reasoning : json) (chosen_move : option (option Z * option Z))
    (move_valid : bool) (error_message : option string)
    (response_time_ms : option spec_float) :
  let cells :=
    Logger.log_move timestamp game_id move_number player player_type
      board_state available_moves prompt_sent llm_response llm_reasoning
      chosen_move move_valid error_message response_time_ms in
  List.length cells = List.length Logger.moves_header
  /\ (exists p r,
        nth_error cells 7 = Some (CellStr p)
        /\ nth_error cells 8 = Some (CellStr r)
        /\ capped prompt_sent p /\ capped llm_response r)
  /\ (error_message = None -> nth_error cells 12 = Some (CellStr ""))
  /\ (llm_reasoning = JNull -> nth_error cells 9 = Some (CellStr ""))
  /\ ~ In (CellValue JNull) cells.
Proof.
  cbv zeta. split; [reflexivity|]. split; [|split; [|split]].
  - do 2 eexists. split; [reflexivity|]. split; [reflexivity|].
    split; apply cap_capped.
  - intros ->. reflexivity.
  - intros ->. reflexivity.
  - unfold Logger.log_move. cbn [In]. intros H.
    repeat (destruct H as [H | H]; [try discriminate H|]).
    + destruct llm_reasoning; cbn in H; try discriminate H.
      * destruct b; discriminate H.
      * destruct (negb (z =? 0)); discriminate H.
      * destruct f; discriminate H.
      * destruct (negb (String.eqb s "")); discriminate H.
      * destruct items; discriminate H.
      * destruct fields; discriminate H.
    + destruct response_time_ms as [[| | |]|]; discriminate H.
    + contradiction.
Qed.

(** ** How long a game takes *)

Lemma all_lines_distinct (p q t : Move) :
  In (p, q, t) all_lines -> p <> q /\ p <> t /\ q <> t.
Proof.
  unfold all_lines. cbn. intros H.
  repeat (destruct H as [H | H];
          [inversion H; subst; repeat split; discriminate|]).
  contradiction.
Qed.

Lemma three_same_parity (i j k : nat) (b : bool) :
  i <> j -> i <> k -> j <> k ->
  Nat.even i = b -> Nat.even j = b -> Nat.even k = b ->
  (4 <= i \/ 4 <= j \/ 4 <= k)%nat.
Proof.
  intros Hij Hik Hjk Hi Hj Hk.
  destruct (Nat.le_gt_cases 4 i) as [H | Hi4]; [auto|].
  destruct (Nat.le_gt_cases 4 j) as [H | Hj4]; [auto|].
  destruct (Nat.le_gt_cases 4 k) as [H | Hk4]; [auto|].
  exfalso.
  assert (Ei : (i = 0 \/ i = 1 \/ i = 2 \/ i = 3)%nat) by lia.
  assert (Ej : (j = 0 \/ j = 1 \/ j = 2 \/ j = 3)%nat) by lia.
  assert (Ek : (k = 0 \/ k = 1 \/ k = 2 \/ k = 3)%nat) by lia.
  destruct Ei as [-> | [-> | [-> | ->]]];
    destruct Ej as [-> | [-> | [-> | ->]]];
    destruct Ek as [-> | [-> | [-> | ->]]];
    cbn in Hi, Hj, Hk; congruence.
Qed.

(** X24.  In every reachable game a draw is recorded only with nine moves
    in the history; and when the two players' symbols are non-empty and
    different, a winner is recorded only with at least five. *)
Theorem game_length (g0 g : Game.t)
    (Hstart : constructed g0) (Hreach : reachable g0 g) :
  (Game.is_draw g = true -> List.length (Game.move_history g) = 9%nat)
  /\ (symbols_truthy g0 ->
      Player.symbol (Game.player_x g0) <> Player.symbol (Game.player_o g0) ->
      Game.winner g <> None ->
      (5 <= List.length (Game.move_history g))%nat).
Proof.
  destruct (invariants_reachable g0 g Hstart Hreach) as [Hinv Hplay].
  pose proof (inv_wf _ _ Hinv) as Hwf.
  split.
  - intros Hdraw.
    assert (Hover : Game.game_over g = true).
    { destruct (Game.game_over g) eqn:E; [reflexivity|].
      destruct (inv_running _ _ Hinv E) as (_ & Hd & _). congruence. }
    destruct (inv_over _ _ Hinv Hover) as [[_ Hd] | (_ & _ & Hfull)];
      [congruence|].
    destruct (available_total (Game.board g) Hwf) as (l & Hl & Hempty).
    destruct (available_filter (Game.board g) Hwf) as [Hf Hlen].
    assert (Hlf : l = filter (empty_at (Game.board g)) all_cells) by congruence.
    unfold Board.is_full in Hfull. apply Hempty in Hfull.
    rewrite <- Hlf, Hfull in Hlen. cbn in Hlen.
    rewrite (inv_count _ _ Hinv). lia.
  - intros Ht Hdiff Hwin.
    destruct (Game.winner g) as [s|] eqn:Hw; [|contradiction].
    destruct (inv_marks _ _ Hinv Ht) as [_ Hboard].
    destruct (check_winner_lines (Game.board g) Hwf) as (w & Hcw & _ & Hsome).
    unfold Board.get_winner in Hboard. rewrite Hboard, Hw in Hcw.
    inversion Hcw; subst w.
    destruct (Hsome s eq_refl) as (n & [[p q] t] & Hn & (H1 & H2 & H3) & _).
    apply nth_error_In in Hn.
    destruct (all_lines_in_range p q t Hn) as (Rp & Rq & Rt).
    destruct (all_lines_distinct p q t Hn) as (Npq & Npt & Nqt).
    destruct (play_marks _ _ Hplay _ _ _ Rp H1) as [w1 E1].
    destruct (play_marks _ _ Hplay _ _ _ Rq H2) as [w2 E2].
    destruct (play_marks _ _ Hplay _ _ _ Rt H3) as [w3 E3].
    destruct (In_nth_error _ _ E1) as [i Hi].
    destruct (In_nth_error _ _ E2) as [j Hj].
    destruct (In_nth_error _ _ E3) as [k Hk].
    pose proof (play_alternate _ _ Hplay _ _ Hi) as Pi.
    pose proof (play_alternate _ _ Hplay _ _ Hj) as Pj.
    pose proof (play_alternate _ _ Hplay _ _ Hk) as Pk.
    cbn [h_player] in Pi, Pj, Pk.
    assert (Hpar : forall a b : nat,
               Player.symbol (side_player g0 (side_of_index a))
               = Player.symbol (side_player g0 (side_of_index b)) ->
               Nat.even a = Nat.even b).
    { intros a b. unfold side_of_index.
      destruct (Nat.even a), (Nat.even b); cbn; intros E;
        try reflexivity; exfalso; apply Hdiff; congruence. }
    assert (Hij : i <> j).
    { intros ->. rewrite Hi in Hj. inversion Hj.
      apply Npq. destruct p, q; cbn in *; congruence. }
    assert (Hik : i <> k).
    { intros ->. rewrite Hi in Hk. inversion Hk.
      apply Npt. destruct p, t; cbn in *; congruence. }
    assert (Hjk : j <> k).
    { intros ->. rewrite Hj in Hk. inversion Hk.
      apply Nqt. destruct q, t; cbn in *; congruence. }
    assert (Li : (i < List.length (Game.move_history g))%nat)
      by (apply nth_error_Some; congruence).
    assert (Lj : (j < List.length (Game.move_history g))%nat)
      by (apply nth_error_Some; congruence).
    assert (Lk : (k < List.length (Game.move_history g))%nat)
      by (apply nth_error_Some; congruence).
    destruct (three_same_parity i j k (Nat.even i) Hij Hik Hjk eq_refl)
      as [H | [H | H]]; try lia.
    + apply Hpar. congruence.
    + apply Hpar. congruence.
Qed.

Lemma game_length_witness :
  (5 <= List.length (Game.move_history finished_game))%nat.
Proof.
  destruct (game_length new_game finished_game new_game_constructed
              finished_game_reachable) as [_ Hwin].
  apply Hwin; [exact new_game_symbols | discriminate | discriminate].
Defined.
